(** * Logical replication writer processor

    A shallow embedding of
    [pkg/ccl/crosscluster/logical/logical_replication_writer_processor.go]:
    the dispatcher ([handleEvent]), the frontier gate ([maybeCheckpoint],
    [checkpoint]) and the parallel applier ([flushBuffer], [flushChunk],
    [filterRemaining]).

    Conventions of the embedding.
    - A Go slice is a window on a backing array.  Functions that write
      through their slice argument return the array as the caller sees it
      afterwards, next to their Go results.
    - A slice that may be [nil] is an [option (list _)]; [None] is [nil].
    - [int64] arithmetic is written with its wrap-around ([add64]).
    - Collaborators declared outside this file (the frontier, the purgatory,
      the dead-letter queue client, the batch handlers, the clock) are
      interfaces: records of operations over an abstract state. *)

From Stdlib Require Import ZArith Lia Strings.Byte String.
From stdpp Require Import base list sorting.

Local Open Scope Z_scope.

(** ** Machine integers *)

Definition wrap64 (z : Z) : Z := (z + 2 ^ 63) mod 2 ^ 64 - 2 ^ 63.

Definition add64 (a b : Z) : Z := wrap64 (a + b).

Definition maxInt64 : Z := 2 ^ 63 - 1.
Definition minInt64 : Z := - 2 ^ 63.

(** ** Slices *)

Definition slice (A : Type) : Type := option (list A).

Definition elems {A} (s : slice A) : list A :=
  match s with Some l => l | None => [] end.

Definition len {A} (s : slice A) : nat := length (elems s).

(** ** Keys ([roachpb.Key] is a byte string) *)

Definition Key : Type := list byte.

(** [bytes.Compare]: lexicographic, the result is -1, 0 or +1. *)
Fixpoint bytes_Compare (a b : list byte) : Z :=
  match a, b with
  | [], [] => 0
  | [], _ :: _ => -1
  | _ :: _, [] => 1
  | x :: a', y :: b' =>
      match N.compare (Byte.to_N x) (Byte.to_N y) with
      | Lt => -1
      | Gt => 1
      | Eq => bytes_Compare a' b'
      end
  end.

(** [bytes.Equal]. *)
Fixpoint bytes_Equal (a b : list byte) : bool :=
  match a, b with
  | [], [] => true
  | x :: a', y :: b' => Byte.eqb x y && bytes_Equal a' b'
  | _, _ => false
  end.

Definition Key_Compare (a b : Key) : Z := bytes_Compare a b.
Definition Key_Equal (a b : Key) : bool := bytes_Equal a b.

(** ** Timestamps *)

(** Modelled from the spec: the commit timestamp embedded in a value
    ([hlc.Timestamp], whose declaration, [Compare] and [GoTime] are outside
    the file embedded here).  A wall time in nanoseconds with a logical
    counter that orders the commits of one wall time; [Compare] orders
    timestamps by commit time, [GoTime] is the wall time. *)
Record Timestamp : Type := mkTimestamp { WallTime : Z; Logical : Z }.

Definition Timestamp_Compare (t s : Timestamp) : Z :=
  if WallTime s <? WallTime t then 1
  else if WallTime t <? WallTime s then -1
  else if Logical s <? Logical t then 1
  else if Logical t <? Logical s then -1
  else 0.

(** A [time.Time], in nanoseconds since the Unix epoch. *)
Definition Time : Type := Z.

Definition GoTime (t : Timestamp) : Time := WallTime t.

(** ** Stream events *)

Record Value : Type := mkValue { RawBytes : list byte; Timestamp_ : Timestamp }.

Record KeyValue : Type := mkKeyValue { Key_ : Key; Value_ : Value }.

Record StreamEvent_KV : Type :=
  mkKV { KeyValue_ : KeyValue; PrevValue : Value }.

Definition zeroTimestamp : Timestamp := mkTimestamp 0 0.
Definition zeroValue : Value := mkValue [] zeroTimestamp.

(** [streampb.StreamEvent_KV{}]: the zero value that marks a processed slot. *)
Definition zeroKV : StreamEvent_KV :=
  mkKV (mkKeyValue [] zeroValue) zeroValue.

Definition kvKey (kv : StreamEvent_KV) : Key := Key_ (KeyValue_ kv).
Definition kvTimestamp (kv : StreamEvent_KV) : Timestamp :=
  Timestamp_ (Value_ (KeyValue_ kv)).

(** [len(kv.KeyValue.Key) != 0] *)
Definition hasKey (kv : StreamEvent_KV) : bool :=
  negb (length (kvKey kv) =? 0)%nat.

Record Span : Type := mkSpan { SpanKey : Key; EndKey : Key }.

Record ResolvedSpan : Type :=
  mkResolvedSpan { RSpan : Span; RTimestamp : Timestamp }.

(** ** [filterRemaining]

    The loop compacts in place: [remaining] aliases [kvs], so the read
    [kvs[i]] is a read of the array being written.  [n] counts the
    iterations left of [for i := range kvs]. *)

Fixpoint filterLoop (n i j : nat) (remaining : list StreamEvent_KV)
  : list StreamEvent_KV * nat :=
  match n with
  | O => (remaining, j)
  | S n' =>
      match remaining !! i with
      | Some kv =>
          if hasKey kv
          then filterLoop n' (S i) (S j) (<[j:=kv]> remaining)
          else filterLoop n' (S i) j remaining
      | None => (remaining, j)
      end
  end.

(** Returns the backing array after the compaction and the returned slice.
    When [j < len(kvs)/2] the result is a fresh copy
    ([append(remaining[:0:0], remaining[:j]...)]), otherwise it aliases the
    array; the contents are the same. *)
Definition filterRemaining (kvs : slice StreamEvent_KV)
  : slice StreamEvent_KV * slice StreamEvent_KV :=
  match kvs with
  | None => (None, None)
  | Some arr =>
      let '(remaining, j) := filterLoop (length arr) 0 0 arr in
      if (j <? length arr / 2)%nat
      then (Some remaining, Some ([] ++ take j remaining))
      else (Some remaining, Some (take j remaining))
  end.

(** ** Events of the replication stream

    [crosscluster.Event] is an interface declared outside this file; an
    event is given by what its methods return.  [OtherEventType] stands for
    every value of [crosscluster.EventType] that [handleEvent] does not
    name. *)

Inductive EventType : Type :=
  | KVEvent
  | SSTableEvent
  | DeleteRangeEvent
  | CheckpointEvent
  | SplitEvent
  | OtherEventType (tag : Z).

Record Event : Type := mkEvent {
  Type_ : EventType;
  GetKVs : list StreamEvent_KV;
  GetResolvedSpans : slice ResolvedSpan
}.

(** ** Errors

    [errors.New], [errors.Newf] and [errors.Wrap] keep their format string
    and argument; [Foreign] is an error made by a collaborator. *)

Inductive FmtArg : Type :=
  | ArgEvent (e : Event)
  | ArgEventType (t : EventType).

Inductive Error : Type :=
  | errors_New (msg : string)
  | errors_Newf (format : string) (arg : FmtArg)
  | errors_Wrap (cause : Error) (msg : string)
  | Foreign (code : N).

(** [context.Context] as [checkpoint] observes it: [ctxDone = Some e] when
    the [select] takes the [<-ctx.Done()] case, [e] being [ctx.Err()];
    [None] when the send on the checkpoint channel goes through. *)
Record Ctx : Type := mkCtx { ctxDone : option Error }.

(** ** Batch statistics *)

Record batchStats : Type := mkStats {
  notProcessed : Z;
  byteSize : Z;
  optimisticInsertConflicts : Z
}.

Definition zeroStats : batchStats := mkStats 0 0 0.

(** [func (b *batchStats) Add(o batchStats)]: [notProcessed] is not summed. *)
Definition batchStats_Add (b o : batchStats) : batchStats :=
  mkStats (notProcessed b)
          (add64 (byteSize b) (byteSize o))
          (add64 (optimisticInsertConflicts b) (optimisticInsertConflicts o)).

(** [stats.notProcessed++] *)
Definition incNotProcessed (b : batchStats) : batchStats :=
  mkStats (add64 (notProcessed b) 1) (byteSize b) (optimisticInsertConflicts b).

(** ** Metrics and debug status *)

Record Metrics : Type := mkMetrics {
  CheckpointEvents : Z;
  AppliedRowUpdates : Z;
  AppliedLogicalBytes : Z;
  OptimisticInsertConflictCount : Z;
  CommitToCommitLatency : list Z;
  StreamBatchNanosHist : list Z;
  StreamBatchRowsHist : list Z;
  StreamBatchBytesHist : list Z;
  ApplyBatchNanosHist : list Z
}.

Definition zeroMetrics : Metrics := mkMetrics 0 0 0 0 [] [] [] [] [].

(** The calls made on [lrw.debug] ([streampb.DebugLogicalConsumerStatus]),
    oldest first. *)
Inductive DebugCall : Type :=
  | RecordRecv (gap : Z)
  | RecordFlushStart (start : Time) (keyCount : Z)
  | RecordFlushComplete (nanos keyCount byteCount : Z)
  | RecordBatchApplied (nanos keyCount : Z).

(** [time.Time.Sub] saturates at the bounds of [time.Duration]. *)
Definition clampDuration (d : Z) : Z := Z.max minInt64 (Z.min maxInt64 d).

(** ** Settings and testing knobs *)

Record Settings : Type := mkSettings {
  flushBatchSize : nat;          (* settings.NonNegativeInt, default 32 *)
  useImplicitTxns : bool         (* default true *)
}.

Record StreamingTestingKnobs : Type := mkKnobs {
  RunAfterReceivingEvent : option (Ctx -> option Error);
  ElideCheckpointEvent : option (Z -> Timestamp -> bool)
}.

Definition maxWriterWorkers : nat := 32.
Definition minChunkSize : nat := 64.
Definition logAllDLQs : bool := true.

Section Processor.

(** The decoded row ([cdcevent.Row]). *)
Context {Row : Type}.
Variable IsInitialized : Row -> bool.

(** What the collaborators act on: the destination database, the
    dead-letter table and the handlers' own state. *)
Context {World : Type}.

(** [span.Frontier]. *)
Context {Frontier : Type}.
Variable Forward : Frontier -> Span -> Timestamp -> Frontier * (bool * option Error).
Variable Frontier_Frontier : Frontier -> Timestamp.

(** [keys.EnsureSafeSplitKey]; [None] is its error result. *)
Variable EnsureSafeSplitKey : Key -> option Key.

(** The readings of the wall clock, in the order [timeutil.Now] is called. *)
Variable wallClock : nat -> Time.

Inductive LogArg : Type :=
  | LRow (row : Row)             (* row.DebugString() *)
  | LKV (kv : StreamEvent_KV)    (* event.String() *)
  | LErr (e : Error).

Inductive LogLine : Type :=
  | Infof (format : string) (args : list LogArg).

(** [BatchHandler] *)
Record BatchHandler : Type := mkBatchHandler {
  HandleBatch : World -> list StreamEvent_KV -> World * (batchStats * option Error);
  GetLastRow : World -> Row
}.

(** [DeadLetterQueueClient] *)
Record DeadLetterQueueClient : Type := mkDLQ {
  Log : World -> Z -> StreamEvent_KV -> Row -> Error -> World * option Error
}.

(** [logicalReplicationWriterProcessor] without its purgatory: the fields
    set at construction, then the ones the processor updates. *)
Record Processor : Type := mkProcessor {
  JobID : Z;
  SQLInstanceID : Z;
  settings : Settings;
  knobs : option StreamingTestingKnobs;
  bh : list BatchHandler;
  dlqClient : DeadLetterQueueClient;
  frontier : Frontier;
  checkpointCh : list (slice ResolvedSpan);   (* values sent, oldest first *)
  metrics : Metrics;
  debug : list DebugCall;
  world : World;
  logs : list LogLine;
  tick : nat
}.

Definition setFrontier (p : Processor) (f : Frontier) : Processor :=
  mkProcessor (JobID p) (SQLInstanceID p) (settings p) (knobs p) (bh p)
    (dlqClient p) f (checkpointCh p) (metrics p) (debug p) (world p)
    (logs p) (tick p).

Definition setCheckpointCh (p : Processor) (c : list (slice ResolvedSpan)) : Processor :=
  mkProcessor (JobID p) (SQLInstanceID p) (settings p) (knobs p) (bh p)
    (dlqClient p) (frontier p) c (metrics p) (debug p) (world p)
    (logs p) (tick p).

Definition setMetrics (p : Processor) (m : Metrics) : Processor :=
  mkProcessor (JobID p) (SQLInstanceID p) (settings p) (knobs p) (bh p)
    (dlqClient p) (frontier p) (checkpointCh p) m (debug p) (world p)
    (logs p) (tick p).

Definition setDebug (p : Processor) (d : list DebugCall) : Processor :=
  mkProcessor (JobID p) (SQLInstanceID p) (settings p) (knobs p) (bh p)
    (dlqClient p) (frontier p) (checkpointCh p) (metrics p) d (world p)
    (logs p) (tick p).

Definition setWorld (p : Processor) (w : World) : Processor :=
  mkProcessor (JobID p) (SQLInstanceID p) (settings p) (knobs p) (bh p)
    (dlqClient p) (frontier p) (checkpointCh p) (metrics p) (debug p) w
    (logs p) (tick p).

Definition setLogs (p : Processor) (l : list LogLine) : Processor :=
  mkProcessor (JobID p) (SQLInstanceID p) (settings p) (knobs p) (bh p)
    (dlqClient p) (frontier p) (checkpointCh p) (metrics p) (debug p)
    (world p) l (tick p).

Definition setTick (p : Processor) (n : nat) : Processor :=
  mkProcessor (JobID p) (SQLInstanceID p) (settings p) (knobs p) (bh p)
    (dlqClient p) (frontier p) (checkpointCh p) (metrics p) (debug p)
    (world p) (logs p) n.

(** [timeutil.Now()] *)
Definition Now (p : Processor) : Time * Processor :=
  (wallClock (tick p), setTick p (S (tick p))).

(** [timeutil.Since(t)], in nanoseconds. *)
Definition Since (p : Processor) (t : Time) : Z * Processor :=
  let '(now, p) := Now p in (clampDuration (now - t), p).

Definition log_Infof (p : Processor) (format : string) (args : list LogArg)
  : Processor :=
  setLogs p (logs p ++ [Infof format args]).

Definition debugRecord (p : Processor) (c : DebugCall) : Processor :=
  setDebug p (debug p ++ [c]).

(** *** [shouldRetryLater] and [dlq] *)

Definition shouldRetryLater (err : Error) : bool := true.

Definition dlq (p : Processor) (event : StreamEvent_KV) (row : Row)
    (applyErr : Error) : Processor * option Error :=
  let p :=
    if logAllDLQs then
      if IsInitialized row
      then log_Infof p "sending event to DLQ, %s due to %v" [LRow row; LErr applyErr]
      else log_Infof p "sending KV to DLQ, %s due to %v" [LKV event; LErr applyErr]
    else p in
  let '(w, err) := Log (dlqClient p) (world p) (JobID p) event row applyErr in
  (setWorld p w, err).

(** *** [flushChunk] *)

(** What [flushChunk] does with a row whose size-1 batch failed with
    [err]; the source writes it out twice, for a batch of one row and
    inside the per-row retry.  The slot of the row is not written. *)
Definition handleFailure (p : Processor) (h : BatchHandler)
    (kv : StreamEvent_KV) (err : Error) (mustProcess : bool)
    (stats : batchStats) : Processor * (batchStats * option Error) :=
  if mustProcess || negb (shouldRetryLater err) then
    match dlq p kv (GetLastRow h (world p)) err with
    | (p, Some e) => (p, (zeroStats, Some e))
    | (p, None) => (p, (stats, None))
    end
  else (p, (incNotProcessed stats, None)).

(** [for i := range batch] of the retry: [before] holds the slots
    [batch[:i]] as the loop left them, [todo] is [batch[i:]]. *)
Fixpoint retryRows (p : Processor) (h : BatchHandler) (mustProcess : bool)
    (before todo : list StreamEvent_KV) (stats : batchStats)
  : Processor * list StreamEvent_KV * (batchStats * option Error) :=
  match todo with
  | [] => (p, before, (stats, None))
  | kv :: todo' =>
      let '(w, (singleStats, err)) := HandleBatch h (world p) [kv] in
      let p := setWorld p w in
      match err with
      | Some e =>
          match handleFailure p h kv e mustProcess stats with
          | (p, (_, Some e')) => (p, before ++ kv :: todo', (zeroStats, Some e'))
          | (p, (stats, None)) =>
              retryRows p h mustProcess (before ++ [kv]) todo' stats
          end
      | None =>
          retryRows p h mustProcess (before ++ [zeroKV]) todo'
            (batchStats_Add stats singleStats)
      end
  end.

(** [batchSize] as [flushChunk] computes it. *)
Definition batchSizeOf (s : Settings) : nat :=
  if useImplicitTxns s then 1%nat else flushBatchSize s.

(** One batch: the body of [for len(chunk) > 0] up to the timing calls.
    Returns the slots of [batch] afterwards. *)
Definition flushBatch (p : Processor) (h : BatchHandler) (mustProcess : bool)
    (batch : list StreamEvent_KV) (stats : batchStats)
  : Processor * list StreamEvent_KV * (batchStats * option Error) :=
  let '(w, (s, err)) := HandleBatch h (world p) batch in
  let p := setWorld p w in
  match err with
  | Some e =>
      match batch with
      | [kv] =>
          let '(p, r) := handleFailure p h kv e mustProcess stats in
          (p, batch, r)
      | _ => retryRows p h mustProcess [] batch stats
      end
  | None =>
      (p, replicate (length batch) zeroKV, (batchStats_Add stats s, None))
  end.

(** The loop of [flushChunk].  [before] holds the slots already cut off
    the front of [chunk]; [n] bounds the iterations.  [None]: the bound
    was reached with rows still to process. *)
Fixpoint flushChunkLoop (n : nat) (p : Processor) (h : BatchHandler)
    (mustProcess : bool) (batchSize : nat)
    (before chunk : list StreamEvent_KV) (stats : batchStats)
  : option (Processor * list StreamEvent_KV * (batchStats * option Error)) :=
  match chunk with
  | [] => Some (p, before, (stats, None))
  | _ :: _ =>
      match n with
      | O => None
      | S n' =>
          let batch := take (Nat.min batchSize (length chunk)) chunk in
          let chunk' := drop (length batch) chunk in
          let '(preBatchTime, p) := Now p in
          match flushBatch p h mustProcess batch stats with
          | (p, batch', (_, Some e)) =>
              Some (p, before ++ batch' ++ chunk', (zeroStats, Some e))
          | (p, batch', (stats, None)) =>
              let '(batchTime, p) := Since p preBatchTime in
              let p := debugRecord p
                         (RecordBatchApplied batchTime (Z.of_nat (length batch))) in
              let m := metrics p in
              let p := setMetrics p
                (mkMetrics (CheckpointEvents m) (AppliedRowUpdates m)
                   (AppliedLogicalBytes m) (OptimisticInsertConflictCount m)
                   (CommitToCommitLatency m) (StreamBatchNanosHist m)
                   (StreamBatchRowsHist m) (StreamBatchBytesHist m)
                   (ApplyBatchNanosHist m ++ [batchTime])) in
              flushChunkLoop n' p h mustProcess batchSize
                (before ++ batch') chunk' stats
          end
      end
  end.

(** [flushChunk]: returns the processor, the slots of [chunk] afterwards
    and the Go results.  Every iteration that cuts a non-empty batch
    shortens [chunk], so [length chunk] iterations suffice; the result is
    [None] exactly when the loop does not terminate. *)
Definition flushChunk (p : Processor) (h : BatchHandler)
    (chunk : list StreamEvent_KV) (mustProcess : bool)
  : option (Processor * list StreamEvent_KV * (batchStats * option Error)) :=
  flushChunkLoop (length chunk) p h mustProcess (batchSizeOf (settings p))
    [] chunk zeroStats.

(** *** [flushBuffer] *)

(** The closure [k]: the row key of a KV event, truncated to the row key
    prefix when [EnsureSafeSplitKey] succeeds. *)
Definition k (kv : StreamEvent_KV) : Key :=
  match EnsureSafeSplitKey (kvKey kv) with
  | Some p => p
  | None => kvKey kv
  end.

(** The comparison passed to [slices.SortFunc]. *)
Definition cmpKV (a b : StreamEvent_KV) : Z :=
  let c := Key_Compare (k a) (k b) in
  if negb (c =? 0) then c
  else Timestamp_Compare (kvTimestamp a) (kvTimestamp b).

Definition cmpLe (a b : StreamEvent_KV) : Prop := cmpKV a b <= 0.

#[local] Instance cmpLe_dec a b : Decision (cmpLe a b).
Proof. unfold cmpLe. apply _. Defined.

(** [slices.SortFunc(kvs, cmp)].  The Go sort is not stable: rows that
    compare equal come out in an unspecified order.  Merge sort stands
    for it here, and the results on [flushBuffer] use it only through
    [SortFunc_Permutation] and [SortFunc_Sorted]. *)
Definition slices_SortFunc (kvs : list StreamEvent_KV) : list StreamEvent_KV :=
  merge_sort cmpLe kvs.

(** [for chunkEnd < len(kvs) && k(kvs[chunkEnd-1]).Equal(k(kvs[chunkEnd]))
    { chunkEnd++ }]; [n] is [len(kvs) - chunkEnd], the number of
    iterations the first test allows. *)
Fixpoint extendChunk (n : nat) (kvs : list StreamEvent_KV) (chunkEnd : nat)
  : nat :=
  match n with
  | O => chunkEnd
  | S n' =>
      match kvs !! (chunkEnd - 1)%nat, kvs !! chunkEnd with
      | Some a, Some b =>
          if Key_Equal (k a) (k b)
          then extendChunk n' kvs (S chunkEnd)
          else chunkEnd
      | _, _ => chunkEnd
      end
  end.

(** [chunkEnd] for the chunk cut off the front of [kvs]. *)
Definition chunkEndOf (chunkSize : nat) (kvs : list StreamEvent_KV) : nat :=
  let chunkEnd := Nat.min chunkSize (length kvs) in
  extendChunk (length kvs - chunkEnd) kvs chunkEnd.

(** The slicing done by [for worker := range lrw.bh]: the chunk handed to
    each worker, and the local variable [kvs] when the loop ends.  The
    goroutines started by the loop write only to their own chunk, so the
    cuts do not depend on them. *)
Fixpoint cutChunks (workers : list BatchHandler) (chunkSize : nat)
    (kvs : list StreamEvent_KV)
  : list (BatchHandler * list StreamEvent_KV) * list StreamEvent_KV :=
  match workers with
  | [] => ([], kvs)
  | h :: workers' =>
      match kvs with
      | [] => ([], kvs)
      | _ :: _ =>
          let chunkEnd := chunkEndOf chunkSize kvs in
          let chunk := take chunkEnd kvs in
          let kvs := drop (length chunk) kvs in
          let '(jobs, rest) := cutChunks workers' chunkSize kvs in
          ((h, chunk) :: jobs, rest)
      end
  end.

(** [lrw.metrics.OptimisticInsertConflictCount.Inc(n)] *)
Definition incOptimisticInsertConflictCount (p : Processor) (n : Z) : Processor :=
  let m := metrics p in
  setMetrics p
    (mkMetrics (CheckpointEvents m) (AppliedRowUpdates m)
       (AppliedLogicalBytes m) (add64 (OptimisticInsertConflictCount m) n)
       (CommitToCommitLatency m) (StreamBatchNanosHist m)
       (StreamBatchRowsHist m) (StreamBatchBytesHist m)
       (ApplyBatchNanosHist m)).

(** The goroutines of the flush and [g.Wait()].  The workers write to
    disjoint chunks; they are run here one after the other in worker
    order, and the error returned is the first one in that order.
    Returns the chunks as the workers left them, [flushByteSize] and
    [notProcessed]. *)
Fixpoint runWorkers (p : Processor) (mustProcess : bool)
    (jobs : list (BatchHandler * list StreamEvent_KV))
    (flushByteSize notProcessed_ : Z)
  : option (Processor * list (list StreamEvent_KV) * (Z * Z) * option Error) :=
  match jobs with
  | [] => Some (p, [], (flushByteSize, notProcessed_), None)
  | (h, chunk) :: jobs' =>
      match flushChunk p h chunk mustProcess with
      | None => None
      | Some (p, chunk', (s, err)) =>
          let '(p, fbs, np) :=
            match err with
            | Some _ => (p, flushByteSize, notProcessed_)
            | None =>
                (incOptimisticInsertConflictCount p (optimisticInsertConflicts s),
                 add64 flushByteSize (byteSize s),
                 add64 notProcessed_ (notProcessed s))
            end in
          match runWorkers p mustProcess jobs' fbs np with
          | None => None
          | Some (p, chunks', counters, err') =>
              Some (p, chunk' :: chunks', counters,
                    match err with Some e => Some e | None => err' end)
          end
      end
  end.

(** [max((len(kvs)/len(lrw.bh))+1, minChunkSize)].  The constructor
    allocates [maxWriterWorkers] handlers; on an empty pool Go panics on
    the division. *)
Definition chunkSizeOf (n workers : nat) : nat :=
  Nat.max (n / workers + 1) minChunkSize.

(** The metrics recorded at the end of a flush. *)
Definition recordFlushMetrics (p : Processor)
    (total byteCount latency flushTime : Z) : Processor :=
  let m := metrics p in
  setMetrics p
    (mkMetrics (CheckpointEvents m)
       (add64 (AppliedRowUpdates m) total)
       (add64 (AppliedLogicalBytes m) byteCount)
       (OptimisticInsertConflictCount m)
       (CommitToCommitLatency m ++ [latency])
       (StreamBatchNanosHist m ++ [flushTime])
       (StreamBatchRowsHist m ++ [total])
       (StreamBatchBytesHist m ++ [byteCount])
       (ApplyBatchNanosHist m)).

(** [flushBuffer].  Returns the processor, the caller's buffer as the
    flush left it, and the Go results [(unapplied, error)].  [ctx] is only
    passed on; the tracing span opened on entry is left out. *)
Definition flushBuffer (ctx : Ctx) (p : Processor)
    (kvs : list StreamEvent_KV) (mustProcess : bool)
  : option (Processor * list StreamEvent_KV *
            (slice StreamEvent_KV * option Error)) :=
  match kvs with
  | [] => Some (p, kvs, (None, None))
  | kv0 :: _ =>
      let '(preFlushTime, p) := Now p in
      let p := debugRecord p
                 (RecordFlushStart preFlushTime (Z.of_nat (length kvs))) in
      let firstKeyTS := GoTime (kvTimestamp kv0) in
      let kvs := slices_SortFunc kvs in
      let chunkSize := chunkSizeOf (length kvs) (length (bh p)) in
      let total := Z.of_nat (length kvs) in
      let '(jobs, kvs) := cutChunks (bh p) chunkSize kvs in
      match runWorkers p mustProcess jobs 0 0 with
      | None => None
      | Some (p, chunks, _, Some err) =>
          Some (p, concat chunks ++ kvs, (None, Some err))
      | Some (p, chunks, (flushByteSize, notProcessed_), None) =>
          let '(kvs, unapplied) :=
            if 0 <? notProcessed_
            then filterRemaining (Some kvs)
            else (Some kvs, None) in
          let '(flushTime, p) := Since p preFlushTime in
          let byteCount := flushByteSize in
          let p := debugRecord p
                     (RecordFlushComplete flushTime total byteCount) in
          let '(latency, p) := Since p firstKeyTS in
          let p := recordFlushMetrics p total byteCount latency flushTime in
          Some (p, concat chunks ++ elems kvs, (unapplied, None))
      end
  end.

(** *** [checkpoint] *)

(** The elision knob of [checkpoint]. *)
Definition elideCheckpoint (p : Processor) : bool :=
  match knobs p with
  | Some streamingKnobs =>
      match ElideCheckpointEvent streamingKnobs with
      | Some f => f (SQLInstanceID p) (Frontier_Frontier (frontier p))
      | None => false
      end
  | None => false
  end.

(** [for _, resolvedSpan := range resolvedSpans { frontier.Forward ... }]:
    stops at the first error, keeping the forwards already made. *)
Fixpoint forwardAll (f : Frontier) (resolvedSpans : list ResolvedSpan)
  : Frontier * option Error :=
  match resolvedSpans with
  | [] => (f, None)
  | resolvedSpan :: rest =>
      match Forward f (RSpan resolvedSpan) (RTimestamp resolvedSpan) with
      | (f, (_, Some err)) => (f, Some err)
      | (f, (_, None)) => forwardAll f rest
      end
  end.

(** [lrw.metrics.CheckpointEvents.Inc(1)] *)
Definition incCheckpointEvents (p : Processor) : Processor :=
  let m := metrics p in
  setMetrics p
    (mkMetrics (add64 (CheckpointEvents m) 1) (AppliedRowUpdates m)
       (AppliedLogicalBytes m) (OptimisticInsertConflictCount m)
       (CommitToCommitLatency m) (StreamBatchNanosHist m)
       (StreamBatchRowsHist m) (StreamBatchBytesHist m)
       (ApplyBatchNanosHist m)).

Definition checkpoint (ctx : Ctx) (p : Processor)
    (resolvedSpans : slice ResolvedSpan) : Processor * option Error :=
  if elideCheckpoint p then (p, None)
  else
    match resolvedSpans with
    | None =>
        (p, Some (errors_New "checkpoint event expected to have resolved spans"))
    | Some spans =>
        match forwardAll (frontier p) spans with
        | (f, Some err) =>
            (setFrontier p f,
             Some (errors_Wrap err "unable to forward checkpoint frontier"))
        | (f, None) =>
            let p := setFrontier p f in
            match ctxDone ctx with
            | Some err => (p, Some err)
            | None =>
                let p := setCheckpointCh p (checkpointCh p ++ [resolvedSpans]) in
                (incCheckpointEvents p, None)
            end
        end
    end.

(** *** The purgatory and the dispatcher

    [purgatory] is declared outside this file.  Its methods are taken as
    they are called here; [Store] and [Drain] receive [lrw.flushBuffer]
    and [lrw.checkpoint] and act on the processor through them. *)

Definition flushFn : Type :=
  Ctx -> Processor -> list StreamEvent_KV -> bool ->
  option (Processor * list StreamEvent_KV *
          (slice StreamEvent_KV * option Error)).

Definition checkpointFn : Type :=
  Ctx -> Processor -> slice ResolvedSpan -> Processor * option Error.

Context {Purgatory : Type}.
Variable purgatory_Empty : Purgatory -> bool.
Variable purgatory_Checkpoint :
  Ctx -> Purgatory -> slice ResolvedSpan -> Purgatory.
Variable purgatory_Store :
  Ctx -> Purgatory -> slice StreamEvent_KV -> flushFn -> checkpointFn ->
  Processor -> option (Purgatory * Processor * option Error).
Variable purgatory_Drain :
  Ctx -> Purgatory -> flushFn -> checkpointFn ->
  Processor -> option (Purgatory * Processor * option Error).

Record lrwProcessor : Type := mkLrw {
  proc : Processor;
  purgatory : Purgatory
}.

Definition maybeCheckpoint (ctx : Ctx) (lrw : lrwProcessor)
    (resolvedSpans : slice ResolvedSpan)
  : option (lrwProcessor * option Error) :=
  if negb (purgatory_Empty (purgatory lrw)) then
    let pg := purgatory_Checkpoint ctx (purgatory lrw) resolvedSpans in
    match purgatory_Drain ctx pg flushBuffer checkpoint (proc lrw) with
    | None => None
    | Some (pg, p, err) => Some (mkLrw p pg, err)
    end
  else
    let '(p, err) := checkpoint ctx (proc lrw) resolvedSpans in
    Some (mkLrw p (purgatory lrw), err).

Definition handleStreamBuffer (ctx : Ctx) (lrw : lrwProcessor)
    (kvs : list StreamEvent_KV) : option (lrwProcessor * option Error) :=
  match flushBuffer ctx (proc lrw) kvs false with
  | None => None
  | Some (p, _, (_, Some err)) => Some (mkLrw p (purgatory lrw), Some err)
  | Some (p, _, (unapplied, None)) =>
      match purgatory_Store ctx (purgatory lrw) unapplied
              flushBuffer checkpoint p with
      | None => None
      | Some (pg, p, err) => Some (mkLrw p pg, err)
      end
  end.

(** The [RunAfterReceivingEvent] knob at the head of [handleEvent]. *)
Definition runAfterReceivingEvent (ctx : Ctx) (p : Processor) : option Error :=
  match knobs p with
  | Some streamingKnobs =>
      match RunAfterReceivingEvent streamingKnobs with
      | Some f => f ctx
      | None => None
      end
  | None => None
  end.

Definition handleEvent (ctx : Ctx) (lrw : lrwProcessor) (event : Event)
  : option (lrwProcessor * option Error) :=
  match runAfterReceivingEvent ctx (proc lrw) with
  | Some err => Some (lrw, Some err)
  | None =>
      match Type_ event with
      | KVEvent => handleStreamBuffer ctx lrw (GetKVs event)
      | CheckpointEvent => maybeCheckpoint ctx lrw (GetResolvedSpans event)
      | SSTableEvent | DeleteRangeEvent =>
          Some (lrw,
                Some (errors_Newf "unexpected event for online stream: %v"
                        (ArgEvent event)))
      | SplitEvent =>
          Some (mkLrw (log_Infof (proc lrw)
                         "SplitEvent received on logical replication stream" [])
                      (purgatory lrw),
                None)
      | OtherEventType _ =>
          Some (lrw,
                Some (errors_Newf "unknown streaming event type %v"
                        (ArgEventType (Type_ event))))
      end
  end.

(** [consumeEvents]: [events] is what the subscription delivers before
    it closes its channel, [subErr] what [subscription.Err()] returns
    then. *)
Fixpoint consumeLoop (ctx : Ctx) (lrw : lrwProcessor) (before : Time)
    (events : list Event) (subErr : option Error)
  : option (lrwProcessor * option Error) :=
  match events with
  | [] => Some (lrw, subErr)
  | event :: events' =>
      let '(gap, p) := Since (proc lrw) before in
      let p := debugRecord p (RecordRecv gap) in
      let '(before, p) := Now p in
      match handleEvent ctx (mkLrw p (purgatory lrw)) event with
      | None => None
      | Some (lrw, Some err) => Some (lrw, Some err)
      | Some (lrw, None) => consumeLoop ctx lrw before events' subErr
      end
  end.

Definition consumeEvents (ctx : Ctx) (lrw : lrwProcessor)
    (events : list Event) (subErr : option Error)
  : option (lrwProcessor * option Error) :=
  let '(before, p) := Now (proc lrw) in
  consumeLoop ctx (mkLrw p (purgatory lrw)) before events subErr.

(** * Properties *)

(** ** Basic facts *)

Lemma wrap64_small z : minInt64 <= z <= maxInt64 -> wrap64 z = z.
Proof.
  unfold wrap64, minInt64, maxInt64. intros Hz.
  rewrite Z.mod_small by lia. lia.
Qed.

(** *** Facts about keys *)

Lemma byte_eqb_eq x y : Byte.eqb x y = true <-> x = y.
Proof.
  split.
  - apply Byte.byte_dec_bl.
  - intros ->. apply Byte.byte_dec_lb. reflexivity.
Qed.

Lemma bytes_Equal_eq a b : bytes_Equal a b = true <-> a = b.
Proof.
  revert b. induction a as [|x a IH]; intros [|y b]; simpl; try easy.
  rewrite andb_true_iff, byte_eqb_eq, IH. split.
  - intros [-> ->]. reflexivity.
  - intros [= -> ->]. auto.
Qed.

Lemma bytes_Compare_range a b :
  bytes_Compare a b = -1 \/ bytes_Compare a b = 0 \/ bytes_Compare a b = 1.
Proof.
  revert b. induction a as [|x a IH]; intros [|y b]; simpl; auto.
  destruct (N.compare _ _); auto.
Qed.

Lemma bytes_Compare_eq a b : bytes_Compare a b = 0 <-> a = b.
Proof.
  revert b. induction a as [|x a IH]; intros [|y b]; simpl; try easy.
  destruct (N.compare (to_N x) (to_N y)) eqn:E.
  - apply N.compare_eq in E. apply (f_equal Byte.of_N) in E.
    rewrite !Byte.of_to_N in E. injection E as ->.
    rewrite IH. split; [intros ->; reflexivity | intros [= ->]; reflexivity].
  - split; [lia|]. intros [= -> ->]. rewrite N.compare_refl in E. discriminate.
  - split; [lia|]. intros [= -> ->]. rewrite N.compare_refl in E. discriminate.
Qed.

Lemma bytes_Compare_antisym a b : bytes_Compare b a = - bytes_Compare a b.
Proof.
  revert b. induction a as [|x a IH]; intros [|y b]; simpl; try easy.
  rewrite (N.compare_antisym (to_N x) (to_N y)).
  destruct (N.compare (to_N x) (to_N y)); simpl; auto.
Qed.

Lemma bytes_Compare_trans a b c :
  bytes_Compare a b <= 0 -> bytes_Compare b c <= 0 -> bytes_Compare a c <= 0.
Proof.
  revert b c. induction a as [|x a IH]; intros [|y b] [|z c]; simpl; try lia.
  destruct (N.compare (to_N x) (to_N y)) eqn:Exy; try lia;
    destruct (N.compare (to_N y) (to_N z)) eqn:Eyz; try lia; intros H1 H2.
  - apply N.compare_eq in Exy. rewrite Exy, Eyz. eauto.
  - apply N.compare_eq in Exy. rewrite Exy, Eyz. lia.
  - apply N.compare_eq in Eyz. rewrite <- Eyz, Exy. lia.
  - assert ((to_N x ?= to_N z)%N = Lt) as ->; [|lia].
    rewrite N.compare_lt_iff in *. lia.
Qed.

Lemma Key_Equal_eq a b : Key_Equal a b = true <-> a = b.
Proof. apply bytes_Equal_eq. Qed.

Lemma Key_Equal_Compare a b : Key_Equal a b = true <-> Key_Compare a b = 0.
Proof. unfold Key_Compare. rewrite bytes_Compare_eq. apply bytes_Equal_eq. Qed.

(** *** Facts about timestamps *)

Lemma Timestamp_Compare_range t s :
  Timestamp_Compare t s = -1 \/ Timestamp_Compare t s = 0 \/
  Timestamp_Compare t s = 1.
Proof. unfold Timestamp_Compare. repeat case_match; auto. Qed.

Lemma Timestamp_Compare_total t s :
  Timestamp_Compare t s <= 0 \/ Timestamp_Compare s t <= 0.
Proof.
  unfold Timestamp_Compare.
  repeat case_match; rewrite ?Z.ltb_lt, ?Z.ltb_ge in *; lia.
Qed.

Lemma Timestamp_Compare_trans t s u :
  Timestamp_Compare t s <= 0 -> Timestamp_Compare s u <= 0 ->
  Timestamp_Compare t u <= 0.
Proof.
  unfold Timestamp_Compare.
  repeat case_match; rewrite ?Z.ltb_lt, ?Z.ltb_ge in *; lia.
Qed.

(** *** [filterRemaining] computes a filter *)

Lemma filterLoop_spec rest : forall pre j,
  (j <= length pre)%nat ->
  let r := filterLoop (length rest) (length pre) j (pre ++ rest) in
  snd r = (j + length (filter (fun kv => hasKey kv = true) rest))%nat /\
  length (fst r) = length (pre ++ rest) /\
  take (snd r) (fst r) =
    take j pre ++ filter (fun kv => hasKey kv = true) rest.
Proof.
  induction rest as [|x rest IH]; intros pre j Hj; simpl.
  - rewrite app_nil_r, Nat.add_0_r. repeat split.
    rewrite filter_nil, app_nil_r. reflexivity.
  - rewrite lookup_app_r by lia. rewrite Nat.sub_diag. simpl.
    rewrite filter_cons. destruct (hasKey x) eqn:Hx.
    + rewrite decide_True by reflexivity.
      assert (Hins : <[j:=x]> (pre ++ x :: rest) = <[j:=x]> (pre ++ [x]) ++ rest).
      { rewrite (cons_middle x pre rest), app_assoc.
        rewrite insert_app_l; [reflexivity|]. rewrite length_app. simpl. lia. }
      rewrite Hins.
      assert (Hlen : S (length pre) = length (<[j:=x]> (pre ++ [x]))).
      { rewrite length_insert, length_app. simpl. lia. }
      rewrite Hlen.
      specialize (IH (<[j:=x]> (pre ++ [x])) (S j)).
      destruct IH as (IH1 & IH2 & IH3); [lia|].
      rewrite IH1, IH2. simpl in *. repeat split.
      * lia.
      * rewrite !length_app, length_insert, length_app. simpl. lia.
      * rewrite IH1 in IH3. rewrite IH3.
        rewrite (take_S_r _ j x).
        -- rewrite take_insert_ge by lia. rewrite take_app_le by lia.
           rewrite <- app_assoc. reflexivity.
        -- apply list_lookup_insert_eq. rewrite length_app. simpl. lia.
    + rewrite decide_False by discriminate.
      specialize (IH (pre ++ [x]) j).
      rewrite length_app in IH. simpl in IH.
      rewrite Nat.add_1_r in IH. rewrite <- app_assoc in IH. simpl in IH.
      destruct IH as (IH1 & IH2 & IH3); [lia|].
      rewrite IH1, IH2. repeat split.
      rewrite IH1 in IH3. rewrite IH3.
      rewrite take_app_le by lia. reflexivity.
Qed.

Lemma filterRemaining_filter arr :
  snd (filterRemaining (Some arr)) =
    Some (filter (fun kv => hasKey kv = true) arr).
Proof.
  unfold filterRemaining.
  pose proof (filterLoop_spec arr [] 0%nat (Nat.le_refl _)) as H.
  simpl in H. destruct (filterLoop (length arr) 0 0 arr) as [remaining j].
  simpl in H. destruct H as (_ & _ & H).
  destruct (j <? length arr / 2)%nat; simpl; rewrite H; reflexivity.
Qed.

(** ** The order of the sort *)

Lemma Key_Compare_le_antisym a b :
  Key_Compare a b <= 0 -> Key_Compare b a <= 0 -> a = b.
Proof.
  unfold Key_Compare. intros H1 H2. apply bytes_Compare_eq.
  rewrite bytes_Compare_antisym in H2. lia.
Qed.

Lemma Key_Compare_refl a : Key_Compare a a = 0.
Proof. unfold Key_Compare. apply bytes_Compare_eq. reflexivity. Qed.

Lemma cmpKV_key a b : cmpLe a b -> Key_Compare (k a) (k b) <= 0.
Proof.
  unfold cmpLe, cmpKV. destruct (Z.eqb_spec (Key_Compare (k a) (k b)) 0) as [->|]; simpl; lia.
Qed.

Lemma cmpKV_same_key a b :
  k a = k b -> cmpKV a b = Timestamp_Compare (kvTimestamp a) (kvTimestamp b).
Proof.
  intros E. unfold cmpKV. rewrite E, Key_Compare_refl. reflexivity.
Qed.

#[local] Instance cmpLe_total : Total cmpLe.
Proof.
  intros a b. unfold cmpLe, cmpKV, Key_Compare.
  rewrite (bytes_Compare_antisym (k a) (k b)).
  pose proof (bytes_Compare_range (k a) (k b)) as Hr.
  pose proof (Timestamp_Compare_total (kvTimestamp a) (kvTimestamp b)) as Ht.
  destruct (Z.eqb_spec (bytes_Compare (k a) (k b)) 0) as [E|E];
    destruct (Z.eqb_spec (- bytes_Compare (k a) (k b)) 0); simpl; lia.
Qed.

#[local] Instance cmpLe_trans : Transitive cmpLe.
Proof.
  intros a b c Hab Hbc.
  pose proof (cmpKV_key _ _ Hab) as Kab. pose proof (cmpKV_key _ _ Hbc) as Kbc.
  pose proof (bytes_Compare_trans _ _ _ Kab Kbc) as Kac.
  unfold cmpLe. unfold cmpKV at 1.
  destruct (Z.eqb_spec (Key_Compare (k a) (k c)) 0) as [E|E]; simpl; [|exact Kac].
  apply Key_Equal_Compare, Key_Equal_eq in E.
  assert (k a = k b) as Eab.
  { apply Key_Compare_le_antisym; [exact Kab|]. rewrite E. exact Kbc. }
  assert (k b = k c) as Ebc by congruence.
  unfold cmpLe in Hab, Hbc. rewrite cmpKV_same_key in Hab, Hbc by assumption.
  eapply Timestamp_Compare_trans; eassumption.
Qed.

Lemma SortFunc_Permutation kvs : slices_SortFunc kvs ≡ₚ kvs.
Proof. apply merge_sort_Permutation. Qed.

Lemma SortFunc_Sorted kvs : StronglySorted cmpLe (slices_SortFunc kvs).
Proof. apply StronglySorted_merge_sort; apply _. Qed.

Lemma SortFunc_length kvs : length (slices_SortFunc kvs) = length kvs.
Proof. apply Permutation_length, SortFunc_Permutation. Qed.

(** A buffer is key-sorted when row prefixes never decrease. *)
Definition keyLe (a b : StreamEvent_KV) : Prop := Key_Compare (k a) (k b) <= 0.

Lemma SortFunc_keySorted kvs : StronglySorted keyLe (slices_SortFunc kvs).
Proof.
  induction (SortFunc_Sorted kvs) as [|a l _ IH Ha]; constructor; [exact IH|].
  eapply Forall_impl; [exact Ha|]. intros b. apply cmpKV_key.
Qed.

Lemma StronglySorted_lookup {A} (R : relation A) l i j a b :
  StronglySorted R l -> (i < j)%nat -> l !! i = Some a -> l !! j = Some b -> R a b.
Proof.
  intros Hs. revert i j. induction Hs as [|x l Hs IH Hx]; intros i j Hij Hi Hj.
  - rewrite lookup_nil in Hi. discriminate.
  - destruct j as [|j]; [lia|]. simpl in Hj. destruct i as [|i]; simpl in Hi.
    + injection Hi as ->. rewrite Forall_forall in Hx. apply Hx.
      eapply list_elem_of_lookup_2. exact Hj.
    + eapply (IH i j); [lia| |]; assumption.
Qed.

Lemma StronglySorted_drop {A} (R : relation A) l n :
  StronglySorted R l -> StronglySorted R (drop n l).
Proof.
  intros Hs. rewrite <- (take_drop n l) in Hs.
  eapply StronglySorted_app_1_r. exact Hs.
Qed.

(** ** Cutting the buffer into chunks *)

Lemma keyLe_refl a : keyLe a a.
Proof. unfold keyLe. rewrite Key_Compare_refl. lia. Qed.

Lemma keyLe_trans a b c : keyLe a b -> keyLe b c -> keyLe a c.
Proof. unfold keyLe, Key_Compare. apply bytes_Compare_trans. Qed.

Lemma keySorted_lookup_le kvs i j a b :
  StronglySorted keyLe kvs -> (i <= j)%nat ->
  kvs !! i = Some a -> kvs !! j = Some b -> keyLe a b.
Proof.
  intros Hs Hij Hi Hj. destruct (decide (i = j)) as [->|Hne].
  - assert (a = b) as -> by congruence. apply keyLe_refl.
  - eapply StronglySorted_lookup; [exact Hs| |exact Hi|exact Hj]. lia.
Qed.

Lemma extendChunk_spec n : forall kvs c,
  (1 <= c)%nat -> (c + n = length kvs)%nat ->
  let e := extendChunk n kvs c in
  (c <= e <= length kvs)%nat /\
  (forall i, (c <= i < e)%nat ->
     exists a b, kvs !! (i - 1)%nat = Some a /\ kvs !! i = Some b /\ k a = k b) /\
  ((e < length kvs)%nat ->
     exists a b, kvs !! (e - 1)%nat = Some a /\ kvs !! e = Some b /\ k a <> k b).
Proof.
  induction n as [|n IH]; intros kvs c Hc Hlen; simpl.
  - repeat split; lia.
  - destruct (lookup_lt_is_Some_2 kvs (c - 1)%nat) as [a Ha]; [lia|].
    destruct (lookup_lt_is_Some_2 kvs c) as [b Hb]; [lia|].
    rewrite Ha, Hb. destruct (Key_Equal (k a) (k b)) eqn:E.
    + apply Key_Equal_eq in E.
      destruct (IH kvs (S c)) as (H1 & H2 & H3); [lia|lia|].
      split; [lia|]. split; [|exact H3].
      intros i Hi. destruct (decide (i = c)) as [->|Hne].
      * exists a, b. auto.
      * apply H2. lia.
    + split; [lia|]. split; [intros i Hi; lia|].
      intros _. exists a, b. repeat split; try assumption.
      intros E'. apply Key_Equal_eq in E'. congruence.
Qed.

Lemma chunkEndOf_spec chunkSize kvs :
  (1 <= chunkSize)%nat -> kvs <> [] ->
  let t := Nat.min chunkSize (length kvs) in
  let e := chunkEndOf chunkSize kvs in
  (1 <= t <= e)%nat /\ (e <= length kvs)%nat /\
  (forall i, (t <= i < e)%nat ->
     exists a b, kvs !! (i - 1)%nat = Some a /\ kvs !! i = Some b /\ k a = k b) /\
  ((e < length kvs)%nat ->
     exists a b, kvs !! (e - 1)%nat = Some a /\ kvs !! e = Some b /\ k a <> k b).
Proof.
  intros Hcs Hne. simpl. unfold chunkEndOf.
  assert (1 <= length kvs)%nat by (destruct kvs; [congruence|simpl; lia]).
  destruct (extendChunk_spec (length kvs - Nat.min chunkSize (length kvs)) kvs
              (Nat.min chunkSize (length kvs))) as (H1 & H2 & H3); [lia|lia|].
  repeat split; try lia; assumption.
Qed.

(** Rows on the two sides of a cut never share a row prefix. *)
Lemma chunk_boundary chunkSize kvs a b :
  (1 <= chunkSize)%nat -> kvs <> [] -> StronglySorted keyLe kvs ->
  a ∈ take (chunkEndOf chunkSize kvs) kvs ->
  b ∈ drop (chunkEndOf chunkSize kvs) kvs ->
  k a <> k b.
Proof.
  intros Hcs Hne Hs Ha Hb.
  destruct (chunkEndOf_spec chunkSize kvs Hcs Hne) as (Ht & He & _ & Hcut).
  set (e := chunkEndOf chunkSize kvs) in *.
  apply list_elem_of_lookup in Ha as [i Hi]. apply list_elem_of_lookup in Hb as [j Hj].
  pose proof (lookup_lt_Some _ _ _ Hi) as Hilt. rewrite length_take in Hilt.
  rewrite lookup_take_lt in Hi by lia. rewrite lookup_drop in Hj.
  pose proof (lookup_lt_Some _ _ _ Hj) as Hjlt.
  destruct Hcut as (a' & b' & Ha' & Hb' & Hk); [lia|].
  intros E. apply Hk.
  assert (keyLe a a') by (eapply (keySorted_lookup_le kvs i (e - 1)); eauto; lia).
  assert (keyLe a' b') by (eapply (keySorted_lookup_le kvs (e - 1) e); eauto; lia).
  assert (keyLe b' b) by (eapply (keySorted_lookup_le kvs e (e + j)); eauto; lia).
  apply Key_Compare_le_antisym; [assumption|].
  assert (keyLe b' a') as Hba.
  { eapply keyLe_trans; [eassumption|]. unfold keyLe in *. rewrite <- E. assumption. }
  exact Hba.
Qed.

(** The rows of two chunks never share a row prefix. *)
Definition prefixDisjoint (c1 c2 : list StreamEvent_KV) : Prop :=
  forall a b, a ∈ c1 -> b ∈ c2 -> k a <> k b.

Lemma cutChunks_concat workers : forall chunkSize kvs,
  concat (map snd (fst (cutChunks workers chunkSize kvs))) ++
    snd (cutChunks workers chunkSize kvs) = kvs.
Proof.
  induction workers as [|h workers IH]; intros chunkSize kvs; simpl; [reflexivity|].
  destruct kvs as [|kv kvs]; [reflexivity|].
  set (kvs0 := kv :: kvs). set (e := chunkEndOf chunkSize kvs0).
  specialize (IH chunkSize (drop (length (take e kvs0)) kvs0)).
  destruct (cutChunks workers chunkSize (drop (length (take e kvs0)) kvs0))
    as [jobs rest]. simpl in *.
  rewrite <- app_assoc, IH. rewrite length_take.
  assert (Nat.min e (length kvs0) = e \/ (length kvs0 <= e)%nat) as [->|Hle] by lia.
  - apply take_drop.
  - rewrite Nat.min_r by lia. rewrite take_ge, drop_ge by lia.
    apply app_nil_r.
Qed.

Lemma cutChunks_workers workers : forall chunkSize kvs,
  map fst (fst (cutChunks workers chunkSize kvs)) =
    take (length (fst (cutChunks workers chunkSize kvs))) workers.
Proof.
  induction workers as [|h workers IH]; intros chunkSize kvs; simpl; [reflexivity|].
  destruct kvs as [|kv kvs]; [reflexivity|].
  set (kvs0 := kv :: kvs). set (e := chunkEndOf chunkSize kvs0).
  specialize (IH chunkSize (drop (length (take e kvs0)) kvs0)).
  destruct (cutChunks workers chunkSize (drop (length (take e kvs0)) kvs0))
    as [jobs rest]. simpl in *. f_equal. exact IH.
Qed.

Lemma cutChunks_count workers chunkSize kvs :
  (length (fst (cutChunks workers chunkSize kvs)) <= length workers)%nat.
Proof.
  pose proof (f_equal length (cutChunks_workers workers chunkSize kvs)) as H.
  rewrite length_map, length_take in H. lia.
Qed.

Lemma cutChunks_disjoint workers : forall chunkSize kvs,
  (1 <= chunkSize)%nat -> StronglySorted keyLe kvs ->
  ForallOrdPairs prefixDisjoint (map snd (fst (cutChunks workers chunkSize kvs))).
Proof.
  induction workers as [|h workers IH]; intros chunkSize kvs Hcs Hs; simpl;
    [constructor|].
  destruct kvs as [|kv kvs]; [constructor|].
  set (kvs0 := kv :: kvs) in *. set (e := chunkEndOf chunkSize kvs0).
  assert (He : length (take e kvs0) = e).
  { destruct (chunkEndOf_spec chunkSize kvs0 Hcs) as (_ & H & _); [discriminate|].
    rewrite length_take. fold e in H. lia. }
  rewrite He.
  pose proof (cutChunks_concat workers chunkSize (drop e kvs0)) as Hcat.
  specialize (IH chunkSize (drop e kvs0) Hcs (StronglySorted_drop _ _ _ Hs)).
  destruct (cutChunks workers chunkSize (drop e kvs0)) as [jobs rest].
  simpl in *. constructor; [|exact IH].
  rewrite Forall_forall. intros c Hc a b Ha Hb.
  apply (chunk_boundary chunkSize kvs0 a b Hcs); [discriminate|exact Hs|exact Ha|].
  fold e. rewrite <- Hcat. apply elem_of_app. left.
  apply list_elem_of_In, in_concat. exists c. split; apply list_elem_of_In; assumption.
Qed.

(** Each chunk takes at least [chunkSize] rows or all that is left, so
    [workers] chunks leave at most [length kvs - workers * chunkSize]. *)
Lemma cutChunks_rest workers : forall chunkSize kvs,
  (1 <= chunkSize)%nat ->
  (length (snd (cutChunks workers chunkSize kvs)) +
     Nat.min (length kvs) (length workers * chunkSize) <= length kvs)%nat.
Proof.
  induction workers as [|h workers IH]; intros chunkSize kvs Hcs; [simpl; lia|].
  destruct kvs as [|kv kvs]; [simpl; lia|].
  remember (kv :: kvs) as kvs0 eqn:Hkvs0.
  assert (Hne : kvs0 <> []) by (subst; discriminate).
  destruct (chunkEndOf_spec chunkSize kvs0 Hcs Hne) as (Ht & Hle & _).
  assert (He : length (take (chunkEndOf chunkSize kvs0) kvs0) =
               chunkEndOf chunkSize kvs0) by (rewrite length_take; lia).
  specialize (IH chunkSize (drop (chunkEndOf chunkSize kvs0) kvs0) Hcs).
  rewrite length_drop in IH.
  assert (Hsnd : snd (cutChunks (h :: workers) chunkSize kvs0) =
                 snd (cutChunks workers chunkSize
                        (drop (chunkEndOf chunkSize kvs0) kvs0))).
  { subst kvs0. cbn [cutChunks]. rewrite He.
    destruct (cutChunks workers chunkSize _). reflexivity. }
  rewrite Hsnd. cbn [length]. nia.
Qed.

Lemma chunkSizeOf_covers n :
  (n < maxWriterWorkers * chunkSizeOf n maxWriterWorkers)%nat.
Proof.
  unfold chunkSizeOf, maxWriterWorkers.
  pose proof (Nat.div_mod_eq n 32). pose proof (Nat.mod_upper_bound n 32). lia.
Qed.

Lemma chunkSizeOf_pos n w : (1 <= chunkSizeOf n w)%nat.
Proof. unfold chunkSizeOf. lia. Qed.

(** With the pool of [maxWriterWorkers] handlers every row is handed to a
    worker: the local [kvs] is empty when the loop ends. *)
Lemma cutChunks_all workers kvs :
  length workers = maxWriterWorkers ->
  snd (cutChunks workers (chunkSizeOf (length kvs) (length workers)) kvs) = [].
Proof.
  intros Hw. rewrite Hw.
  pose proof (cutChunks_rest workers (chunkSizeOf (length kvs) maxWriterWorkers) kvs
                (chunkSizeOf_pos _ _)) as H.
  pose proof (chunkSizeOf_covers (length kvs)) as Hc. rewrite Hw in H.
  apply length_zero_iff_nil. lia.
Qed.

(** ** What a flush leaves alone *)

(** The values recorded so far in the commit-to-commit latency histogram. *)
Definition latencies (p : Processor) : list Z := CommitToCommitLatency (metrics p).

(** The workers of a flush leave alone the fields set at construction, the
    frontier, the checkpoint channel and the latency histogram. *)
Definition flushFrame (p p' : Processor) : Prop :=
  settings p' = settings p /\ knobs p' = knobs p /\ bh p' = bh p /\
  dlqClient p' = dlqClient p /\ JobID p' = JobID p /\
  frontier p' = frontier p /\ checkpointCh p' = checkpointCh p /\
  latencies p' = latencies p.

Lemma flushFrame_refl p : flushFrame p p.
Proof. unfold flushFrame. tauto. Qed.

Lemma flushFrame_trans p1 p2 p3 :
  flushFrame p1 p2 -> flushFrame p2 p3 -> flushFrame p1 p3.
Proof.
  unfold flushFrame.
  intros (A1 & A2 & A3 & A4 & A5 & A6 & A7 & A8) (B1 & B2 & B3 & B4 & B5 & B6 & B7 & B8).
  repeat split; congruence.
Qed.

Lemma dlq_frame p event row applyErr :
  flushFrame p (fst (dlq p event row applyErr)).
Proof.
  unfold dlq. simpl.
  destruct (IsInitialized row); simpl;
    destruct (Log _ _ _ _ _ _) as [w err]; repeat split.
Qed.

Lemma handleFailure_frame p h kv err mustProcess stats :
  flushFrame p (fst (handleFailure p h kv err mustProcess stats)).
Proof.
  unfold handleFailure.
  destruct (mustProcess || negb (shouldRetryLater err)); [|apply flushFrame_refl].
  pose proof (dlq_frame p kv (GetLastRow h (world p)) err) as H.
  destruct (dlq p kv (GetLastRow h (world p)) err) as [p' [e|]]; exact H.
Qed.

Lemma setWorld_frame p w : flushFrame p (setWorld p w).
Proof. repeat split. Qed.

Lemma retryRows_frame h mustProcess todo : forall p before stats,
  flushFrame p (fst (fst (retryRows p h mustProcess before todo stats))).
Proof.
  induction todo as [|kv todo IH]; intros p before stats; simpl;
    [apply flushFrame_refl|].
  destruct (HandleBatch h (world p) [kv]) as [w [singleStats [e|]]].
  - pose proof (handleFailure_frame (setWorld p w) h kv e mustProcess stats) as H.
    destruct (handleFailure (setWorld p w) h kv e mustProcess stats)
      as [p' [stats' [e'|]]]; simpl in H.
    + exact H.
    + eapply flushFrame_trans; [exact H|apply IH].
  - eapply flushFrame_trans; [apply (setWorld_frame p w)|apply IH].
Qed.

Lemma flushBatch_frame p h mustProcess batch stats :
  flushFrame p (fst (fst (flushBatch p h mustProcess batch stats))).
Proof.
  unfold flushBatch.
  destruct (HandleBatch h (world p) batch) as [w [s [e|]]]; [|repeat split].
  destruct batch as [|kv [|kv' batch]].
  - repeat split.
  - pose proof (handleFailure_frame (setWorld p w) h kv e mustProcess stats) as H.
    destruct (handleFailure (setWorld p w) h kv e mustProcess stats) as [p' r].
    exact H.
  - eapply flushFrame_trans; [apply (setWorld_frame p w)|apply retryRows_frame].
Qed.

Lemma flushChunkLoop_frame n h mustProcess batchSize :
  forall p before chunk stats p' chunk' r,
  flushChunkLoop n p h mustProcess batchSize before chunk stats = Some (p', chunk', r) ->
  flushFrame p p'.
Proof.
  induction n as [|n IH]; intros p before chunk stats p' chunk' r;
    destruct chunk as [|kv chunk]; simpl; try congruence;
    try (intros [= <- <- <-]; apply flushFrame_refl).
  set (batch := take (Nat.min batchSize (S (length chunk))) (kv :: chunk)).
  pose proof (flushBatch_frame (setTick p (S (tick p))) h mustProcess batch stats) as H.
  destruct (flushBatch (setTick p (S (tick p))) h mustProcess batch stats)
    as [[p1 batch'] [stats' [e|]]]; simpl in H.
  - intros [= <- <- <-]. exact H.
  - intros Hrec. apply IH in Hrec.
    eapply flushFrame_trans; [exact H|].
    eapply flushFrame_trans; [|exact Hrec]. repeat split; apply H.
Qed.

Lemma flushChunk_frame p h chunk mustProcess p' chunk' r :
  flushChunk p h chunk mustProcess = Some (p', chunk', r) -> flushFrame p p'.
Proof. apply flushChunkLoop_frame. Qed.

Lemma runWorkers_frame mustProcess jobs : forall p fbs np p' chunks counters err,
  runWorkers p mustProcess jobs fbs np = Some (p', chunks, counters, err) ->
  flushFrame p p'.
Proof.
  induction jobs as [|[h chunk] jobs IH]; intros p fbs np p' chunks counters err; simpl.
  - intros [= <- <- <- <-]. apply flushFrame_refl.
  - destruct (flushChunk p h chunk mustProcess) as [[[p1 chunk'] [s e]]|] eqn:Hc;
      [|discriminate].
    apply flushChunk_frame in Hc.
    destruct e as [e|].
    + destruct (runWorkers p1 mustProcess jobs fbs np)
        as [[[[p2 chunks'] counters'] err']|] eqn:Hr; [|discriminate].
      intros [= <- <- <- <-]. apply IH in Hr.
      eapply flushFrame_trans; eassumption.
    + destruct (runWorkers _ mustProcess jobs _ _)
        as [[[[p2 chunks'] counters'] err']|] eqn:Hr; [|discriminate].
      intros [= <- <- <- <-]. apply IH in Hr.
      eapply flushFrame_trans; [exact Hc|].
      eapply flushFrame_trans; [|exact Hr]. repeat split.
Qed.

Lemma runWorkers_latencies mustProcess jobs p fbs np p' chunks counters err :
  runWorkers p mustProcess jobs fbs np = Some (p', chunks, counters, err) ->
  latencies p' = latencies p.
Proof. intros H. apply runWorkers_frame in H. apply H. Qed.

(** ** Termination

    With a batch size of one or more, every iteration of [flushChunk]
    shortens the chunk, and the bound of [length chunk] iterations is never
    reached.  With a batch size of zero (implicit transactions off and
    [flushBatchSize] set to 0) a non-empty chunk is never shortened: the Go
    loop runs forever, and the result here is [None]. *)

Lemma flushChunkLoop_returns n h mustProcess batchSize :
  (1 <= batchSize)%nat ->
  forall p before chunk stats, (length chunk <= n)%nat ->
  exists r, flushChunkLoop n p h mustProcess batchSize before chunk stats = Some r.
Proof.
  intros Hbs. induction n as [|n IH]; intros p before chunk stats Hn;
    destruct chunk as [|kv chunk]; simpl in *; eauto; [lia|].
  set (batch := take (Nat.min batchSize (S (length chunk))) (kv :: chunk)).
  destruct (flushBatch (setTick p (S (tick p))) h mustProcess batch stats)
    as [[p1 batch'] [stats' [e|]]]; [eauto|].
  apply IH. unfold batch. rewrite length_drop, length_take. simpl. lia.
Qed.

Lemma flushChunk_returns p h chunk mustProcess :
  (1 <= batchSizeOf (settings p))%nat ->
  exists r, flushChunk p h chunk mustProcess = Some r.
Proof. intros H. apply flushChunkLoop_returns; [exact H|lia]. Qed.

Lemma flushChunkLoop_stuck n h mustProcess :
  forall p before chunk stats, chunk <> [] ->
  flushChunkLoop n p h mustProcess 0 before chunk stats = None.
Proof.
  induction n as [|n IH]; intros p before chunk stats Hne;
    destruct chunk as [|kv chunk]; try congruence; [reflexivity|].
  cbn [flushChunkLoop Nat.min take length drop Now fst snd].
  unfold flushBatch.
  destruct (HandleBatch h (world (setTick p (S (tick p)))) []) as [w [s [e|]]];
    cbn; apply IH; discriminate.
Qed.

Lemma flushChunk_never_returns p h chunk mustProcess :
  batchSizeOf (settings p) = 0%nat -> chunk <> [] ->
  flushChunk p h chunk mustProcess = None.
Proof. intros H Hne. unfold flushChunk. rewrite H. apply flushChunkLoop_stuck, Hne. Qed.

Lemma runWorkers_returns mustProcess jobs : forall p fbs np,
  (1 <= batchSizeOf (settings p))%nat ->
  exists r, runWorkers p mustProcess jobs fbs np = Some r.
Proof.
  induction jobs as [|[h chunk] jobs IH]; intros p fbs np Hbs; simpl; [eauto|].
  destruct (flushChunk_returns p h chunk mustProcess Hbs) as [[[p1 chunk'] [s e]] Hc].
  rewrite Hc. apply flushChunk_frame in Hc. destruct Hc as (Hs & _).
  destruct e as [e|].
  - destruct (IH p1 fbs np) as [[[[p2 chunks] counters] err] Hr]; [congruence|].
    rewrite Hr. eauto.
  - destruct (IH (incOptimisticInsertConflictCount p1 (optimisticInsertConflicts s))
                (add64 fbs (byteSize s)) (add64 np (notProcessed s)))
      as [[[[p2 chunks] counters] err] Hr]; [simpl; congruence|].
    rewrite Hr. eauto.
Qed.

(** [flushBuffer] returns whenever the batch size is one or more, as it is
    with implicit transactions. *)
Lemma flushBuffer_returns ctx p kvs mustProcess :
  (1 <= batchSizeOf (settings p))%nat ->
  exists r, flushBuffer ctx p kvs mustProcess = Some r.
Proof.
  intros Hbs. unfold flushBuffer. destruct kvs as [|kv0 kvs]; [eauto|].
  cbn [Now fst snd].
  destruct (cutChunks _ _ (slices_SortFunc (kv0 :: kvs))) as [jobs rest].
  destruct (runWorkers_returns mustProcess jobs
              (debugRecord (setTick p (S (tick p)))
                 (RecordFlushStart (wallClock (tick p))
                    (Z.of_nat (length (kv0 :: kvs))))) 0 0 Hbs)
    as [[[[p1 chunks] [fbs np]] [e|]] Hr]; rewrite Hr; [eauto|].
  destruct (if 0 <? np then filterRemaining (Some rest) else (Some rest, None)).
  cbn. eauto.
Qed.

(** ** The chunks of a flush *)

Lemma ForallOrdPairs_lookup {A} (R : A -> A -> Prop) l i j a b :
  ForallOrdPairs R l -> (i < j)%nat -> l !! i = Some a -> l !! j = Some b -> R a b.
Proof.
  intros H. revert i j. induction H as [|x l Hx _ IH]; intros i j Hij Hi Hj.
  - rewrite lookup_nil in Hi. discriminate.
  - destruct j as [|j]; [lia|]. simpl in Hj. destruct i as [|i]; simpl in Hi.
    + injection Hi as ->. rewrite Forall_forall in Hx. apply Hx.
      eapply list_elem_of_lookup_2. exact Hj.
    + apply (IH i j); [lia|assumption|assumption].
Qed.

Lemma take_length_take {A} n (l : list A) :
  take (length (take n l)) l = take n l.
Proof.
  rewrite length_take. destruct (le_lt_dec n (length l)).
  - rewrite Nat.min_l by lia. reflexivity.
  - rewrite Nat.min_r by lia. rewrite !take_ge by lia. reflexivity.
Qed.

Lemma prefixDisjoint_sym c1 c2 : prefixDisjoint c1 c2 -> prefixDisjoint c2 c1.
Proof. intros H a b Ha Hb E. apply (H b a Hb Ha). congruence. Qed.

(** What is left of the buffer when the chunk of worker [i] is cut. *)
Definition remainingAt (chunks : list (list StreamEvent_KV)) (i : nat)
    (kvs : list StreamEvent_KV) : list StreamEvent_KV :=
  drop (length (concat (take i chunks))) kvs.

Lemma cutChunks_lookup workers : forall chunkSize kvs i h c,
  (1 <= chunkSize)%nat ->
  fst (cutChunks workers chunkSize kvs) !! i = Some (h, c) ->
  let rem := remainingAt (map snd (fst (cutChunks workers chunkSize kvs))) i kvs in
  rem <> [] /\ c = take (chunkEndOf chunkSize rem) rem.
Proof.
  induction workers as [|h0 workers IH]; intros chunkSize kvs i h c Hcs;
    [simpl; rewrite lookup_nil; discriminate|].
  destruct kvs as [|kv kvs]; [simpl; rewrite lookup_nil; discriminate|].
  remember (kv :: kvs) as kvs0 eqn:Hkvs0.
  assert (Hne : kvs0 <> []) by (subst; discriminate).
  destruct (chunkEndOf_spec chunkSize kvs0 Hcs Hne) as (Ht & Hle & _).
  assert (He : length (take (chunkEndOf chunkSize kvs0) kvs0) =
               chunkEndOf chunkSize kvs0) by (rewrite length_take; lia).
  assert (Hfst : fst (cutChunks (h0 :: workers) chunkSize kvs0) =
                 (h0, take (chunkEndOf chunkSize kvs0) kvs0) ::
                 fst (cutChunks workers chunkSize
                        (drop (chunkEndOf chunkSize kvs0) kvs0))).
  { subst kvs0. cbn [cutChunks]. rewrite He.
    destruct (cutChunks workers chunkSize _). reflexivity. }
  rewrite Hfst. unfold remainingAt. destruct i as [|i]; cbn [lookup list_lookup].
  - intros [= <- <-]. cbn. rewrite drop_0. auto.
  - intros Hi. specialize (IH chunkSize _ i h c Hcs Hi).
    cbn [map take concat snd]. rewrite length_app, He, <- drop_drop. exact IH.
Qed.

Lemma cutChunks_worker_lookup workers chunkSize kvs i h c :
  fst (cutChunks workers chunkSize kvs) !! i = Some (h, c) -> workers !! i = Some h.
Proof.
  intros Hi.
  assert (map fst (fst (cutChunks workers chunkSize kvs)) !! i = Some h) as Hi'
    by (rewrite list_lookup_fmap, Hi; reflexivity).
  rewrite cutChunks_workers in Hi'. apply lookup_take_Some in Hi'. apply Hi'.
Qed.

Lemma cmpLe_lexicographic a b :
  cmpLe a b <->
  Key_Compare (k a) (k b) < 0 \/
  (k a = k b /\ Timestamp_Compare (kvTimestamp a) (kvTimestamp b) <= 0).
Proof.
  unfold cmpLe, cmpKV.
  destruct (Z.eqb_spec (Key_Compare (k a) (k b)) 0) as [E|E]; simpl.
  - pose proof E as E'. apply Key_Equal_Compare, Key_Equal_eq in E'.
    split; [auto|]. intros [H|[_ H]]; [lia|exact H].
  - split; [lia|]. intros [H|[H _]]; [lia|].
    rewrite H, Key_Compare_refl in E. congruence.
Qed.

(** The shape of one chunk: it holds the target number of rows, then rows
    that share the row prefix of the row before them, and stops in front
    of a row with another prefix. *)
Lemma chunk_shape chunkSize rem :
  (1 <= chunkSize)%nat -> rem <> [] ->
  let target := Nat.min chunkSize (length rem) in
  let c := take (chunkEndOf chunkSize rem) rem in
  (1 <= target <= length c)%nat /\
  (forall m, (target <= m < length c)%nat ->
     exists a b, c !! (m - 1)%nat = Some a /\ c !! m = Some b /\ k a = k b) /\
  (forall a b, c !! (length c - 1)%nat = Some a ->
     rem !! (length c) = Some b -> k a <> k b).
Proof.
  intros Hcs Hne. cbv zeta.
  destruct (chunkEndOf_spec chunkSize rem Hcs Hne) as (Ht & Hle & Hext & Hcut).
  assert (He : length (take (chunkEndOf chunkSize rem) rem) =
               chunkEndOf chunkSize rem) by (rewrite length_take; lia).
  rewrite He. split; [lia|]. split.
  - intros m Hm. destruct (Hext m Hm) as (a & b & Ha & Hb & E).
    exists a, b. rewrite !lookup_take_lt by lia. auto.
  - intros a b Ha Hb E. pose proof (lookup_lt_Some _ _ _ Hb) as Hlt.
    destruct (Hcut Hlt) as (a' & b' & Ha' & Hb' & Hk).
    rewrite lookup_take_lt in Ha by lia. congruence.
Qed.

(** ** The flush *)

(** C10.  On a buffer of length 0, whatever [mustProcess] is,
    [flushBuffer] returns [(nil, nil)] at once: the processor is the one it
    was given (same destination and dead-letter queue, same metrics, same
    debug status, no clock reading), and the buffer is untouched; nothing
    is sorted and no worker is started. *)
Theorem flushBuffer_empty_buffer ctx p kvs mustProcess :
  length kvs = 0%nat ->
  flushBuffer ctx p kvs mustProcess = Some (p, kvs, (None, None)) /\
  cutChunks (bh p) (chunkSizeOf (length kvs) (length (bh p))) kvs = ([], []).
Proof.
  intros Hlen. destruct kvs as [|kv kvs]; [|discriminate].
  split; [reflexivity|]. destruct (bh p); reflexivity.
Qed.

(** With the pool of [maxWriterWorkers] handlers, the [unapplied] slice of
    a flush that returns no error never holds a row: it is [nil] or
    empty.  The loop advances the local [kvs] past every chunk, and
    [filterRemaining] is called on what is left of it. *)
Lemma flushBuffer_unapplied_empty ctx p kvs mustProcess p' buf unapplied :
  length (bh p) = maxWriterWorkers ->
  flushBuffer ctx p kvs mustProcess = Some (p', buf, (unapplied, None)) ->
  elems unapplied = [].
Proof.
  intros Hbh. unfold flushBuffer. destruct kvs as [|kv0 kvs].
  { intros [= <- <- <-]. reflexivity. }
  cbn [Now fst snd].
  pose proof (cutChunks_all (bh p) (slices_SortFunc (kv0 :: kvs)) Hbh) as Hall.
  cbn [bh debugRecord setDebug setTick] in *.
  destruct (cutChunks (bh p) _ (slices_SortFunc (kv0 :: kvs))) as [jobs rest].
  cbn [snd] in Hall. subst rest.
  destruct (runWorkers _ mustProcess jobs 0 0)
    as [[[[p1 chunks] [fbs np]] [e|]]|]; try discriminate.
  destruct (0 <? np); cbn; intros [= <- <- <-]; reflexivity.
Qed.

(** The chunks a flush of [kvs] hands to the workers of [p]: the term
    [flushBuffer] binds to [jobs] (see [flushBuffer_unfold]). *)
Definition flushJobs (p : Processor) (kvs : list StreamEvent_KV)
  : list (BatchHandler * list StreamEvent_KV) :=
  fst (cutChunks (bh p)
         (chunkSizeOf (length (slices_SortFunc kvs)) (length (bh p)))
         (slices_SortFunc kvs)).

Lemma flushBuffer_unfold ctx p kv0 kvs mustProcess :
  flushBuffer ctx p (kv0 :: kvs) mustProcess =
    let p0 := debugRecord (snd (Now p))
                (RecordFlushStart (fst (Now p)) (Z.of_nat (length (kv0 :: kvs)))) in
    let sorted := slices_SortFunc (kv0 :: kvs) in
    let rest := snd (cutChunks (bh p) (chunkSizeOf (length sorted) (length (bh p)))
                       sorted) in
    match runWorkers p0 mustProcess (flushJobs p (kv0 :: kvs)) 0 0 with
    | None => None
    | Some (p1, chunks, _, Some err) => Some (p1, concat chunks ++ rest, (None, Some err))
    | Some (p1, chunks, (flushByteSize, notProcessed_), None) =>
        let '(kvs', unapplied) :=
          if 0 <? notProcessed_ then filterRemaining (Some rest)
          else (Some rest, None) in
        let '(flushTime, p2) := Since p1 (fst (Now p)) in
        let p3 := debugRecord p2
                    (RecordFlushComplete flushTime (Z.of_nat (length sorted))
                       flushByteSize) in
        let '(latency, p4) := Since p3 (GoTime (kvTimestamp kv0)) in
        Some (recordFlushMetrics p4 (Z.of_nat (length sorted)) flushByteSize
                latency flushTime,
              concat chunks ++ elems kvs', (unapplied, None))
    end.
Proof.
  unfold flushBuffer, flushJobs. cbn [Now fst snd bh debugRecord setDebug setTick].
  destruct (cutChunks (bh p) _ (slices_SortFunc (kv0 :: kvs))) as [jobs rest].
  reflexivity.
Qed.

Lemma flushJobs_disjoint p kvs i j hi ci hj cj :
  i <> j -> flushJobs p kvs !! i = Some (hi, ci) ->
  flushJobs p kvs !! j = Some (hj, cj) -> prefixDisjoint ci cj.
Proof.
  intros Hij Hi Hj. unfold flushJobs in *.
  pose proof (cutChunks_disjoint (bh p) _ (slices_SortFunc kvs)
                (chunkSizeOf_pos (length (slices_SortFunc kvs)) (length (bh p)))
                (SortFunc_keySorted kvs)) as Hdis.
  set (jobs := fst (cutChunks _ _ _)) in *.
  assert (map snd jobs !! i = Some ci) as Hi' by (rewrite list_lookup_fmap, Hi; reflexivity).
  assert (map snd jobs !! j = Some cj) as Hj' by (rewrite list_lookup_fmap, Hj; reflexivity).
  destruct (decide (i < j)%nat).
  - eapply (ForallOrdPairs_lookup _ _ i j); eassumption.
  - apply prefixDisjoint_sym. eapply (ForallOrdPairs_lookup _ _ j i); try eassumption. lia.
Qed.

Lemma flushJobs_concat p kvs :
  length (bh p) = maxWriterWorkers ->
  concat (map snd (flushJobs p kvs)) = slices_SortFunc kvs.
Proof.
  intros Hbh. unfold flushJobs.
  pose proof (cutChunks_concat (bh p)
                (chunkSizeOf (length (slices_SortFunc kvs)) (length (bh p)))
                (slices_SortFunc kvs)) as Hcat.
  rewrite (cutChunks_all (bh p) (slices_SortFunc kvs) Hbh), app_nil_r in Hcat.
  exact Hcat.
Qed.

(** With the pool of [maxWriterWorkers] handlers, every row of the buffer
    is in a chunk, which holds all the rows with its row prefix; no other
    chunk holds any of them. *)
Lemma flushJobs_row p kvs kv :
  length (bh p) = maxWriterWorkers -> kv ∈ kvs ->
  exists i h c, flushJobs p kvs !! i = Some (h, c) /\
    forall kv', kv' ∈ kvs -> k kv' = k kv ->
      kv' ∈ c /\
      forall j h' c', flushJobs p kvs !! j = Some (h', c') -> kv' ∈ c' -> j = i.
Proof.
  intros Hbh Hkv.
  assert (Hin : forall x, x ∈ kvs ->
            exists i h c, flushJobs p kvs !! i = Some (h, c) /\ x ∈ c).
  { intros x Hx.
    apply (elem_of_Permutation_proper _ _ _ (SortFunc_Permutation kvs)) in Hx.
    rewrite <- (flushJobs_concat p kvs Hbh) in Hx.
    apply list_elem_of_In, in_concat in Hx as (c & Hc & Hxc).
    apply list_elem_of_In, list_elem_of_fmap in Hc as ([h c'] & -> & Hjob).
    apply list_elem_of_lookup in Hjob as [i Hi].
    exists i, h, c'. split; [exact Hi|]. apply list_elem_of_In. exact Hxc. }
  destruct (Hin kv Hkv) as (i & h & c & Hi & Hc).
  exists i, h, c. split; [exact Hi|]. intros kv' Hkv' E.
  assert (Honly : forall j h' c',
            flushJobs p kvs !! j = Some (h', c') -> kv' ∈ c' -> j = i).
  { intros j h' c' Hj Hc'. destruct (decide (j = i)) as [|Hne]; [assumption|].
    exfalso. exact (flushJobs_disjoint p kvs j i h' c' h c Hne Hj Hi kv' kv Hc' Hc E). }
  split; [|exact Honly].
  destruct (Hin kv' Hkv') as (j & h' & c' & Hj & Hc').
  pose proof (Honly j h' c' Hj Hc') as ->. congruence.
Qed.

(** C2.  In one flush, with the pool of [maxWriterWorkers] handlers, chunk
    [i] goes to worker [i]; two chunks given to different workers share no
    row prefix; every row of the buffer is in a chunk, and all the rows
    with its prefix are in that chunk and in no other.  Each chunk holds
    its target number of rows and is then extended by the rows that share
    the row prefix of the row before them, up to a row with another
    prefix. *)
Theorem key_grouping p kvs :
  length (bh p) = maxWriterWorkers ->
  let sorted := slices_SortFunc kvs in
  let chunkSize := chunkSizeOf (length sorted) (length (bh p)) in
  let jobs := fst (cutChunks (bh p) chunkSize sorted) in
  (forall i j hi ci hj cj,
     i <> j -> jobs !! i = Some (hi, ci) -> jobs !! j = Some (hj, cj) ->
     bh p !! i = Some hi /\ bh p !! j = Some hj /\ prefixDisjoint ci cj) /\
  (forall kv, kv ∈ kvs ->
     exists i h c, jobs !! i = Some (h, c) /\
       forall kv', kv' ∈ kvs -> k kv' = k kv ->
         kv' ∈ c /\
         forall j h' c', jobs !! j = Some (h', c') -> kv' ∈ c' -> j = i) /\
  (forall i h c, jobs !! i = Some (h, c) ->
     let rem := remainingAt (map snd jobs) i sorted in
     let target := Nat.min chunkSize (length rem) in
     c = take (length c) rem /\ (target <= length c)%nat /\
     (forall m, (target <= m < length c)%nat ->
        exists a b, c !! (m - 1)%nat = Some a /\ c !! m = Some b /\ k a = k b) /\
     (forall a b, c !! (length c - 1)%nat = Some a ->
        rem !! (length c) = Some b -> k a <> k b)).
Proof.
  intros Hbh. cbv zeta. split; [|split].
  - intros i j hi ci hj cj Hij Hi Hj.
    split; [eapply cutChunks_worker_lookup; exact Hi|].
    split; [eapply cutChunks_worker_lookup; exact Hj|].
    exact (flushJobs_disjoint p kvs i j hi ci hj cj Hij Hi Hj).
  - intros kv Hkv. exact (flushJobs_row p kvs kv Hbh Hkv).
  - intros i h c Hi.
    pose proof (chunkSizeOf_pos (length (slices_SortFunc kvs)) (length (bh p))) as Hcs.
    destruct (cutChunks_lookup (bh p) _ (slices_SortFunc kvs) i h c Hcs Hi) as (Hne & Hc).
    destruct (chunk_shape _ _ Hcs Hne) as (H1 & H2 & H3).
    rewrite <- Hc in H1, H2, H3. split.
    + rewrite Hc at 2. rewrite take_length_take. exact Hc.
    + split; [lia|]. split; assumption.
Qed.

(** C6, as the code has it.  With the pool of [maxWriterWorkers] = 32
    handlers, [flushBuffer] cuts the sorted buffer of [N] rows into at most
    32 chunks that follow each other and cover it; the target size of a
    chunk before its extension is [max(N/32 + 1, 64)], the division being
    the integer one (rounded down), capped at the number of rows left. *)
Theorem chunk_partition p kvs :
  length (bh p) = maxWriterWorkers ->
  let sorted := slices_SortFunc kvs in
  let cut := cutChunks (bh p) (chunkSizeOf (length sorted) (length (bh p))) sorted in
  let chunkSize := Nat.max (length kvs / 32 + 1) 64 in
  (length (fst cut) <= 32)%nat /\
  concat (map snd (fst cut)) = sorted /\
  snd cut = [] /\
  forall i h c, fst cut !! i = Some (h, c) ->
    let rem := remainingAt (map snd (fst cut)) i sorted in
    let target := Nat.min chunkSize (length rem) in
    c = take (length c) rem /\ (1 <= target <= length c)%nat /\
    (forall m, (target <= m < length c)%nat ->
       exists a b, c !! (m - 1)%nat = Some a /\ c !! m = Some b /\ k a = k b).
Proof.
  intros Hbh. cbv zeta.
  set (sorted := slices_SortFunc kvs).
  assert (Hsize : chunkSizeOf (length sorted) (length (bh p)) =
                  Nat.max (length kvs / 32 + 1) 64).
  { unfold sorted. rewrite SortFunc_length, Hbh. reflexivity. }
  pose proof (cutChunks_count (bh p) (chunkSizeOf (length sorted) (length (bh p))) sorted) as Hcount.
  pose proof (cutChunks_concat (bh p) (chunkSizeOf (length sorted) (length (bh p))) sorted) as Hcat.
  pose proof (cutChunks_all (bh p) sorted Hbh) as Hall.
  rewrite Hall, app_nil_r in Hcat.
  split; [unfold maxWriterWorkers in Hbh; lia|].
  split; [exact Hcat|]. split; [exact Hall|].
  intros i h c Hi.
  destruct (cutChunks_lookup (bh p) _ sorted i h c (chunkSizeOf_pos _ _) Hi) as (Hne & Hc).
  destruct (chunk_shape _ _ (chunkSizeOf_pos (length sorted) (length (bh p))) Hne)
    as (H1 & H2 & _).
  rewrite <- Hc in H1, H2. rewrite <- Hsize. split.
  - rewrite Hc at 2. rewrite take_length_take. exact Hc.
  - split; assumption.
Qed.

(** C9, as the code has it.  When a flush of a non-empty buffer returns
    without error, the value it adds to the commit-to-commit latency
    histogram is the time elapsed since the commit timestamp of the row at
    index 0 of the buffer as it was passed in, before the sort. *)
Theorem commit_latency_from_first_row ctx p kv0 kvs mustProcess p' buf unapplied :
  flushBuffer ctx p (kv0 :: kvs) mustProcess = Some (p', buf, (unapplied, None)) ->
  latencies p' =
    latencies p ++
    [clampDuration (wallClock (tick p' - 1) - GoTime (kvTimestamp kv0))].
Proof.
  unfold flushBuffer. cbn [Now fst snd].
  destruct (cutChunks _ _ (slices_SortFunc (kv0 :: kvs))) as [jobs rest].
  destruct (runWorkers _ mustProcess jobs 0 0)
    as [[[[p1 chunks] [fbs np]] [e|]]|] eqn:Hrun; try discriminate.
  apply runWorkers_latencies in Hrun.
  destruct (if 0 <? np then filterRemaining (Some rest) else (Some rest, None))
    as [rest' unapplied'].
  cbn. intros [= <- <- <-]. cbn.
  change (CommitToCommitLatency (metrics p1)) with (latencies p1).
  rewrite Hrun. reflexivity.
Qed.

(** ** The frontier gate *)

(** One [frontier.Forward] call, keeping the frontier only. *)
Definition forwardOne (f : Frontier) (resolvedSpan : ResolvedSpan) : Frontier :=
  fst (Forward f (RSpan resolvedSpan) (RTimestamp resolvedSpan)).

Lemma forwardAll_ok spans : forall f,
  snd (forwardAll f spans) = None ->
  fst (forwardAll f spans) = fold_left forwardOne spans f.
Proof.
  induction spans as [|rs spans IH]; intros f; simpl; [reflexivity|].
  unfold forwardOne at 2.
  destruct (Forward f (RSpan rs) (RTimestamp rs)) as [f' [b [e|]]]; simpl.
  - discriminate.
  - apply IH.
Qed.

(** A failed [Forward] is the first one that fails: the spans before it
    were forwarded, the ones after it are not looked at. *)
Lemma forwardAll_err spans : forall f e,
  snd (forwardAll f spans) = Some e ->
  exists before rs rest,
    spans = before ++ rs :: rest /\
    snd (forwardAll f before) = None /\
    snd (snd (Forward (fold_left forwardOne before f) (RSpan rs) (RTimestamp rs)))
      = Some e /\
    fst (forwardAll f spans) = forwardOne (fold_left forwardOne before f) rs.
Proof.
  induction spans as [|rs spans IH]; intros f e; simpl; [discriminate|].
  destruct (Forward f (RSpan rs) (RTimestamp rs)) as [f' [b [e'|]]] eqn:HF; simpl.
  - intros [= ->]. exists [], rs, spans. simpl. unfold forwardOne.
    rewrite HF. auto.
  - intros H. destruct (IH f' e H) as (before & rs' & rest & -> & H1 & H2 & H3).
    assert (forwardOne f rs = f') as Hf by (unfold forwardOne; rewrite HF; reflexivity).
    exists (rs :: before), rs', rest. cbn [forwardAll fold_left app].
    rewrite Hf, HF. auto.
Qed.

Lemma maybeCheckpoint_empty_purgatory ctx lrw resolvedSpans :
  purgatory_Empty (purgatory lrw) = true ->
  maybeCheckpoint ctx lrw resolvedSpans =
    Some (mkLrw (fst (checkpoint ctx (proc lrw) resolvedSpans)) (purgatory lrw),
          snd (checkpoint ctx (proc lrw) resolvedSpans)).
Proof.
  intros H. unfold maybeCheckpoint. rewrite H. simpl.
  destruct (checkpoint ctx (proc lrw) resolvedSpans). reflexivity.
Qed.

(** The gate of [maybeCheckpoint], whatever the purgatory.  When it is
    called while the purgatory is not
    empty, the resolved spans are handed to the purgatory
    ([purgatory.Checkpoint]) and a drain of that purgatory is run with
    [flushBuffer] and [checkpoint] as its callbacks; what
    [maybeCheckpoint] returns, and the processor it leaves, are those of
    the drain.  [maybeCheckpoint] itself makes no call to [checkpoint]:
    it forwards no frontier and sends nothing on the checkpoint channel. *)
Theorem maybeCheckpoint_gated ctx lrw resolvedSpans :
  purgatory_Empty (purgatory lrw) = false ->
  maybeCheckpoint ctx lrw resolvedSpans =
    match purgatory_Drain ctx
            (purgatory_Checkpoint ctx (purgatory lrw) resolvedSpans)
            flushBuffer checkpoint (proc lrw) with
    | None => None
    | Some (pg, p, err) => Some (mkLrw p pg, err)
    end.
Proof.
  intros H. unfold maybeCheckpoint. rewrite H. reflexivity.
Qed.

(** C5, as the code has it.  Unless the elision knob fires:
    on [nil] resolved spans [checkpoint] returns an error and leaves the
    processor as it was; on any other slice, the empty one included, it
    forwards the frontier span by span; the first [Forward] error is
    returned wrapped, nothing being sent; when every [Forward] succeeds the
    resolved spans are sent on the checkpoint channel and the checkpoint
    counter goes up by one, unless the context is done first, whose error
    is then returned. *)
Theorem checkpoint_outcomes ctx p resolvedSpans :
  elideCheckpoint p = false ->
  match resolvedSpans with
  | None =>
      checkpoint ctx p resolvedSpans =
        (p, Some (errors_New "checkpoint event expected to have resolved spans"))
  | Some spans =>
      let p' := fst (checkpoint ctx p resolvedSpans) in
      let err := snd (checkpoint ctx p resolvedSpans) in
      match snd (forwardAll (frontier p) spans), ctxDone ctx with
      | Some e, _ =>
          err = Some (errors_Wrap e "unable to forward checkpoint frontier") /\
          (exists before rs rest, spans = before ++ rs :: rest /\
             frontier p' = forwardOne (fold_left forwardOne before (frontier p)) rs) /\
          checkpointCh p' = checkpointCh p /\ metrics p' = metrics p
      | None, Some e =>
          err = Some e /\
          frontier p' = fold_left forwardOne spans (frontier p) /\
          checkpointCh p' = checkpointCh p /\ metrics p' = metrics p
      | None, None =>
          err = None /\
          frontier p' = fold_left forwardOne spans (frontier p) /\
          checkpointCh p' = checkpointCh p ++ [Some spans] /\
          CheckpointEvents (metrics p') = add64 (CheckpointEvents (metrics p)) 1
      end
  end.
Proof.
  intros Helide. unfold checkpoint. rewrite Helide.
  destruct resolvedSpans as [spans|]; [|reflexivity].
  cbv zeta.
  pose proof (forwardAll_ok spans (frontier p)) as Hok.
  pose proof (forwardAll_err spans (frontier p)) as Herr.
  destruct (forwardAll (frontier p) spans) as [f [e|]]; cbn [fst snd] in *.
  - destruct (Herr e eq_refl) as (before & rs & rest & E & _ & _ & Hf).
    repeat split. exists before, rs, rest. split; [exact E|exact Hf].
  - specialize (Hok eq_refl). destruct (ctxDone ctx) as [e|]; cbn; auto.
Qed.

(** ** The dispatcher *)

(** C8, as the code has it.  An event that the after-receive knob (when
    one is installed) lets through is dispatched on its type: a KV event goes to the applier
    ([handleStreamBuffer]), a checkpoint event to the frontier gate
    ([maybeCheckpoint]); a split event is logged and changes nothing else,
    with no error; an SSTable or delete-range event returns the error
    "unexpected event for online stream" and any other type an
    unknown-event error, the processor being left as it was. *)
Theorem handleEvent_dispatch ctx lrw event :
  runAfterReceivingEvent ctx (proc lrw) = None ->
  match Type_ event with
  | KVEvent =>
      handleEvent ctx lrw event = handleStreamBuffer ctx lrw (GetKVs event)
  | CheckpointEvent =>
      handleEvent ctx lrw event = maybeCheckpoint ctx lrw (GetResolvedSpans event)
  | SplitEvent =>
      exists lrw',
        handleEvent ctx lrw event = Some (lrw', None) /\
        logs (proc lrw') =
          logs (proc lrw) ++
          [Infof "SplitEvent received on logical replication stream" []] /\
        purgatory lrw' = purgatory lrw /\
        frontier (proc lrw') = frontier (proc lrw) /\
        checkpointCh (proc lrw') = checkpointCh (proc lrw) /\
        world (proc lrw') = world (proc lrw) /\
        metrics (proc lrw') = metrics (proc lrw) /\
        debug (proc lrw') = debug (proc lrw) /\
        tick (proc lrw') = tick (proc lrw)
  | SSTableEvent | DeleteRangeEvent =>
      handleEvent ctx lrw event =
        Some (lrw, Some (errors_Newf "unexpected event for online stream: %v"
                           (ArgEvent event)))
  | OtherEventType tag =>
      handleEvent ctx lrw event =
        Some (lrw, Some (errors_Newf "unknown streaming event type %v"
                           (ArgEventType (OtherEventType tag))))
  end.
Proof.
  intros Hknob. unfold handleEvent. rewrite Hknob.
  destruct (Type_ event) eqn:E; try reflexivity.
  eexists. split; [reflexivity|]. cbn. auto 10.
Qed.

(** An error of [handleEvent] ends [consumeEvents]: the events after it
    are not handled. *)
Lemma consumeLoop_stops_at_error ctx lrw before event events subErr lrw' err :
  handleEvent ctx
    (mkLrw (snd (Now (debugRecord (snd (Since (proc lrw) before))
                        (RecordRecv (fst (Since (proc lrw) before))))))
           (purgatory lrw)) event = Some (lrw', Some err) ->
  consumeLoop ctx lrw before (event :: events) subErr = Some (lrw', Some err).
Proof.
  intros H. cbn [consumeLoop]. cbn [Since Now fst snd] in *.
  rewrite H. reflexivity.
Qed.

(** ** The disposition of a failed row *)

Lemma handleFailure_retry_later p h kv err stats :
  handleFailure p h kv err false stats = (p, (incNotProcessed stats, None)).
Proof. reflexivity. Qed.

Lemma handleFailure_must_process p h kv err stats :
  handleFailure p h kv err true stats =
    match dlq p kv (GetLastRow h (world p)) err with
    | (p, Some e) => (p, (zeroStats, Some e))
    | (p, None) => (p, (stats, None))
    end.
Proof. reflexivity. Qed.

(** A batch of one row that fails: the row is handled as
    [handleFailure] says and its slot is returned as it was, whether the
    row went to the dead-letter queue or not. *)
Lemma flushBatch_single_failure p h mustProcess kv stats w s e :
  HandleBatch h (world p) [kv] = (w, (s, Some e)) ->
  flushBatch p h mustProcess [kv] stats =
    (fst (handleFailure (setWorld p w) h kv e mustProcess stats), [kv],
     snd (handleFailure (setWorld p w) h kv e mustProcess stats)).
Proof.
  intros H. unfold flushBatch. rewrite H.
  destruct (handleFailure (setWorld p w) h kv e mustProcess stats). reflexivity.
Qed.

(** A batch of several rows that fails is retried row by row. *)
Lemma flushBatch_retry p h mustProcess kv kv' batch stats w s e :
  HandleBatch h (world p) (kv :: kv' :: batch) = (w, (s, Some e)) ->
  flushBatch p h mustProcess (kv :: kv' :: batch) stats =
    retryRows (setWorld p w) h mustProcess [] (kv :: kv' :: batch) stats.
Proof. intros H. unfold flushBatch. rewrite H. reflexivity. Qed.

(** A batch that succeeds has every slot zeroed. *)
Lemma flushBatch_success p h mustProcess batch stats w s :
  HandleBatch h (world p) batch = (w, (s, None)) ->
  flushBatch p h mustProcess batch stats =
    (setWorld p w, replicate (length batch) zeroKV,
     (batchStats_Add stats s, None)).
Proof. intros H. unfold flushBatch. rewrite H. reflexivity. Qed.

(** * Further properties of the applier *)

(** ** The array [filterRemaining] leaves behind *)

(** The loop never writes at or after the index [j] it ends with. *)
Lemma filterLoop_tail n : forall i j rem,
  (j <= snd (filterLoop n i j rem))%nat /\
  forall m, (snd (filterLoop n i j rem) <= m)%nat ->
    fst (filterLoop n i j rem) !! m = rem !! m.
Proof.
  induction n as [|n IH]; intros i j rem; simpl; [split; [lia|reflexivity]|].
  destruct (rem !! i) as [kv|]; [|split; [simpl; lia|reflexivity]].
  destruct (hasKey kv).
  - destruct (IH (S i) (S j) (<[j:=kv]> rem)) as [H1 H2]. split; [lia|].
    intros m Hm. rewrite H2 by exact Hm. apply list_lookup_insert_ne. lia.
  - apply IH.
Qed.

(** X1.  [filterRemaining] returns the entries of [kvs] that have a
    non-empty key, in their order, and nothing else; the array of the
    caller holds them at its front and keeps its old contents behind them
    (the tail is not cleared).  On [nil] it returns [nil]. *)
Theorem filterRemaining_compacts (kvs : slice StreamEvent_KV) :
  match kvs with
  | None => filterRemaining kvs = (None, None)
  | Some arr =>
      let kept := filter (fun kv => hasKey kv = true) arr in
      filterRemaining kvs = (Some (kept ++ drop (length kept) arr), Some kept)
  end.
Proof.
  destruct kvs as [arr|]; [|reflexivity]. cbv zeta. unfold filterRemaining.
  pose proof (filterLoop_spec arr [] 0%nat (Nat.le_refl _)) as Hs.
  pose proof (filterLoop_tail (length arr) 0 0 arr) as [_ Ht].
  simpl in Hs. destruct (filterLoop (length arr) 0 0 arr) as [remaining j].
  simpl in Hs, Ht. destruct Hs as (Hj & Hlen & Htake).
  assert (Hrem : remaining =
                 filter (fun kv => hasKey kv = true) arr ++
                 drop (length (filter (fun kv => hasKey kv = true) arr)) arr).
  { rewrite <- (take_drop j remaining), Htake, <- Hj. f_equal.
    apply list_eq. intros m. rewrite !lookup_drop. apply Ht. lia. }
  destruct (j <? length arr / 2)%nat; simpl; rewrite Htake, <- Hrem; reflexivity.
Qed.

(** ** The slots of a chunk *)

(** A slot after a flush: zeroed, or holding the row it held. *)
Definition slotAfter (kv kv' : StreamEvent_KV) : Prop := kv' = zeroKV \/ kv' = kv.

Lemma slotAfter_refl l : Forall2 slotAfter l l.
Proof. induction l; constructor; [right; reflexivity|assumption]. Qed.

Lemma slotAfter_zero l : Forall2 slotAfter l (replicate (length l) zeroKV).
Proof. induction l; simpl; constructor; [left; reflexivity|assumption]. Qed.

Lemma retryRows_slots h mustProcess todo : forall p before stats,
  exists slots,
    snd (fst (retryRows p h mustProcess before todo stats)) = before ++ slots /\
    Forall2 slotAfter todo slots.
Proof.
  induction todo as [|kv todo IH]; intros p before stats; simpl.
  - exists []. rewrite app_nil_r. split; [reflexivity|constructor].
  - destruct (HandleBatch h (world p) [kv]) as [w [singleStats [e|]]].
    + destruct (handleFailure (setWorld p w) h kv e mustProcess stats)
        as [p' [stats' [e'|]]]; simpl.
      * exists (kv :: todo). split; [reflexivity|apply slotAfter_refl].
      * destruct (IH p' (before ++ [kv]) stats') as (slots & Hs & HF).
        exists (kv :: slots). rewrite Hs, <- app_assoc. simpl.
        split; [reflexivity|]. constructor; [right; reflexivity|exact HF].
    + destruct (IH (setWorld p w) (before ++ [zeroKV])
                  (batchStats_Add stats singleStats)) as (slots & Hs & HF).
      exists (zeroKV :: slots). rewrite Hs, <- app_assoc. simpl.
      split; [reflexivity|]. constructor; [left; reflexivity|exact HF].
Qed.

Lemma flushBatch_slots p h mustProcess batch stats :
  Forall2 slotAfter batch (snd (fst (flushBatch p h mustProcess batch stats))).
Proof.
  unfold flushBatch.
  destruct (HandleBatch h (world p) batch) as [w [s [e|]]];
    [|apply slotAfter_zero].
  destruct batch as [|kv [|kv' batch]].
  - constructor.
  - destruct (handleFailure (setWorld p w) h kv e mustProcess stats) as [p' r].
    apply slotAfter_refl.
  - destruct (retryRows_slots h mustProcess (kv :: kv' :: batch) (setWorld p w) [] stats)
      as (slots & Hs & HF).
    rewrite Hs. exact HF.
Qed.

Lemma flushChunkLoop_slots n h mustProcess batchSize :
  forall p before chunk stats p' out r,
  flushChunkLoop n p h mustProcess batchSize before chunk stats = Some (p', out, r) ->
  exists slots, out = before ++ slots /\ Forall2 slotAfter chunk slots.
Proof.
  induction n as [|n IH]; intros p before chunk stats p' out r;
    destruct chunk as [|kv chunk]; simpl; try congruence;
    try (intros [= <- <- <-]; exists []; rewrite app_nil_r;
         split; [reflexivity|constructor]).
  set (m := Nat.min batchSize (S (length chunk))).
  set (batch := take m (kv :: chunk)).
  assert (Hlen : length batch = m) by (unfold batch; rewrite length_take; simpl; lia).
  pose proof (flushBatch_slots (setTick p (S (tick p))) h mustProcess batch stats) as HF.
  destruct (flushBatch (setTick p (S (tick p))) h mustProcess batch stats)
    as [[p1 batch'] [stats' [e|]]]; simpl in HF.
  - intros [= <- <- <-]. exists (batch' ++ drop (length batch) (kv :: chunk)).
    split; [reflexivity|].
    rewrite <- (take_drop m (kv :: chunk)) at 1. rewrite Hlen.
    apply Forall2_app; [exact HF|apply slotAfter_refl].
  - intros Hrec. apply IH in Hrec as (slots & -> & HF2).
    exists (batch' ++ slots). rewrite <- app_assoc. split; [reflexivity|].
    rewrite <- (take_drop m (kv :: chunk)) at 1.
    apply Forall2_app; [exact HF|]. rewrite Hlen in HF2. exact HF2.
Qed.

Lemma flushChunk_slotAfter p h chunk mustProcess p' chunk' r :
  flushChunk p h chunk mustProcess = Some (p', chunk', r) ->
  Forall2 slotAfter chunk chunk'.
Proof.
  intros H. apply flushChunkLoop_slots in H as (slots & -> & HF). exact HF.
Qed.

(** X2.  [flushChunk] writes to its chunk only to zero a slot: when it
    returns, with an error or not, the chunk has the length it had and
    every slot is zeroed or holds the row it held; no row is moved or
    altered. *)
Theorem flushChunk_only_zeroes_slots p h chunk mustProcess p' chunk' r :
  flushChunk p h chunk mustProcess = Some (p', chunk', r) ->
  length chunk' = length chunk /\
  forall i kv', chunk' !! i = Some kv' -> kv' = zeroKV \/ chunk !! i = Some kv'.
Proof.
  intros H. apply flushChunk_slotAfter in H.
  split; [symmetry; eapply Forall2_length; exact H|].
  intros i kv' Hi.
  destruct (Forall2_lookup_r _ _ _ _ _ H Hi) as (kv & Hkv & [->| ->]);
    [left; reflexivity|right; exact Hkv].
Qed.

(** ** The metrics of a flush *)

(** The metrics that only [flushBuffer] itself and [checkpoint] write. *)
Definition flushMetrics (p : Processor) : Z * Z * Z * list Z * list Z * list Z :=
  let m := metrics p in
  (CheckpointEvents m, AppliedRowUpdates m, AppliedLogicalBytes m,
   StreamBatchNanosHist m, StreamBatchRowsHist m, StreamBatchBytesHist m).

Lemma dlq_flushMetrics p event row applyErr :
  flushMetrics (fst (dlq p event row applyErr)) = flushMetrics p.
Proof.
  unfold dlq. simpl.
  destruct (IsInitialized row); simpl;
    destruct (Log _ _ _ _ _ _) as [w err]; reflexivity.
Qed.

Lemma handleFailure_flushMetrics p h kv err mustProcess stats :
  flushMetrics (fst (handleFailure p h kv err mustProcess stats)) = flushMetrics p.
Proof.
  unfold handleFailure.
  destruct (mustProcess || negb (shouldRetryLater err)); [|reflexivity].
  pose proof (dlq_flushMetrics p kv (GetLastRow h (world p)) err) as H.
  destruct (dlq p kv (GetLastRow h (world p)) err) as [p' [e|]]; exact H.
Qed.

Lemma retryRows_flushMetrics h mustProcess todo : forall p before stats,
  flushMetrics (fst (fst (retryRows p h mustProcess before todo stats))) =
    flushMetrics p.
Proof.
  induction todo as [|kv todo IH]; intros p before stats; simpl; [reflexivity|].
  destruct (HandleBatch h (world p) [kv]) as [w [singleStats [e|]]].
  - pose proof (handleFailure_flushMetrics (setWorld p w) h kv e mustProcess stats) as H.
    destruct (handleFailure (setWorld p w) h kv e mustProcess stats)
      as [p' [stats' [e'|]]]; simpl in H.
    + exact H.
    + rewrite IH. exact H.
  - rewrite IH. reflexivity.
Qed.

Lemma flushBatch_flushMetrics p h mustProcess batch stats :
  flushMetrics (fst (fst (flushBatch p h mustProcess batch stats))) = flushMetrics p.
Proof.
  unfold flushBatch.
  destruct (HandleBatch h (world p) batch) as [w [s [e|]]]; [|reflexivity].
  destruct batch as [|kv [|kv' batch]].
  - reflexivity.
  - pose proof (handleFailure_flushMetrics (setWorld p w) h kv e mustProcess stats) as H.
    destruct (handleFailure (setWorld p w) h kv e mustProcess stats) as [p' r].
    exact H.
  - rewrite retryRows_flushMetrics. reflexivity.
Qed.

Lemma flushChunkLoop_flushMetrics n h mustProcess batchSize :
  forall p before chunk stats p' chunk' r,
  flushChunkLoop n p h mustProcess batchSize before chunk stats = Some (p', chunk', r) ->
  flushMetrics p' = flushMetrics p.
Proof.
  induction n as [|n IH]; intros p before chunk stats p' chunk' r;
    destruct chunk as [|kv chunk]; simpl; try congruence;
    try (intros [= <- <- <-]; reflexivity).
  set (batch := take (Nat.min batchSize (S (length chunk))) (kv :: chunk)).
  pose proof (flushBatch_flushMetrics (setTick p (S (tick p))) h mustProcess batch stats) as H.
  destruct (flushBatch (setTick p (S (tick p))) h mustProcess batch stats)
    as [[p1 batch'] [stats' [e|]]]; simpl in H.
  - intros [= <- <- <-]. exact H.
  - intros Hrec. apply IH in Hrec. rewrite Hrec. exact H.
Qed.

Lemma runWorkers_flushMetrics mustProcess jobs :
  forall p fbs np p' chunks counters err,
  runWorkers p mustProcess jobs fbs np = Some (p', chunks, counters, err) ->
  flushMetrics p' = flushMetrics p.
Proof.
  induction jobs as [|[h chunk] jobs IH]; intros p fbs np p' chunks counters err; simpl.
  - intros [= <- <- <- <-]. reflexivity.
  - destruct (flushChunk p h chunk mustProcess) as [[[p1 chunk'] [s e]]|] eqn:Hc;
      [|discriminate].
    apply flushChunkLoop_flushMetrics in Hc.
    destruct e as [e|].
    + destruct (runWorkers p1 mustProcess jobs fbs np)
        as [[[[p2 chunks'] counters'] err']|] eqn:Hr; [|discriminate].
      intros [= <- <- <- <-]. apply IH in Hr. congruence.
    + destruct (runWorkers _ mustProcess jobs _ _)
        as [[[[p2 chunks'] counters'] err']|] eqn:Hr; [|discriminate].
      intros [= <- <- <- <-]. apply IH in Hr. rewrite Hr, <- Hc. reflexivity.
Qed.

Lemma flushBuffer_frame ctx p kvs mustProcess p' buf r :
  flushBuffer ctx p kvs mustProcess = Some (p', buf, r) ->
  frontier p' = frontier p /\ checkpointCh p' = checkpointCh p.
Proof.
  destruct kvs as [|kv0 kvs].
  { intros [= <- <- <-]. split; reflexivity. }
  rewrite flushBuffer_unfold. cbv zeta. cbn [Now fst snd].
  destruct (runWorkers _ mustProcess (flushJobs p (kv0 :: kvs)) 0 0)
    as [[[[p1 chunks] [fbs np]] [e|]]|] eqn:Hrun; try discriminate.
  - intros [= <- <- <-]. apply runWorkers_frame in Hrun.
    destruct Hrun as (_ & _ & _ & _ & _ & H6 & H7 & _). split; assumption.
  - destruct (if 0 <? np then filterRemaining _ else _) as [rest' unapplied'].
    cbn. intros [= <- <- <-]. apply runWorkers_frame in Hrun.
    destruct Hrun as (_ & _ & _ & _ & _ & H6 & H7 & _). split; assumption.
Qed.

(** X3.  A flush reports no progress: whatever [flushBuffer] does with
    the rows, it leaves the frontier as it was, sends nothing on the
    checkpoint channel and does not count a checkpoint; the handler pool,
    the dead-letter queue client, the settings and the knobs are the ones
    it was given. *)
Theorem flushBuffer_reports_no_progress ctx p kvs mustProcess p' buf r :
  flushBuffer ctx p kvs mustProcess = Some (p', buf, r) ->
  frontier p' = frontier p /\ checkpointCh p' = checkpointCh p /\
  CheckpointEvents (metrics p') = CheckpointEvents (metrics p) /\
  bh p' = bh p /\ dlqClient p' = dlqClient p /\
  settings p' = settings p /\ knobs p' = knobs p /\ JobID p' = JobID p.
Proof.
  destruct kvs as [|kv0 kvs].
  { intros [= <- <- <-]. repeat split. }
  rewrite flushBuffer_unfold. cbv zeta. cbn [Now fst snd].
  destruct (runWorkers _ mustProcess (flushJobs p (kv0 :: kvs)) 0 0)
    as [[[[p1 chunks] [fbs np]] [e|]]|] eqn:Hrun; try discriminate.
  - intros [= <- <- <-].
    pose proof (runWorkers_flushMetrics _ _ _ _ _ _ _ _ _ Hrun) as Hm.
    apply runWorkers_frame in Hrun.
    destruct Hrun as (H1 & H2 & H3 & H4 & H5 & H6 & H7 & _).
    injection Hm as Hm _ _ _ _ _.
    repeat split; assumption.
  - destruct (if 0 <? np then filterRemaining _ else _) as [rest' unapplied'].
    cbn. intros [= <- <- <-].
    pose proof (runWorkers_flushMetrics _ _ _ _ _ _ _ _ _ Hrun) as Hm.
    apply runWorkers_frame in Hrun.
    destruct Hrun as (H1 & H2 & H3 & H4 & H5 & H6 & H7 & _).
    injection Hm as Hm _ _ _ _ _.
    repeat split; assumption.
Qed.

(** X4.  The counters of a flush of [N >= 1] rows.  When the flush
    returns without error, the applied-row counter goes up by [N], the
    number of rows of the buffer, whether the rows were applied,
    dead-lettered or left unprocessed; each of the three batch histograms
    gains one value ([N] for the rows, the flush time measured from the
    entry of [flushBuffer] to the join of the workers for the nanoseconds),
    and the logical-bytes counter goes up by the value recorded in the
    bytes histogram.  When the flush returns an error, it returns no
    [unapplied] slice and none of these metrics, nor the latency
    histogram, has changed. *)
Theorem flushBuffer_counts_every_row ctx p kv0 kvs mustProcess p' buf unapplied err :
  flushBuffer ctx p (kv0 :: kvs) mustProcess = Some (p', buf, (unapplied, err)) ->
  let total := Z.of_nat (length (kv0 :: kvs)) in
  match err with
  | None =>
      AppliedRowUpdates (metrics p') = add64 (AppliedRowUpdates (metrics p)) total /\
      StreamBatchRowsHist (metrics p') = StreamBatchRowsHist (metrics p) ++ [total] /\
      StreamBatchNanosHist (metrics p') =
        StreamBatchNanosHist (metrics p) ++
        [clampDuration (wallClock (tick p' - 2) - wallClock (tick p))] /\
      exists byteCount,
        AppliedLogicalBytes (metrics p') =
          add64 (AppliedLogicalBytes (metrics p)) byteCount /\
        StreamBatchBytesHist (metrics p') =
          StreamBatchBytesHist (metrics p) ++ [byteCount] /\
        last (debug p') =
          Some (RecordFlushComplete
                  (clampDuration (wallClock (tick p' - 2) - wallClock (tick p)))
                  total byteCount)
  | Some _ =>
      unapplied = None /\ flushMetrics p' = flushMetrics p /\
      latencies p' = latencies p
  end.
Proof.
  intros H total. rewrite flushBuffer_unfold in H. cbv zeta in H.
  rewrite SortFunc_length in H. fold total in H. clearbody total.
  set (jobs := flushJobs p (kv0 :: kvs)) in H.
  set (rest := snd (cutChunks _ _ _)) in H. clearbody jobs rest.
  cbn [Now fst snd] in H.
  destruct (runWorkers _ mustProcess jobs 0 0)
    as [[[[p1 chunks] [fbs np]] [e|]]|] eqn:Hrun; try discriminate.
  - injection H as <- <- <- <-.
    pose proof (runWorkers_flushMetrics _ _ _ _ _ _ _ _ _ Hrun) as Hm.
    apply runWorkers_latencies in Hrun.
    split; [reflexivity|]. split; [exact Hm|exact Hrun].
  - destruct (if 0 <? np then filterRemaining _ else _) as [rest' unapplied'].
    cbn in H. injection H as <- <- <- <-.
    pose proof (runWorkers_flushMetrics _ _ _ _ _ _ _ _ _ Hrun) as Hm.
    injection Hm as _ Hrows Hbytes Hnanos Hrowsh Hbytesh.
    cbn. rewrite Hrows, Hbytes, Hnanos, Hrowsh, Hbytesh.
    rewrite Nat.sub_0_r.
    split; [reflexivity|]. split; [reflexivity|]. split; [reflexivity|].
    exists fbs. split; [reflexivity|]. split; [reflexivity|].
    apply last_snoc.
Qed.

(** ** The buffer a flush leaves to its caller *)

Lemma runWorkers_slots mustProcess jobs :
  forall p fbs np p' chunks counters err,
  runWorkers p mustProcess jobs fbs np = Some (p', chunks, counters, err) ->
  Forall2 slotAfter (concat (map snd jobs)) (concat chunks).
Proof.
  induction jobs as [|[h chunk] jobs IH]; intros p fbs np p' chunks counters err; simpl.
  - intros [= <- <- <- <-]. constructor.
  - destruct (flushChunk p h chunk mustProcess) as [[[p1 chunk'] [s e]]|] eqn:Hc;
      [|discriminate].
    apply flushChunk_slotAfter in Hc.
    destruct e as [e|];
      (destruct (runWorkers _ mustProcess jobs _ _)
         as [[[[p2 chunks'] counters'] err']|] eqn:Hr; [|discriminate]);
      intros [= <- <- <- <-]; apply IH in Hr; simpl;
      apply Forall2_app; assumption.
Qed.

(** X5.  [flushBuffer] sorts the slice of its caller in place and zeroes
    slots in it.  With the pool of [maxWriterWorkers] handlers, when the
    flush returns, with an error or not, the caller's buffer has the
    length it had and holds a sorted arrangement of its rows (by row key,
    then commit timestamp) in which some slots have been zeroed: no row
    is moved after the sort, altered or duplicated. *)
Theorem flushBuffer_leaves_sorted_buffer ctx p kvs mustProcess p' buf r :
  length (bh p) = maxWriterWorkers ->
  flushBuffer ctx p kvs mustProcess = Some (p', buf, r) ->
  exists sorted,
    sorted ≡ₚ kvs /\ StronglySorted cmpLe sorted /\
    length buf = length kvs /\
    forall i kv', buf !! i = Some kv' -> kv' = zeroKV \/ sorted !! i = Some kv'.
Proof.
  intros Hbh H. exists (slices_SortFunc kvs).
  split; [apply SortFunc_Permutation|]. split; [apply SortFunc_Sorted|].
  assert (HF : Forall2 slotAfter (slices_SortFunc kvs) buf).
  { destruct kvs as [|kv0 kvs].
    { injection H as <- <- <-. constructor. }
    rewrite flushBuffer_unfold in H. cbv zeta in H.
    rewrite (cutChunks_all (bh p) (slices_SortFunc (kv0 :: kvs)) Hbh) in H.
    rewrite <- (flushJobs_concat p (kv0 :: kvs) Hbh).
    set (jobs := flushJobs p (kv0 :: kvs)) in *. clearbody jobs.
    destruct (runWorkers _ mustProcess jobs 0 0)
      as [[[[p1 chunks] [fbs np]] [e|]]|] eqn:Hrun; try discriminate;
      apply runWorkers_slots in Hrun.
    - injection H as <- <- <-. rewrite app_nil_r. exact Hrun.
    - assert (Hrest : elems (fst (if 0 <? np
                                  then filterRemaining (Some [])
                                  else (Some [], @None (list StreamEvent_KV)))) = [])
        by (destruct (0 <? np); reflexivity).
      destruct (if 0 <? np then filterRemaining (Some []) else _)
        as [rest' unapplied'].
      cbn [fst] in Hrest. cbn in H. injection H as <- <- <-.
      rewrite Hrest, app_nil_r. exact Hrun. }
  split.
  - rewrite <- (Forall2_length _ _ _ HF). apply SortFunc_length.
  - intros i kv' Hi.
    destruct (Forall2_lookup_r _ _ _ _ _ HF Hi) as (kv & Hkv & [->| ->]);
      [left; reflexivity|right; exact Hkv].
Qed.

(** ** The batches of a chunk *)

(** What a batch does to the processor: it acts on the world and writes
    log lines, nothing else. *)
Definition onlyWorldAndLogs (p p' : Processor) : Prop :=
  p' = setLogs (setWorld p (world p')) (logs p').

Lemma onlyWorldAndLogs_refl p : onlyWorldAndLogs p p.
Proof. destruct p. reflexivity. Qed.

Lemma onlyWorldAndLogs_trans p1 p2 p3 :
  onlyWorldAndLogs p1 p2 -> onlyWorldAndLogs p2 p3 -> onlyWorldAndLogs p1 p3.
Proof.
  unfold onlyWorldAndLogs. intros H12 H23. rewrite H23, H12.
  destruct p1. reflexivity.
Qed.

Lemma onlyWorldAndLogs_setWorld p w : onlyWorldAndLogs p (setWorld p w).
Proof. destruct p. reflexivity. Qed.

Lemma dlq_onlyWorldAndLogs p event row applyErr :
  onlyWorldAndLogs p (fst (dlq p event row applyErr)).
Proof.
  unfold dlq. simpl.
  destruct (IsInitialized row); simpl;
    destruct (Log _ _ _ _ _ _) as [w err]; destruct p; reflexivity.
Qed.

Lemma handleFailure_onlyWorldAndLogs p h kv err mustProcess stats :
  onlyWorldAndLogs p (fst (handleFailure p h kv err mustProcess stats)).
Proof.
  unfold handleFailure.
  destruct (mustProcess || negb (shouldRetryLater err));
    [|apply onlyWorldAndLogs_refl].
  pose proof (dlq_onlyWorldAndLogs p kv (GetLastRow h (world p)) err) as H.
  destruct (dlq p kv (GetLastRow h (world p)) err) as [p' [e|]]; exact H.
Qed.

Lemma retryRows_onlyWorldAndLogs h mustProcess todo : forall p before stats,
  onlyWorldAndLogs p (fst (fst (retryRows p h mustProcess before todo stats))).
Proof.
  induction todo as [|kv todo IH]; intros p before stats; simpl;
    [apply onlyWorldAndLogs_refl|].
  destruct (HandleBatch h (world p) [kv]) as [w [singleStats [e|]]].
  - pose proof (handleFailure_onlyWorldAndLogs (setWorld p w) h kv e mustProcess stats) as H.
    destruct (handleFailure (setWorld p w) h kv e mustProcess stats)
      as [p' [stats' [e'|]]]; simpl in H.
    + eapply onlyWorldAndLogs_trans; [apply onlyWorldAndLogs_setWorld|exact H].
    + eapply onlyWorldAndLogs_trans; [apply onlyWorldAndLogs_setWorld|].
      eapply onlyWorldAndLogs_trans; [exact H|apply IH].
  - eapply onlyWorldAndLogs_trans; [apply onlyWorldAndLogs_setWorld|apply IH].
Qed.

Lemma flushBatch_onlyWorldAndLogs p h mustProcess batch stats :
  onlyWorldAndLogs p (fst (fst (flushBatch p h mustProcess batch stats))).
Proof.
  unfold flushBatch.
  destruct (HandleBatch h (world p) batch) as [w [s [e|]]];
    [|apply onlyWorldAndLogs_setWorld].
  destruct batch as [|kv [|kv' batch]].
  - apply onlyWorldAndLogs_setWorld.
  - pose proof (handleFailure_onlyWorldAndLogs (setWorld p w) h kv e mustProcess stats) as H.
    destruct (handleFailure (setWorld p w) h kv e mustProcess stats) as [p' r].
    eapply onlyWorldAndLogs_trans; [apply onlyWorldAndLogs_setWorld|exact H].
  - eapply onlyWorldAndLogs_trans;
      [apply onlyWorldAndLogs_setWorld|apply retryRows_onlyWorldAndLogs].
Qed.

(** The sizes of the batches cut from a chunk of [n] rows: [batchSize]
    rows each, the last batch taking what is left. *)
Definition batchSizes (n batchSize : nat) : list nat :=
  replicate (n / batchSize) batchSize ++
  (if (n mod batchSize =? 0)%nat then [] else [(n mod batchSize)%nat]).

Lemma batchSizes_step n batchSize :
  (1 <= batchSize)%nat -> (1 <= n)%nat ->
  batchSizes n batchSize =
    Nat.min batchSize n :: batchSizes (n - Nat.min batchSize n) batchSize.
Proof.
  intros Hbs Hn. unfold batchSizes.
  destruct (Nat.lt_ge_cases n batchSize) as [Hlt|Hge].
  - rewrite Nat.min_r by lia. rewrite Nat.sub_diag.
    rewrite (Nat.div_small n), (Nat.mod_small n) by lia.
    rewrite Nat.Div0.div_0_l, Nat.Div0.mod_0_l.
    destruct (Nat.eqb_spec n 0); [lia|]. reflexivity.
  - rewrite Nat.min_l by lia.
    assert (Hn' : n = ((n - batchSize) + 1 * batchSize)%nat) by lia.
    assert (Hdiv : (n / batchSize = S ((n - batchSize) / batchSize))%nat).
    { rewrite Hn' at 1. rewrite Nat.div_add by lia. lia. }
    assert (Hmod : (n mod batchSize = (n - batchSize) mod batchSize)%nat).
    { rewrite Hn' at 1. apply Nat.Div0.mod_add. }
    rewrite Hdiv, Hmod. reflexivity.
Qed.

(** The key count of a [RecordBatchApplied] call. *)
Definition batchApplied (c : DebugCall) (n : nat) : Prop :=
  exists nanos, c = RecordBatchApplied nanos (Z.of_nat n).

Lemma flushChunkLoop_batches n h mustProcess batchSize :
  (1 <= batchSize)%nat ->
  forall p before chunk stats p' out stats',
  flushChunkLoop n p h mustProcess batchSize before chunk stats
    = Some (p', out, (stats', None)) ->
  exists calls,
    debug p' = debug p ++ calls /\
    Forall2 batchApplied calls (batchSizes (length chunk) batchSize) /\
    length (ApplyBatchNanosHist (metrics p')) =
      (length (ApplyBatchNanosHist (metrics p)) + length calls)%nat.
Proof.
  intros Hbs. induction n as [|n IH]; intros p before chunk stats p' out stats';
    destruct chunk as [|kv chunk]; simpl; try congruence;
    try (intros [= <- <- <-]; exists []; rewrite app_nil_r;
         split; [reflexivity|];
         split; [unfold batchSizes; rewrite Nat.Div0.div_0_l, Nat.Div0.mod_0_l;
                 constructor|simpl; lia]).
  set (m := Nat.min batchSize (S (length chunk))).
  set (batch := take m (kv :: chunk)).
  assert (Hlen : length batch = m) by (unfold batch; rewrite length_take; simpl; lia).
  pose proof (flushBatch_onlyWorldAndLogs (setTick p (S (tick p))) h mustProcess
                batch stats) as HB.
  destruct (flushBatch (setTick p (S (tick p))) h mustProcess batch stats)
    as [[p1 batch'] [stats1 [e|]]]; cbn [fst] in HB; [discriminate|].
  intros Hrec. apply IH in Hrec as (calls & Hd & HF & Hh).
  rewrite HB in Hd, Hh. cbn in Hd, Hh.
  eexists (_ :: calls). split; [rewrite Hd, <- app_assoc; reflexivity|].
  split.
  - rewrite (batchSizes_step (S (length chunk)) batchSize) by lia. fold m.
    constructor.
    + eexists. rewrite Hlen. reflexivity.
    + rewrite length_drop, Hlen in HF. exact HF.
  - rewrite Hh, length_app. simpl. lia.
Qed.

(** X6.  With a batch size of one or more, [flushChunk] returns on every
    chunk.  When it returns no error it has cut the chunk of [n] rows,
    front to back, into batches of [batchSize] rows, the last one taking
    what is left: it has recorded one [RecordBatchApplied] call per batch,
    with the size of the batch as key count, and as many values in the
    batch-time histogram.  A batch that failed and was retried row by row
    counts as one batch. *)
Theorem flushChunk_batches p h chunk mustProcess :
  (1 <= batchSizeOf (settings p))%nat ->
  exists p' chunk' stats err,
    flushChunk p h chunk mustProcess = Some (p', chunk', (stats, err)) /\
    (err = None ->
     exists calls,
       debug p' = debug p ++ calls /\
       Forall2 batchApplied calls
         (batchSizes (length chunk) (batchSizeOf (settings p))) /\
       length (ApplyBatchNanosHist (metrics p')) =
         (length (ApplyBatchNanosHist (metrics p)) + length calls)%nat).
Proof.
  intros Hbs.
  destruct (flushChunk_returns p h chunk mustProcess Hbs)
    as [[[p' chunk'] [stats err]] H].
  exists p', chunk', stats, err. split; [exact H|].
  intros ->. exact (flushChunkLoop_batches _ h mustProcess _ Hbs _ _ _ _ _ _ _ H).
Qed.

(** X7.  The batch-size setting accepts 0.  With implicit transactions
    off and a batch size of 0, every batch [flushChunk] cuts is empty and
    the chunk is never shortened: on a chunk that holds a row the loop
    makes no progress, and [flushChunk] does not return, however many
    iterations it is given. *)
Theorem flushChunk_spins_on_batch_size_zero p h chunk mustProcess :
  useImplicitTxns (settings p) = false ->
  flushBatchSize (settings p) = 0%nat ->
  chunk <> [] ->
  batchSizeOf (settings p) = 0%nat /\
  take (Nat.min (batchSizeOf (settings p)) (length chunk)) chunk = [] /\
  flushChunk p h chunk mustProcess = None /\
  forall n q before stats,
    flushChunkLoop n q h mustProcess (batchSizeOf (settings p)) before chunk stats
      = None.
Proof.
  intros Himplicit Hsize Hne.
  assert (Hbs : batchSizeOf (settings p) = 0%nat)
    by (unfold batchSizeOf; rewrite Himplicit; exact Hsize).
  split; [exact Hbs|]. rewrite Hbs.
  split; [reflexivity|].
  split; [apply flushChunk_never_returns; assumption|].
  intros n q before stats. apply flushChunkLoop_stuck, Hne.
Qed.

(** ** The number of workers a flush uses *)

Lemma cutChunks_few workers : forall chunkSize kvs,
  (1 <= chunkSize)%nat ->
  fst (cutChunks workers chunkSize kvs) = [] \/
  ((length (fst (cutChunks workers chunkSize kvs)) - 1) * chunkSize + 1
     <= length kvs)%nat.
Proof.
  induction workers as [|h workers IH]; intros chunkSize kvs Hcs; [left; reflexivity|].
  destruct kvs as [|kv kvs]; [left; reflexivity|]. right.
  remember (kv :: kvs) as kvs0 eqn:Hkvs0.
  assert (Hne : kvs0 <> []) by (subst; discriminate).
  destruct (chunkEndOf_spec chunkSize kvs0 Hcs Hne) as (Ht & Hle & _).
  assert (He : length (take (chunkEndOf chunkSize kvs0) kvs0) =
               chunkEndOf chunkSize kvs0) by (rewrite length_take; lia).
  assert (Hfst : length (fst (cutChunks (h :: workers) chunkSize kvs0)) =
                 S (length (fst (cutChunks workers chunkSize
                                   (drop (chunkEndOf chunkSize kvs0) kvs0))))).
  { subst kvs0. cbn [cutChunks]. rewrite He.
    destruct (cutChunks workers chunkSize _). reflexivity. }
  rewrite Hfst.
  destruct (IH chunkSize (drop (chunkEndOf chunkSize kvs0) kvs0) Hcs) as [->|IH'].
  - simpl. destruct kvs0; [congruence|simpl; lia].
  - rewrite length_drop in IH'.
    set (n := length (fst (cutChunks workers chunkSize
                             (drop (chunkEndOf chunkSize kvs0) kvs0)))) in *.
    clearbody n. clear Hfst.
    assert (Hpos : (1 <= length kvs0 - chunkEndOf chunkSize kvs0)%nat).
    { generalize dependent ((n - 1) * chunkSize)%nat. intros. lia. }
    assert (chunkSize <= chunkEndOf chunkSize kvs0)%nat by lia.
    destruct n as [|n]; [simpl in *; lia|].
    replace (S (S n) - 1)%nat with (S n) by lia.
    replace (S n - 1)%nat with n in IH' by lia. nia.
Qed.

(** X8.  The parallelism of a flush follows the size of the buffer.
    With the pool of [maxWriterWorkers] handlers, a flush of [n] rows
    starts at most [ceil(n / 64)] workers, every chunk but the last one
    holding at least 64 rows; a buffer of 1 to 64 rows is one chunk,
    applied by the first handler of the pool alone. *)
Theorem flushBuffer_worker_bound p kvs :
  length (bh p) = maxWriterWorkers ->
  (length (flushJobs p kvs) <= (length kvs + 63) / 64)%nat /\
  ((1 <= length kvs <= 64)%nat ->
   exists h, bh p !! 0%nat = Some h /\
             flushJobs p kvs = [(h, slices_SortFunc kvs)]).
Proof.
  intros Hbh.
  assert (Hcount : (length (flushJobs p kvs) <= (length kvs + 63) / 64)%nat).
  { unfold flushJobs.
    set (cs := chunkSizeOf (length (slices_SortFunc kvs)) (length (bh p))).
    assert (Hcs : (64 <= cs)%nat) by (unfold cs, chunkSizeOf, minChunkSize; lia).
    destruct (cutChunks_few (bh p) cs (slices_SortFunc kvs)) as [->|H]; [lia| |].
    - simpl. lia.
    - rewrite SortFunc_length in H.
      apply Nat.div_le_lower_bound; [lia|]. nia. }
  split; [exact Hcount|]. intros Hn.
  assert (Hone : (length (flushJobs p kvs) <= 1)%nat).
  { assert ((length kvs + 63) / 64 < 2)%nat
      by (apply Nat.Div0.div_lt_upper_bound; lia).
    lia. }
  pose proof (flushJobs_concat p kvs Hbh) as Hcat.
  destruct (flushJobs p kvs) as [|[h c] [|job jobs]] eqn:Hjobs; simpl in Hone; try lia.
  - simpl in Hcat. pose proof (SortFunc_length kvs) as Hl.
    rewrite <- Hcat in Hl. simpl in Hl. lia.
  - exists h. split.
    + apply (cutChunks_worker_lookup (bh p)
               (chunkSizeOf (length (slices_SortFunc kvs)) (length (bh p)))
               (slices_SortFunc kvs) 0 h c).
      fold (flushJobs p kvs). rewrite Hjobs. reflexivity.
    + simpl in Hcat. rewrite app_nil_r in Hcat. rewrite Hcat. reflexivity.
Qed.

(** ** A flush that may retry later does not fail

    [flushChunk] returns an error only from [dlq], which it calls only
    when it must process the row. *)

Lemma retryRows_retry_later h todo : forall p before stats,
  snd (snd (retryRows p h false before todo stats)) = None.
Proof.
  induction todo as [|kv todo IH]; intros p before stats; simpl; [reflexivity|].
  destruct (HandleBatch h (world p) [kv]) as [w [singleStats [e|]]]; apply IH.
Qed.

Lemma flushBatch_retry_later p h batch stats :
  snd (snd (flushBatch p h false batch stats)) = None.
Proof.
  unfold flushBatch.
  destruct (HandleBatch h (world p) batch) as [w [s [e|]]]; [|reflexivity].
  destruct batch as [|kv [|kv' batch]]; [reflexivity|reflexivity|].
  apply retryRows_retry_later.
Qed.

Lemma flushChunkLoop_retry_later n h batchSize :
  forall p before chunk stats p' out stats' err,
  flushChunkLoop n p h false batchSize before chunk stats
    = Some (p', out, (stats', err)) ->
  err = None.
Proof.
  induction n as [|n IH]; intros p before chunk stats p' out stats' err;
    destruct chunk as [|kv chunk]; simpl; try congruence.
  set (batch := take (Nat.min batchSize (S (length chunk))) (kv :: chunk)).
  pose proof (flushBatch_retry_later (setTick p (S (tick p))) h batch stats) as H.
  destruct (flushBatch (setTick p (S (tick p))) h false batch stats)
    as [[p1 batch'] [stats1 [e|]]]; simpl in H; [discriminate|].
  apply IH.
Qed.

(** [flushChunk] leaves the conflict counter to [flushBuffer]. *)
Lemma flushChunkLoop_conflictCount n h mustProcess batchSize :
  forall p before chunk stats p' out r,
  flushChunkLoop n p h mustProcess batchSize before chunk stats = Some (p', out, r) ->
  OptimisticInsertConflictCount (metrics p') =
    OptimisticInsertConflictCount (metrics p).
Proof.
  induction n as [|n IH]; intros p before chunk stats p' out r;
    destruct chunk as [|kv chunk]; simpl; try congruence;
    try (intros [= <- <- <-]; reflexivity).
  set (batch := take (Nat.min batchSize (S (length chunk))) (kv :: chunk)).
  pose proof (flushBatch_onlyWorldAndLogs (setTick p (S (tick p))) h mustProcess
                batch stats) as HB.
  destruct (flushBatch (setTick p (S (tick p))) h mustProcess batch stats)
    as [[p1 batch'] [stats1 [e|]]]; cbn [fst] in HB.
  - intros [= <- <- <-]. rewrite HB. reflexivity.
  - intros Hrec. apply IH in Hrec. rewrite Hrec, HB. reflexivity.
Qed.

(** ** The event loop *)

Lemma consumeLoop_error_is_final ctx events : forall lrw before lrw' err,
  consumeLoop ctx lrw before events None = Some (lrw', Some err) ->
  forall more subErr,
    consumeLoop ctx lrw before (events ++ more) subErr = Some (lrw', Some err).
Proof.
  induction events as [|event events IH]; intros lrw before lrw' err;
    [discriminate|].
  cbn [consumeLoop app]. cbn [Since Now fst snd].
  destruct (handleEvent ctx _ event) as [[lrw1 [e|]]|]; try discriminate.
  - intros H more subErr. exact H.
  - intros H more subErr. apply IH, H.
Qed.

Lemma consumeLoop_all_handled ctx events : forall lrw before lrw',
  consumeLoop ctx lrw before events None = Some (lrw', None) ->
  forall subErr, consumeLoop ctx lrw before events subErr = Some (lrw', subErr).
Proof.
  induction events as [|event events IH]; intros lrw before lrw'.
  - intros [= <-] subErr. reflexivity.
  - cbn [consumeLoop]. cbn [Since Now fst snd].
    destruct (handleEvent ctx _ event) as [[lrw1 [e|]]|]; try discriminate.
    intros H subErr. apply IH, H.
Qed.

(** What [consumeEvents] does on receiving an event, before it handles
    it: the time since the last receipt goes to the debug hook and the
    time of this receipt is taken. *)
Definition received (lrw : lrwProcessor) (before : Time) : lrwProcessor * Time :=
  let '(gap, p) := Since (proc lrw) before in
  let p := debugRecord p (RecordRecv gap) in
  let '(before, p) := Now p in
  (mkLrw p (purgatory lrw), before).

(** [handledInOrder ctx lrw before events lrw' before']: starting from
    [lrw], the last receipt being at [before], every event of [events] is
    received and given to [handleEvent] in order, each on the processor
    the one before it left, and [handleEvent] returns no error for any of
    them; [lrw'] is the processor the last one leaves. *)
Inductive handledInOrder (ctx : Ctx)
  : lrwProcessor -> Time -> list Event -> lrwProcessor -> Time -> Prop :=
  | handled_none lrw before : handledInOrder ctx lrw before [] lrw before
  | handled_next lrw before event events lrw1 lrw' before' :
      handleEvent ctx (fst (received lrw before)) event = Some (lrw1, None) ->
      handledInOrder ctx lrw1 (snd (received lrw before)) events lrw' before' ->
      handledInOrder ctx lrw before (event :: events) lrw' before'.

Lemma consumeLoop_received ctx lrw before event events subErr :
  consumeLoop ctx lrw before (event :: events) subErr =
    match handleEvent ctx (fst (received lrw before)) event with
    | None => None
    | Some (lrw1, Some err) => Some (lrw1, Some err)
    | Some (lrw1, None) =>
        consumeLoop ctx lrw1 (snd (received lrw before)) events subErr
    end.
Proof. reflexivity. Qed.

Lemma consumeLoop_handled ctx subErr events : forall lrw before lrw' before',
  handledInOrder ctx lrw before events lrw' before' ->
  forall rest,
    consumeLoop ctx lrw before (events ++ rest) subErr =
    consumeLoop ctx lrw' before' rest subErr.
Proof.
  intros lrw before lrw' before' H.
  induction H as [|lrw before event events lrw1 lrw' before' Hev _ IH];
    intros rest; [reflexivity|].
  cbn [app]. rewrite consumeLoop_received, Hev. apply IH.
Qed.

Lemma consumeLoop_outcome ctx subErr events : forall lrw before lrw' err,
  consumeLoop ctx lrw before events subErr = Some (lrw', err) ->
  (exists before', handledInOrder ctx lrw before events lrw' before' /\
                   err = subErr) \/
  (exists done event rest lrwk beforek e,
     events = done ++ event :: rest /\
     handledInOrder ctx lrw before done lrwk beforek /\
     handleEvent ctx (fst (received lrwk beforek)) event = Some (lrw', Some e) /\
     err = Some e).
Proof.
  induction events as [|event events IH]; intros lrw before lrw' err.
  - intros [= <- <-]. left. exists before. split; [constructor|reflexivity].
  - rewrite consumeLoop_received.
    destruct (handleEvent ctx (fst (received lrw before)) event)
      as [[lrw1 [e|]]|] eqn:Hev; [| |discriminate].
    + intros [= <- <-]. right.
      exists [], event, events, lrw, before, e.
      split; [reflexivity|]. split; [constructor|]. split; [exact Hev|reflexivity].
    + intros Hrec. apply IH in Hrec as [(before' & Hall & ->)|Hstop].
      * left. exists before'. split; [|reflexivity].
        exact (handled_next _ _ _ _ _ _ _ _ Hev Hall).
      * right.
        destruct Hstop as (done & ev & rest & lrwk & beforek & e' & -> & Hd & Hk & ->).
        exists (event :: done), ev, rest, lrwk, beforek, e'.
        split; [reflexivity|].
        split; [exact (handled_next _ _ _ _ _ _ _ _ Hev Hd)|].
        split; [exact Hk|reflexivity].
Qed.


End Processor.

(** * The order in which a worker applies its rows

    To see the order of application, a handler is wrapped so that it keeps
    a journal: the rows of every batch it applied, in the order of the
    calls.  The wrapped handler returns what the handler returns. *)

Section ApplyOrder.

Context {Row World Frontier : Type}.
Variable IsInitialized : Row -> bool.
Variable EnsureSafeSplitKey : Key -> option Key.
Variable wallClock : nat -> Time.

Definition journaled (h : @BatchHandler Row World)
  : @BatchHandler Row (World * list StreamEvent_KV) :=
  mkBatchHandler
    (fun wj batch =>
       let '(w, (s, err)) := HandleBatch h (fst wj) batch in
       ((w, match err with None => snd wj ++ batch | Some _ => snd wj end),
        (s, err)))
    (fun wj => GetLastRow h (fst wj)).

Definition journaledDLQ (d : @DeadLetterQueueClient Row World)
  : @DeadLetterQueueClient Row (World * list StreamEvent_KV) :=
  mkDLQ (fun wj job kv row err =>
           let '(w, e) := Log d (fst wj) job kv row err in ((w, snd wj), e)).

Definition journal (q : @Processor Row (World * list StreamEvent_KV) Frontier)
  : list StreamEvent_KV := snd (world q).

(** The commit timestamps of the revisions of one row never decrease
    along [l]. *)
Definition inCommitOrder (l : list StreamEvent_KV) : Prop :=
  forall before b after, l = before ++ b :: after ->
  forall a, a ∈ before -> k EnsureSafeSplitKey a = k EnsureSafeSplitKey b ->
  Timestamp_Compare (kvTimestamp a) (kvTimestamp b) <= 0.

Lemma dlq_journal d q event row applyErr :
  dlqClient q = journaledDLQ d ->
  journal (fst (dlq IsInitialized q event row applyErr)) = journal q.
Proof.
  intros Hd. unfold dlq, journal. simpl.
  destruct (IsInitialized row); simpl; rewrite Hd; simpl;
    destruct (Log d _ _ _ _ _) as [w e]; reflexivity.
Qed.

Lemma handleFailure_journal d q h kv err mustProcess stats :
  dlqClient q = journaledDLQ d ->
  journal (fst (handleFailure IsInitialized q h kv err mustProcess stats)) = journal q.
Proof.
  intros Hd. unfold handleFailure.
  destruct (mustProcess || negb (shouldRetryLater err)); [|reflexivity].
  pose proof (dlq_journal d q kv (GetLastRow h (world q)) err Hd) as H.
  destruct (dlq IsInitialized q kv (GetLastRow h (world q)) err) as [q' [e|]]; exact H.
Qed.

Lemma retryRows_journal d h mustProcess todo : forall q before stats,
  dlqClient q = journaledDLQ d ->
  exists J,
    journal (fst (fst (retryRows IsInitialized q (journaled h) mustProcess
                         before todo stats))) = journal q ++ J /\
    J `sublist_of` todo.
Proof.
  induction todo as [|kv todo IH]; intros q before stats Hd.
  - exists []. simpl. rewrite app_nil_r. split; [reflexivity|constructor].
  - cbn [retryRows]. cbn [HandleBatch journaled].
    destruct (HandleBatch h (fst (world q)) [kv]) as [w [singleStats [e|]]].
    + set (q1 := setWorld q (w, snd (world q))).
      assert (Hd1 : dlqClient q1 = journaledDLQ d) by exact Hd.
      pose proof (handleFailure_journal d q1 (journaled h) kv e mustProcess stats Hd1) as Hj.
      pose proof (handleFailure_frame IsInitialized q1 (journaled h) kv e mustProcess stats) as Hf.
      destruct (handleFailure IsInitialized q1 (journaled h) kv e mustProcess stats)
        as [q2 [stats' [e'|]]]; cbn [fst snd] in *.
      * exists []. rewrite app_nil_r. split; [exact Hj|apply sublist_nil_l].
      * destruct (IH q2 (before ++ [kv]) stats') as (J & HJ & Hsub).
        { destruct Hf as (_ & _ & _ & Hf & _). congruence. }
        exists J. split; [|apply sublist_cons, Hsub].
        rewrite HJ, Hj. reflexivity.
    + set (q1 := setWorld q (w, snd (world q) ++ [kv])).
      destruct (IH q1 (before ++ [zeroKV]) (batchStats_Add stats singleStats))
        as (J & HJ & Hsub); [exact Hd|].
      exists (kv :: J). split; [|apply sublist_skip, Hsub].
      rewrite HJ. unfold journal, q1. simpl. rewrite <- app_assoc. reflexivity.
Qed.

Lemma flushBatch_journal d q h mustProcess batch stats :
  dlqClient q = journaledDLQ d ->
  exists J,
    journal (fst (fst (flushBatch IsInitialized q (journaled h) mustProcess
                         batch stats))) = journal q ++ J /\
    J `sublist_of` batch.
Proof.
  intros Hd. unfold flushBatch. cbn [HandleBatch journaled].
  destruct (HandleBatch h (fst (world q)) batch) as [w [s [e|]]].
  - set (q1 := setWorld q (w, snd (world q))).
    destruct batch as [|kv [|kv' batch]].
    + exists []. cbn. rewrite app_nil_r. split; [reflexivity|constructor].
    + pose proof (handleFailure_journal d q1 (journaled h) kv e mustProcess stats Hd) as Hj.
      destruct (handleFailure IsInitialized q1 (journaled h) kv e mustProcess stats)
        as [q2 r]. exists []. cbn [fst] in *. rewrite app_nil_r.
      split; [exact Hj|apply sublist_nil_l].
    + apply (retryRows_journal d h mustProcess (kv :: kv' :: batch) q1 [] stats Hd).
  - exists batch. cbn. split; reflexivity.
Qed.

Lemma flushChunkLoop_journal d n h mustProcess batchSize :
  forall q before chunk stats q' chunk' r,
  dlqClient q = journaledDLQ d ->
  flushChunkLoop IsInitialized wallClock n q (journaled h) mustProcess batchSize
    before chunk stats = Some (q', chunk', r) ->
  exists J, journal q' = journal q ++ J /\ J `sublist_of` chunk.
Proof.
  induction n as [|n IH]; intros q before chunk stats q' chunk' r Hd;
    destruct chunk as [|kv chunk]; cbn [flushChunkLoop]; try discriminate;
    try (intros [= <- <- <-]; exists []; rewrite app_nil_r;
         split; [reflexivity|constructor]).
  set (m := Nat.min batchSize (length (kv :: chunk))).
  cbn [Now fst snd].
  set (q0 := setTick q (S (tick q))).
  destruct (flushBatch_journal d q0 h mustProcess (take m (kv :: chunk)) stats Hd)
    as (J1 & HJ1 & Hsub1).
  pose proof (flushBatch_frame IsInitialized q0 (journaled h) mustProcess
                (take m (kv :: chunk)) stats) as Hf.
  destruct (flushBatch IsInitialized q0 (journaled h) mustProcess
              (take m (kv :: chunk)) stats)
    as [[q1 batch'] [stats' [e|]]]; cbn [fst snd] in *.
  - intros [= <- <- <-]. exists J1. split; [exact HJ1|].
    etransitivity; [exact Hsub1|apply sublist_take].
  - intros Hrec. apply IH in Hrec as (J2 & HJ2 & Hsub2).
    + exists (J1 ++ J2). split.
      * rewrite HJ2. transitivity (journal q1 ++ J2); [reflexivity|].
        rewrite HJ1, <- app_assoc. reflexivity.
      * rewrite <- (take_drop m (kv :: chunk)). apply sublist_app; [exact Hsub1|].
        rewrite length_take in Hsub2.
        replace (Nat.min m (length (kv :: chunk))) with m in Hsub2 by (unfold m; lia).
        exact Hsub2.
    + destruct Hf as (_ & _ & _ & Hf & _).
      transitivity (dlqClient q1); [reflexivity|]. rewrite Hf. exact Hd.
Qed.

Lemma StronglySorted_sublist {A} (R : relation A) l1 l2 :
  l1 `sublist_of` l2 -> StronglySorted R l2 -> StronglySorted R l1.
Proof.
  induction 1 as [|x l1 l2 Hsub IH|x l1 l2 Hsub IH]; intros Hs.
  - constructor.
  - apply StronglySorted_inv in Hs as [Hs Hx]. constructor; [auto|].
    rewrite Forall_forall in *. intros y Hy. apply Hx.
    eapply elem_of_sublist; eassumption.
  - apply StronglySorted_inv in Hs as [Hs _]. auto.
Qed.

Lemma sorted_inCommitOrder l :
  StronglySorted (cmpLe EnsureSafeSplitKey) l -> inCommitOrder l.
Proof.
  intros Hs before b after -> a Ha E.
  pose proof (StronglySorted_app_1_elem_of _ before (b :: after) a b Hs Ha) as H.
  specialize (H (list_elem_of_here _ _)).
  unfold cmpLe in H. rewrite cmpKV_same_key in H by exact E. exact H.
Qed.

Lemma StronglySorted_chunk (R : relation StreamEvent_KV)
    (workers : list (@BatchHandler Row World)) chunkSize kvs i h c :
  StronglySorted R kvs ->
  fst (cutChunks EnsureSafeSplitKey workers chunkSize kvs) !! i = Some (h, c) ->
  StronglySorted R c.
Proof.
  intros Hs Hi.
  pose proof (cutChunks_concat EnsureSafeSplitKey workers chunkSize kvs) as Hcat.
  rewrite <- Hcat in Hs. apply StronglySorted_app_1_l in Hs.
  apply (StronglySorted_sublist R c) in Hs; [exact Hs|].
  assert (Hc : map snd (fst (cutChunks EnsureSafeSplitKey workers chunkSize kvs)) !! i
               = Some c) by (rewrite list_lookup_fmap, Hi; reflexivity).
  apply take_drop_middle in Hc. rewrite <- Hc, concat_app. cbn [concat].
  apply sublist_inserts_l, sublist_inserts_r. reflexivity.
Qed.

Lemma flushChunk_journal d q h chunk mustProcess q' chunk' r :
  dlqClient q = journaledDLQ d ->
  flushChunk IsInitialized wallClock q (journaled h) chunk mustProcess
    = Some (q', chunk', r) ->
  exists J, journal q' = journal q ++ J /\ J `sublist_of` chunk.
Proof. intros Hd. unfold flushChunk. apply (flushChunkLoop_journal d), Hd. Qed.

(** The revision of a row that comes last in [l] has the latest commit
    timestamp of the revisions of that row in [l]. *)
Definition latestLast (l : list StreamEvent_KV) : Prop :=
  forall before b after, l = before ++ b :: after ->
  (forall x, x ∈ after -> k EnsureSafeSplitKey x <> k EnsureSafeSplitKey b) ->
  forall a, a ∈ l -> k EnsureSafeSplitKey a = k EnsureSafeSplitKey b ->
  Timestamp_Compare (kvTimestamp a) (kvTimestamp b) <= 0.

Lemma Timestamp_Compare_refl t : Timestamp_Compare t t = 0.
Proof. unfold Timestamp_Compare. rewrite !Z.ltb_irrefl. reflexivity. Qed.

Lemma inCommitOrder_latestLast l : inCommitOrder l -> latestLast l.
Proof.
  intros H before b after -> Hafter a Ha E.
  apply elem_of_app in Ha as [Ha|Ha].
  - eapply H; eauto.
  - apply elem_of_cons in Ha as [->|Ha].
    + rewrite Timestamp_Compare_refl. lia.
    + destruct (Hafter a Ha E).
Qed.

(** C7.  [flushBuffer] sorts the buffer by row key, then commit
    timestamp, ascending, before it cuts the chunks, and the chunks follow
    the sorted order.  With the pool of [maxWriterWorkers] handlers, all
    the revisions of a row are in the chunk of one worker, in commit order,
    the most recent one last.  That worker applies its chunk front to
    back: the rows it applies, in the order it applies them, are rows of
    the chunk in chunk order, so the revisions of a row are applied in
    commit order and the one applied last is the most recent of them. *)
Theorem revisions_applied_in_commit_order
    (p : @Processor Row World Frontier) (kvs : list StreamEvent_KV) :
  length (bh p) = maxWriterWorkers ->
  let sorted := slices_SortFunc EnsureSafeSplitKey kvs in
  let jobs := fst (cutChunks EnsureSafeSplitKey (bh p)
                     (chunkSizeOf (length sorted) (length (bh p))) sorted) in
  sorted ≡ₚ kvs /\
  StronglySorted (cmpLe EnsureSafeSplitKey) sorted /\
  (forall a b,
     cmpLe EnsureSafeSplitKey a b <->
     Key_Compare (k EnsureSafeSplitKey a) (k EnsureSafeSplitKey b) < 0 \/
     (k EnsureSafeSplitKey a = k EnsureSafeSplitKey b /\
      Timestamp_Compare (kvTimestamp a) (kvTimestamp b) <= 0)) /\
  concat (map snd jobs) = sorted /\
  (forall kv, kv ∈ kvs ->
     exists i h c,
       jobs !! i = Some (h, c) /\ bh p !! i = Some h /\
       (forall kv', kv' ∈ kvs ->
          k EnsureSafeSplitKey kv' = k EnsureSafeSplitKey kv -> kv' ∈ c) /\
       inCommitOrder c /\ latestLast c) /\
  (forall i h c, jobs !! i = Some (h, c) ->
     forall (q : @Processor Row (World * list StreamEvent_KV) Frontier)
            d mustProcess q' c' r,
       dlqClient q = journaledDLQ d ->
       flushChunk IsInitialized wallClock q (journaled h) c mustProcess
         = Some (q', c', r) ->
       exists J,
         journal q' = journal q ++ J /\ J `sublist_of` c /\
         inCommitOrder J /\ latestLast J).
Proof.
  intros Hbh. cbv zeta.
  set (sorted := slices_SortFunc EnsureSafeSplitKey kvs).
  set (chunkSize := chunkSizeOf (length sorted) (length (bh p))).
  pose proof (SortFunc_Sorted EnsureSafeSplitKey kvs) as Hsorted. fold sorted in Hsorted.
  pose proof (cutChunks_concat EnsureSafeSplitKey (bh p) chunkSize sorted) as Hcat.
  pose proof (cutChunks_all EnsureSafeSplitKey (bh p) sorted Hbh) as Hall.
  fold chunkSize in Hall. rewrite Hall, app_nil_r in Hcat.
  pose proof (fun kv => flushJobs_row EnsureSafeSplitKey p kvs kv Hbh) as Hrow.
  unfold flushJobs in Hrow. fold sorted chunkSize in Hrow.
  split; [apply SortFunc_Permutation|]. split; [exact Hsorted|].
  split; [apply cmpLe_lexicographic|]. split; [exact Hcat|]. split.
  - intros kv Hkv. destruct (Hrow kv Hkv) as (i & h & c & Hi & Hc).
    exists i, h, c. split; [exact Hi|].
    split; [eapply cutChunks_worker_lookup; exact Hi|].
    split; [intros kv' Hkv' E; apply (Hc kv' Hkv' E)|].
    assert (Hs : StronglySorted (cmpLe EnsureSafeSplitKey) c)
      by (eapply StronglySorted_chunk; [exact Hsorted|exact Hi]).
    split; [|apply inCommitOrder_latestLast]; apply sorted_inCommitOrder, Hs.
  - intros i h c Hi q d mustProcess q' c' r Hd Hrun.
    destruct (flushChunk_journal d q h c mustProcess q' c' r Hd Hrun) as (J & HJ & Hsub).
    assert (Hs : StronglySorted (cmpLe EnsureSafeSplitKey) c)
      by (eapply StronglySorted_chunk; [exact Hsorted|exact Hi]).
    pose proof (StronglySorted_sublist _ _ _ Hsub Hs) as HsJ.
    exists J. split; [exact HJ|]. split; [exact Hsub|].
    split; [|apply inCommitOrder_latestLast]; apply sorted_inCommitOrder, HsJ.
Qed.

End ApplyOrder.

(** * What becomes of every row

    To see what a flush does with each row, the handlers and the
    dead-letter queue client are wrapped so that they keep a ledger: the
    rows of every batch that was applied and the rows logged to the
    dead-letter queue, in the order of the calls.  The wrapped handler and
    client return what the ones they wrap return. *)

Section Disposal.

Context {Row World Frontier : Type}.
Variable IsInitialized : Row -> bool.
Variable EnsureSafeSplitKey : Key -> option Key.
Variable wallClock : nat -> Time.

Record Ledger : Type := mkLedger {
  appliedRows : list StreamEvent_KV;
  deadLetteredRows : list StreamEvent_KV
}.

Definition audited (h : @BatchHandler Row World)
  : @BatchHandler Row (World * Ledger) :=
  mkBatchHandler
    (fun wl batch =>
       let '(w, (s, err)) := HandleBatch h (fst wl) batch in
       ((w, match err with
            | None => mkLedger (appliedRows (snd wl) ++ batch)
                        (deadLetteredRows (snd wl))
            | Some _ => snd wl
            end),
        (s, err)))
    (fun wl => GetLastRow h (fst wl)).

Definition auditedDLQ (d : @DeadLetterQueueClient Row World)
  : @DeadLetterQueueClient Row (World * Ledger) :=
  mkDLQ (fun wl job kv row err =>
           let '(w, e) := Log d (fst wl) job kv row err in
           ((w, match e with
                | None => mkLedger (appliedRows (snd wl))
                            (deadLetteredRows (snd wl) ++ [kv])
                | Some _ => snd wl
                end),
            e)).

Definition ledger (q : @Processor Row (World * Ledger) Frontier) : Ledger :=
  snd (world q).

(** The rows still in their slots: the slots with a non-empty key, as
    [filterRemaining] reads them. *)
Definition leftInPlace (slots : list StreamEvent_KV) : list StreamEvent_KV :=
  filter (fun kv => hasKey kv = true) slots.

(** The rows a flush has left for a later retry. *)
Definition keptRows (mustProcess : bool) (slots : list StreamEvent_KV)
  : list StreamEvent_KV :=
  if mustProcess then [] else leftInPlace slots.

Lemma leftInPlace_app l1 l2 :
  leftInPlace (l1 ++ l2) = leftInPlace l1 ++ leftInPlace l2.
Proof. apply filter_app. Qed.

Lemma leftInPlace_zero n : leftInPlace (replicate n zeroKV) = [].
Proof. induction n; [reflexivity|exact IHn]. Qed.

Lemma leftInPlace_keyed l :
  Forall (fun kv => hasKey kv = true) l -> leftInPlace l = l.
Proof.
  unfold leftInPlace. induction 1 as [|kv l Hkv _ IH]; [reflexivity|].
  rewrite filter_cons_True by exact Hkv. rewrite IH. reflexivity.
Qed.

Lemma keptRows_app mustProcess l1 l2 :
  keptRows mustProcess (l1 ++ l2) = keptRows mustProcess l1 ++ keptRows mustProcess l2.
Proof. destruct mustProcess; [reflexivity|apply leftInPlace_app]. Qed.

Lemma keptRows_zero mustProcess n : keptRows mustProcess (replicate n zeroKV) = [].
Proof. destruct mustProcess; [reflexivity|apply leftInPlace_zero]. Qed.

(** Between [q] and [q'] every row of [rows] was applied, logged to the
    dead-letter queue or left in its slot, and only one of the three. *)
Definition accounted (mustProcess : bool)
    (q q' : @Processor Row (World * Ledger) Frontier)
    (rows slots : list StreamEvent_KV) : Prop :=
  exists A D,
    appliedRows (ledger q') = appliedRows (ledger q) ++ A /\
    deadLetteredRows (ledger q') = deadLetteredRows (ledger q) ++ D /\
    A ++ D ++ keptRows mustProcess slots ≡ₚ rows /\
    (mustProcess = false -> D = []).

(** [notProcessed] went up by one for every row left in its slot. *)
Definition counted (mustProcess : bool) (slots : list StreamEvent_KV)
    (np np' : Z) : Prop :=
  np' = Nat.iter (length (keptRows mustProcess slots)) (fun z => add64 z 1) np.

Lemma accounted_nil mustProcess q : accounted mustProcess q q [] [].
Proof.
  exists [], []. rewrite !app_nil_r.
  destruct mustProcess; cbn; repeat split; reflexivity.
Qed.

Lemma counted_nil mustProcess np : counted mustProcess [] np np.
Proof. destruct mustProcess; reflexivity. Qed.

Lemma accounted_app mustProcess q1 q2 q3 rows1 slots1 rows2 slots2 :
  accounted mustProcess q1 q2 rows1 slots1 ->
  accounted mustProcess q2 q3 rows2 slots2 ->
  accounted mustProcess q1 q3 (rows1 ++ rows2) (slots1 ++ slots2).
Proof.
  intros (A1 & D1 & Ha1 & Hd1 & Hp1 & Hn1) (A2 & D2 & Ha2 & Hd2 & Hp2 & Hn2).
  exists (A1 ++ A2), (D1 ++ D2).
  split; [rewrite Ha2, Ha1, app_assoc; reflexivity|].
  split; [rewrite Hd2, Hd1, app_assoc; reflexivity|].
  split.
  - rewrite keptRows_app, <- Hp1, <- Hp2.
    set (K1 := keptRows mustProcess slots1). set (K2 := keptRows mustProcess slots2).
    rewrite <- !app_assoc. apply Permutation_app_head.
    rewrite (Permutation_app_swap_app A2 D1). apply Permutation_app_head.
    rewrite (Permutation_app_swap_app D2 K1 K2).
    apply Permutation_app_swap_app.
  - intros Hm. rewrite (Hn1 Hm), (Hn2 Hm). reflexivity.
Qed.

Lemma counted_app mustProcess slots1 slots2 np1 np2 np3 :
  counted mustProcess slots1 np1 np2 -> counted mustProcess slots2 np2 np3 ->
  counted mustProcess (slots1 ++ slots2) np1 np3.
Proof.
  unfold counted. intros -> ->.
  rewrite keptRows_app, length_app, Nat.add_comm. symmetry. apply Nat.iter_add.
Qed.

Lemma handleFailure_disposal d q h kv e mustProcess stats q' stats' :
  dlqClient q = auditedDLQ d ->
  (mustProcess = false -> hasKey kv = true) ->
  handleFailure IsInitialized q h kv e mustProcess stats = (q', (stats', None)) ->
  accounted mustProcess q q' [kv] [kv] /\
  counted mustProcess [kv] (notProcessed stats) (notProcessed stats').
Proof.
  intros Hd Hkey. unfold handleFailure, shouldRetryLater.
  destruct mustProcess; cbn [orb negb].
  - unfold dlq, log_Infof. cbn [logAllDLQs].
    destruct (IsInitialized (GetLastRow h (world q))); cbn; rewrite Hd; cbn;
      destruct (Log d _ _ _ _ _) as [w [e'|]]; intros [= <- <-];
      (split; [|reflexivity]); exists [], [kv]; cbn;
      repeat split; try rewrite app_nil_r; try reflexivity; discriminate.
  - intros [= <- <-]. specialize (Hkey eq_refl).
    assert (HK : keptRows false [kv] = [kv]).
    { unfold keptRows, leftInPlace.
      rewrite filter_cons_True by exact Hkey. reflexivity. }
    split.
    + exists [], []. rewrite HK, !app_nil_r. repeat split; reflexivity.
    + unfold counted. rewrite HK. reflexivity.
Qed.

Lemma retryRows_disposal d h mustProcess todo :
  forall q before stats q' out stats',
  dlqClient q = auditedDLQ d ->
  (mustProcess = false -> Forall (fun kv => hasKey kv = true) todo) ->
  retryRows IsInitialized q (audited h) mustProcess before todo stats
    = (q', out, (stats', None)) ->
  exists slots,
    out = before ++ slots /\
    accounted mustProcess q q' todo slots /\
    counted mustProcess slots (notProcessed stats) (notProcessed stats').
Proof.
  induction todo as [|kv todo IH]; intros q before stats q' out stats' Hd Hkey.
  - intros [= <- <- <-]. exists []. rewrite app_nil_r.
    split; [reflexivity|]. split; [apply accounted_nil|apply counted_nil].
  - cbn [retryRows]. cbn [HandleBatch audited].
    destruct (HandleBatch h (fst (world q)) [kv]) as [w [singleStats [e|]]].
    + set (q1 := setWorld q (w, snd (world q))).
      assert (Hd1 : dlqClient q1 = auditedDLQ d) by exact Hd.
      pose proof (handleFailure_frame IsInitialized q1 (audited h) kv e
                    mustProcess stats) as Hf.
      destruct (handleFailure IsInitialized q1 (audited h) kv e mustProcess stats)
        as [q2 [stats2 [e'|]]] eqn:HF; [discriminate|].
      cbn [fst] in Hf.
      apply (handleFailure_disposal d) in HF as [Ha Hc]; [|exact Hd1|].
      2:{ intros Hm. specialize (Hkey Hm). apply Forall_cons in Hkey. apply Hkey. }
      intros Hrec. apply IH in Hrec as (slots & -> & Ha2 & Hc2).
      * exists (kv :: slots). rewrite <- app_assoc.
        split; [reflexivity|]. split.
        -- apply (accounted_app mustProcess q q2 q' [kv] [kv] todo slots);
             [exact Ha|exact Ha2].
        -- apply (counted_app mustProcess [kv] slots _ _ _ Hc Hc2).
      * destruct Hf as (_ & _ & _ & Hf & _). rewrite Hf. exact Hd1.
      * intros Hm. specialize (Hkey Hm). apply Forall_cons in Hkey. apply Hkey.
    + set (q1 := setWorld q
                   (w, mkLedger (appliedRows (snd (world q)) ++ [kv])
                         (deadLetteredRows (snd (world q))))).
      intros Hrec. apply IH in Hrec as (slots & -> & Ha2 & Hc2).
      * exists (zeroKV :: slots). rewrite <- app_assoc.
        split; [reflexivity|]. split.
        -- apply (accounted_app mustProcess q q1 q' [kv] [zeroKV] todo slots);
             [|exact Ha2].
           exists [kv], []. change [zeroKV] with (replicate 1 zeroKV).
           rewrite keptRows_zero, !app_nil_r. repeat split; reflexivity.
        -- apply (counted_app mustProcess [zeroKV] slots (notProcessed stats)
                    (notProcessed stats) (notProcessed stats')); [|exact Hc2].
           unfold counted. change [zeroKV] with (replicate 1 zeroKV).
           rewrite keptRows_zero. reflexivity.
      * exact Hd.
      * intros Hm. specialize (Hkey Hm). apply Forall_cons in Hkey. apply Hkey.
Qed.

Lemma flushBatch_disposal d q h mustProcess batch stats q' slots stats' :
  dlqClient q = auditedDLQ d ->
  (mustProcess = false -> Forall (fun kv => hasKey kv = true) batch) ->
  flushBatch IsInitialized q (audited h) mustProcess batch stats
    = (q', slots, (stats', None)) ->
  accounted mustProcess q q' batch slots /\
  counted mustProcess slots (notProcessed stats) (notProcessed stats').
Proof.
  intros Hd Hkey. unfold flushBatch. cbn [HandleBatch audited].
  destruct (HandleBatch h (fst (world q)) batch) as [w [s [e|]]].
  - set (q1 := setWorld q (w, snd (world q))).
    assert (Hd1 : dlqClient q1 = auditedDLQ d) by exact Hd.
    destruct batch as [|kv [|kv' batch]].
    + intros [= <- <- <-]. split; [apply (accounted_nil mustProcess q)|apply counted_nil].
    + destruct (handleFailure IsInitialized q1 (audited h) kv e mustProcess stats)
        as [q2 [stats2 e2]] eqn:HF.
      intros [= <- <- <- ->].
      apply (handleFailure_disposal d) in HF; [exact HF|exact Hd1|].
      intros Hm. specialize (Hkey Hm). apply Forall_cons in Hkey. apply Hkey.
    + intros Hrec.
      apply (retryRows_disposal d) in Hrec as (slots' & Hs & Ha & Hc);
        [|exact Hd1|exact Hkey].
      simpl in Hs. subst slots'. split; [exact Ha|exact Hc].
  - intros [= <- <- <-]. split.
    + exists batch, []. rewrite keptRows_zero, !app_nil_r.
      repeat split; reflexivity.
    + unfold counted. rewrite keptRows_zero. reflexivity.
Qed.

Lemma flushChunkLoop_disposal d n h mustProcess batchSize :
  forall q before chunk stats q' out stats',
  dlqClient q = auditedDLQ d ->
  (mustProcess = false -> Forall (fun kv => hasKey kv = true) chunk) ->
  flushChunkLoop IsInitialized wallClock n q (audited h) mustProcess batchSize
    before chunk stats = Some (q', out, (stats', None)) ->
  exists slots,
    out = before ++ slots /\
    accounted mustProcess q q' chunk slots /\
    counted mustProcess slots (notProcessed stats) (notProcessed stats').
Proof.
  induction n as [|n IH]; intros q before chunk stats q' out stats' Hd Hkey;
    destruct chunk as [|kv chunk]; cbn [flushChunkLoop]; try discriminate;
    try (intros [= <- <- <-]; exists []; rewrite app_nil_r;
         split; [reflexivity|]; split; [apply accounted_nil|apply counted_nil]).
  set (m := Nat.min batchSize (length (kv :: chunk))).
  cbn [Now fst snd].
  set (q0 := setTick q (S (tick q))).
  assert (Hlen : length (take m (kv :: chunk)) = m)
    by (rewrite length_take; unfold m; lia).
  pose proof (flushBatch_frame IsInitialized q0 (audited h) mustProcess
                (take m (kv :: chunk)) stats) as Hf.
  destruct (flushBatch IsInitialized q0 (audited h) mustProcess
              (take m (kv :: chunk)) stats)
    as [[q1 batch'] [stats1 [e|]]] eqn:HB; cbn [fst snd] in *; [discriminate|].
  apply (flushBatch_disposal d) in HB as [Ha Hc]; [|exact Hd|].
  2:{ intros Hm. apply Forall_take, Hkey, Hm. }
  intros Hrec. apply IH in Hrec as (slots & -> & Ha2 & Hc2).
  - exists (batch' ++ slots). rewrite <- app_assoc. split; [reflexivity|].
    rewrite <- (take_drop m (kv :: chunk)) at 1. rewrite Hlen in Ha2. split.
    + exact (accounted_app mustProcess q _ q' _ _ _ _ Ha Ha2).
    + exact (counted_app mustProcess _ _ _ _ _ Hc Hc2).
  - destruct Hf as (_ & _ & _ & Hf & _).
    transitivity (dlqClient q1); [reflexivity|]. rewrite Hf. exact Hd.
  - intros Hm. apply Forall_drop, Hkey, Hm.
Qed.

(** [n] increments of an [int64] that starts at 0. *)
Lemma iter_add64 n :
  Nat.iter n (fun z => add64 z 1) 0 = wrap64 (Z.of_nat n).
Proof.
  induction n as [|n IH]; [reflexivity|].
  rewrite Nat.iter_succ, IH. unfold add64, wrap64.
  rewrite Nat2Z.inj_succ. f_equal.
  replace ((Z.of_nat n + 2 ^ 63) mod 2 ^ 64 - 2 ^ 63 + 1 + 2 ^ 63)
    with ((Z.of_nat n + 2 ^ 63) mod 2 ^ 64 + 1) by lia.
  rewrite Zplus_mod_idemp_l. f_equal. lia.
Qed.

(** X9.  A chunk flushed with [mustProcess = true]: when [flushChunk]
    returns no error, every row of the chunk was either applied by the
    handler or logged to the dead-letter queue, once, and no row was left
    unprocessed ([notProcessed] is 0). *)
Theorem flushChunk_must_process_disposes_of_every_row
    (q : @Processor Row (World * Ledger) Frontier) d h chunk q' chunk' stats :
  dlqClient q = auditedDLQ d ->
  flushChunk IsInitialized wallClock q (audited h) chunk true
    = Some (q', chunk', (stats, None)) ->
  exists A D,
    appliedRows (ledger q') = appliedRows (ledger q) ++ A /\
    deadLetteredRows (ledger q') = deadLetteredRows (ledger q) ++ D /\
    A ++ D ≡ₚ chunk /\
    notProcessed stats = 0.
Proof.
  intros Hd H. unfold flushChunk in H.
  apply (flushChunkLoop_disposal d) in H as (slots & _ & Ha & Hc);
    [|exact Hd|discriminate].
  destruct Ha as (A & D & HA & HD & Hperm & _).
  exists A, D. cbn in Hperm. rewrite app_nil_r in Hperm.
  repeat split; assumption.
Qed.

(** X10.  A chunk of rows with non-empty keys flushed with
    [mustProcess = false]: [flushChunk] returns no error and logs nothing
    to the dead-letter queue; every row was either applied, once, or is
    still in its slot, and [notProcessed] is the number of rows still in
    their slots (as an [int64]). *)
Theorem flushChunk_retry_later_keeps_failed_rows
    (q : @Processor Row (World * Ledger) Frontier) d h chunk q' chunk' stats err :
  dlqClient q = auditedDLQ d ->
  Forall (fun kv => hasKey kv = true) chunk ->
  flushChunk IsInitialized wallClock q (audited h) chunk false
    = Some (q', chunk', (stats, err)) ->
  err = None /\
  deadLetteredRows (ledger q') = deadLetteredRows (ledger q) /\
  (exists A,
     appliedRows (ledger q') = appliedRows (ledger q) ++ A /\
     A ++ leftInPlace chunk' ≡ₚ chunk) /\
  notProcessed stats = wrap64 (Z.of_nat (length (leftInPlace chunk'))).
Proof.
  intros Hd Hkey H. unfold flushChunk in H.
  pose proof (flushChunkLoop_retry_later IsInitialized wallClock
                _ _ _ _ _ _ _ _ _ _ _ H) as ->.
  split; [reflexivity|].
  apply (flushChunkLoop_disposal d) in H as (slots & -> & Ha & Hc);
    [|exact Hd|intros _; exact Hkey].
  destruct Ha as (A & D & HA & HD & Hperm & HDnil).
  rewrite (HDnil eq_refl) in HD, Hperm. rewrite app_nil_r in HD.
  split; [exact HD|]. split.
  - exists A. split; [exact HA|exact Hperm].
  - unfold counted in Hc. cbn in Hc. rewrite Hc. apply iter_add64.
Qed.

(** The workers of a flush, one chunk after the other. *)
Lemma runWorkers_disposal d mustProcess jobs :
  forall (q : @Processor Row (World * Ledger) Frontier) fbs np q' chunks counters,
  dlqClient q = auditedDLQ d ->
  Forall (fun job => exists h, fst job = audited h) jobs ->
  (mustProcess = false ->
   Forall (fun kv => hasKey kv = true) (concat (map snd jobs))) ->
  runWorkers IsInitialized wallClock q mustProcess jobs fbs np
    = Some (q', chunks, counters, None) ->
  accounted mustProcess q q' (concat (map snd jobs)) (concat chunks).
Proof.
  induction jobs as [|[h0 chunk] jobs IH];
    intros q fbs np q' chunks counters Hd Hjobs Hkey.
  - intros [= <- <- <-]. apply accounted_nil.
  - apply Forall_cons in Hjobs as [[h Hh] Hjobs]. cbn [fst] in Hh. subst h0.
    cbn [runWorkers].
    destruct (flushChunk IsInitialized wallClock q (audited h) chunk mustProcess)
      as [[[q1 chunk'] [s e]]|] eqn:Hc; [|discriminate].
    pose proof (flushChunk_frame _ _ _ _ _ _ _ _ _ Hc) as Hf.
    destruct e as [e|].
    { destruct (runWorkers _ _ _ _ jobs fbs np)
        as [[[[q2 chunks'] counters'] err']|]; discriminate. }
    unfold flushChunk in Hc.
    apply (flushChunkLoop_disposal d) in Hc as (slots & Hs & Ha & _); [|exact Hd|].
    2:{ intros Hm. specialize (Hkey Hm). cbn in Hkey.
        apply Forall_app in Hkey. apply Hkey. }
    cbn in Hs. subst slots.
    destruct (runWorkers _ _ _ _ jobs _ _)
      as [[[[q2 chunks'] counters'] err']|] eqn:Hr; [|discriminate].
    intros [= <- <- <- ->].
    apply IH in Hr.
    + cbn [map snd concat]. exact (accounted_app mustProcess q _ q2 _ _ _ _ Ha Hr).
    + destruct Hf as (_ & _ & _ & Hf & _).
      transitivity (dlqClient q1); [reflexivity|]. rewrite Hf. exact Hd.
    + exact Hjobs.
    + intros Hm. specialize (Hkey Hm). cbn in Hkey.
      apply Forall_app in Hkey. apply Hkey.
Qed.

(** The handlers a flush starts are handlers of the pool. *)
Lemma flushJobs_audited (q : @Processor Row (World * Ledger) Frontier) hs kvs :
  bh q = map audited hs ->
  Forall (fun job => exists h, fst job = audited h)
    (flushJobs EnsureSafeSplitKey q kvs).
Proof.
  intros Hbh. apply Forall_forall. intros [h0 c] Hin.
  assert (Hh0 : h0 ∈ map fst (flushJobs EnsureSafeSplitKey q kvs))
    by (apply list_elem_of_fmap; exists (h0, c); split; [reflexivity|exact Hin]).
  unfold flushJobs in Hh0. rewrite cutChunks_workers in Hh0.
  apply elem_of_take in Hh0 as (i & Hi & _).
  rewrite Hbh, list_lookup_fmap in Hi.
  destruct (hs !! i) as [h|]; [|discriminate].
  injection Hi as <-. exists h. reflexivity.
Qed.

(** What [flushBuffer] does between its entry and its return, as the
    ledger sees it. *)
Lemma flushBuffer_disposal ctx (q : @Processor Row (World * Ledger) Frontier)
    d hs kvs mustProcess q' buf unapplied :
  bh q = map audited hs -> length hs = maxWriterWorkers ->
  dlqClient q = auditedDLQ d ->
  (mustProcess = false -> Forall (fun kv => hasKey kv = true) kvs) ->
  flushBuffer IsInitialized EnsureSafeSplitKey wallClock ctx q kvs mustProcess
    = Some (q', buf, (unapplied, None)) ->
  exists slots,
    buf = slots /\ accounted mustProcess q q' (slices_SortFunc EnsureSafeSplitKey kvs) slots.
Proof.
  intros Hbh Hlen Hd Hkey H. destruct kvs as [|kv0 kvs].
  { injection H as <- <- <-. exists []. split; [reflexivity|apply accounted_nil]. }
  assert (Hbh32 : length (bh q) = maxWriterWorkers)
    by (rewrite Hbh, length_map; exact Hlen).
  rewrite flushBuffer_unfold in H. cbv zeta in H.
  rewrite (cutChunks_all EnsureSafeSplitKey (bh q)
             (slices_SortFunc EnsureSafeSplitKey (kv0 :: kvs)) Hbh32) in H.
  pose proof (flushJobs_concat EnsureSafeSplitKey q (kv0 :: kvs) Hbh32) as Hcat.
  pose proof (flushJobs_audited q hs (kv0 :: kvs) Hbh) as Hjobs.
  set (total := Z.of_nat (length (slices_SortFunc EnsureSafeSplitKey (kv0 :: kvs)))) in H.
  clearbody total. rewrite <- Hcat.
  assert (Hkeys : mustProcess = false ->
            Forall (fun kv => hasKey kv = true)
              (concat (map snd (flushJobs EnsureSafeSplitKey q (kv0 :: kvs))))).
  { intros Hm. rewrite Hcat. apply Forall_forall. intros x Hx.
    apply (elem_of_Permutation_proper _ _ _
             (SortFunc_Permutation EnsureSafeSplitKey (kv0 :: kvs))) in Hx.
    specialize (Hkey Hm). rewrite Forall_forall in Hkey. exact (Hkey x Hx). }
  set (jobs := flushJobs EnsureSafeSplitKey q (kv0 :: kvs)) in *. clearbody jobs.
  cbn [Now fst snd] in H.
  destruct (runWorkers _ _ _ mustProcess jobs 0 0)
    as [[[[q1 chunks] [fbs np]] [e|]]|] eqn:Hrun; try discriminate.
  apply (runWorkers_disposal d) in Hrun; [|exact Hd|exact Hjobs|exact Hkeys].
  assert (Hrest : elems (fst (if 0 <? np
                              then filterRemaining (Some [])
                              else (Some [], @None (list StreamEvent_KV)))) = [])
    by (destruct (0 <? np); reflexivity).
  destruct (if 0 <? np then filterRemaining (Some []) else _)
    as [rest' unapplied'].
  cbn [fst] in Hrest. cbn in H. injection H as <- <- <-.
  rewrite Hrest, app_nil_r. exists (concat chunks). split; [reflexivity|].
  exact Hrun.
Qed.

(** X11.  A buffer flushed with [mustProcess = true] by the pool of
    [maxWriterWorkers] handlers: when [flushBuffer] returns no error,
    every row of the buffer was either applied by a handler or logged to
    the dead-letter queue, once; no row was skipped and none was handled
    twice. *)
Theorem flushBuffer_must_process_disposes_of_every_row ctx
    (q : @Processor Row (World * Ledger) Frontier) d hs kvs q' buf unapplied :
  bh q = map audited hs -> length hs = maxWriterWorkers ->
  dlqClient q = auditedDLQ d ->
  flushBuffer IsInitialized EnsureSafeSplitKey wallClock ctx q kvs true
    = Some (q', buf, (unapplied, None)) ->
  exists A D,
    appliedRows (ledger q') = appliedRows (ledger q) ++ A /\
    deadLetteredRows (ledger q') = deadLetteredRows (ledger q) ++ D /\
    A ++ D ≡ₚ kvs.
Proof.
  intros Hbh Hlen Hd H.
  apply (flushBuffer_disposal ctx q d hs) in H as (slots & _ & Ha);
    [|exact Hbh|exact Hlen|exact Hd|discriminate].
  destruct Ha as (A & D & HA & HD & Hperm & _).
  exists A, D. cbn in Hperm. rewrite app_nil_r in Hperm.
  split; [exact HA|]. split; [exact HD|].
  rewrite Hperm. apply SortFunc_Permutation.
Qed.

(** X12.  A buffer of rows with non-empty keys flushed with
    [mustProcess = false] by the pool of [maxWriterWorkers] handlers: when
    [flushBuffer] returns no error, nothing was logged to the dead-letter
    queue, and every row of the buffer was either applied, once, or is
    still in a slot of the caller's buffer; the rows that were not applied
    are exactly the slots of the buffer with a non-empty key. *)
Theorem flushBuffer_retry_later_keeps_every_row ctx
    (q : @Processor Row (World * Ledger) Frontier) d hs kvs q' buf unapplied :
  bh q = map audited hs -> length hs = maxWriterWorkers ->
  dlqClient q = auditedDLQ d ->
  Forall (fun kv => hasKey kv = true) kvs ->
  flushBuffer IsInitialized EnsureSafeSplitKey wallClock ctx q kvs false
    = Some (q', buf, (unapplied, None)) ->
  deadLetteredRows (ledger q') = deadLetteredRows (ledger q) /\
  exists A,
    appliedRows (ledger q') = appliedRows (ledger q) ++ A /\
    A ++ leftInPlace buf ≡ₚ kvs.
Proof.
  intros Hbh Hlen Hd Hkey H.
  apply (flushBuffer_disposal ctx q d hs) in H as (slots & -> & Ha);
    [|exact Hbh|exact Hlen|exact Hd|intros _; exact Hkey].
  destruct Ha as (A & D & HA & HD & Hperm & HDnil).
  rewrite (HDnil eq_refl) in HD, Hperm. rewrite app_nil_r in HD.
  split; [exact HD|]. exists A. split; [exact HA|].
  cbn in Hperm. rewrite Hperm. apply SortFunc_Permutation.
Qed.

End Disposal.

(** * What the statistics of a flush count

    Here the handlers and the dead-letter queue client are wrapped so that
    they keep a trace of the calls made to them, each with what it
    returned. *)

Lemma wrap64_add_l a b : wrap64 (wrap64 a + b) = wrap64 (a + b).
Proof.
  unfold wrap64. f_equal.
  replace ((a + 2 ^ 63) mod 2 ^ 64 - 2 ^ 63 + b + 2 ^ 63)
    with ((a + 2 ^ 63) mod 2 ^ 64 + b) by lia.
  rewrite Zplus_mod_idemp_l. f_equal. lia.
Qed.

Lemma wrap64_add_r a b : wrap64 (a + wrap64 b) = wrap64 (a + b).
Proof. rewrite (Z.add_comm a), wrap64_add_l. f_equal. lia. Qed.

Lemma wrap64_acc a s x y :
  wrap64 s = wrap64 x -> wrap64 (wrap64 (a + s) + y) = wrap64 (a + (x + y)).
Proof.
  intros H. rewrite wrap64_add_l.
  replace (a + s + y) with (s + (a + y)) by lia.
  rewrite <- wrap64_add_l, H, wrap64_add_l. f_equal. lia.
Qed.

Lemma wrap64_idem a : wrap64 (wrap64 a) = wrap64 a.
Proof.
  pose proof (wrap64_add_l a 0) as H. rewrite !Z.add_0_r in H. exact H.
Qed.

Section Accounting.

Context {Row World Frontier : Type}.
Variable IsInitialized : Row -> bool.
Variable EnsureSafeSplitKey : Key -> option Key.
Variable wallClock : nat -> Time.

(** A call to a handler or to the dead-letter queue client, with its
    result. *)
Inductive Call : Type :=
  | Applied (batch : list StreamEvent_KV) (s : batchStats)
      (* HandleBatch(batch) returned s and no error *)
  | Refused (batch : list StreamEvent_KV) (err : Error)
      (* HandleBatch(batch) returned err *)
  | DeadLettered (kv : StreamEvent_KV) (applyErr : Error)
      (* Log(kv, applyErr) returned no error *)
  | NotLogged (kv : StreamEvent_KV) (applyErr err : Error).
      (* Log(kv, applyErr) returned err *)

Definition traced (h : @BatchHandler Row World)
  : @BatchHandler Row (World * list Call) :=
  mkBatchHandler
    (fun wt batch =>
       let '(w, (s, err)) := HandleBatch h (fst wt) batch in
       ((w, snd wt ++ [match err with
                       | None => Applied batch s
                       | Some e => Refused batch e
                       end]),
        (s, err)))
    (fun wt => GetLastRow h (fst wt)).

Definition tracedDLQ (d : @DeadLetterQueueClient Row World)
  : @DeadLetterQueueClient Row (World * list Call) :=
  mkDLQ (fun wt job kv row applyErr =>
           let '(w, e) := Log d (fst wt) job kv row applyErr in
           ((w, snd wt ++ [match e with
                           | None => DeadLettered kv applyErr
                           | Some e' => NotLogged kv applyErr e'
                           end]),
            e)).

Definition trace (q : @Processor Row (World * list Call) Frontier) : list Call :=
  snd (world q).

(** The statistics the handlers returned for the batches they applied. *)
Definition appliedStats (T : list Call) : list batchStats :=
  omap (fun c => match c with Applied _ s => Some s | _ => None end) T.

(** The rows logged to the dead-letter queue, each with the error it was
    logged with. *)
Definition deadLetterCalls (T : list Call) : list (StreamEvent_KV * Error) :=
  omap (fun c => match c with DeadLettered kv e => Some (kv, e) | _ => None end) T.

(** The rows that a handler refused when given the row alone, each with
    the error of that attempt. *)
Definition rowFailures (T : list Call) : list (StreamEvent_KV * Error) :=
  omap (fun c => match c with Refused [kv] e => Some (kv, e) | _ => None end) T.

Definition totalBytes (l : list batchStats) : Z :=
  foldr (fun s acc => byteSize s + acc) 0 l.

Definition totalConflicts (l : list batchStats) : Z :=
  foldr (fun s acc => optimisticInsertConflicts s + acc) 0 l.

Lemma totalBytes_app l1 l2 : totalBytes (l1 ++ l2) = totalBytes l1 + totalBytes l2.
Proof. induction l1 as [|s l1 IH]; simpl; [reflexivity|]. rewrite IH. lia. Qed.

Lemma totalConflicts_app l1 l2 :
  totalConflicts (l1 ++ l2) = totalConflicts l1 + totalConflicts l2.
Proof. induction l1 as [|s l1 IH]; simpl; [reflexivity|]. rewrite IH. lia. Qed.

(** An [int64] value. *)
Definition inRange64 (z : Z) : Prop := wrap64 z = z.

(** Two integers that are the same [int64]. *)
Definition same64 (a b : Z) : Prop := wrap64 a = wrap64 b.

Lemma same64_step a b c d : same64 a (b + c) -> same64 d (a + 0) -> same64 d (b + c).
Proof. unfold same64. rewrite Z.add_0_r. congruence. Qed.

Lemma same64_add a b x : same64 a b -> same64 (add64 a x) (b + x).
Proof.
  unfold same64, add64. intros H.
  rewrite wrap64_idem, <- (wrap64_add_l a), H, wrap64_add_l. reflexivity.
Qed.

Lemma same64_more a b x y : same64 a (b + x) -> same64 (a + y) (b + (x + y)).
Proof.
  unfold same64. intros H.
  rewrite <- (wrap64_add_l a), H, wrap64_add_l. f_equal. lia.
Qed.

(** What the calls [T] made between [stats] and [stats'] account for. *)
Definition tallied (mustProcess : bool) (T : list Call)
    (stats stats' : batchStats) : Prop :=
  same64 (byteSize stats') (byteSize stats + totalBytes (appliedStats T)) /\
  same64 (optimisticInsertConflicts stats')
    (optimisticInsertConflicts stats + totalConflicts (appliedStats T)) /\
  (inRange64 (byteSize stats) -> inRange64 (byteSize stats')) /\
  (inRange64 (optimisticInsertConflicts stats) ->
   inRange64 (optimisticInsertConflicts stats')) /\
  deadLetterCalls T = (if mustProcess then rowFailures T else []).

Lemma tallied_nil mustProcess stats : tallied mustProcess [] stats stats.
Proof.
  unfold tallied, same64. cbn. rewrite !Z.add_0_r.
  destruct mustProcess; repeat split; auto.
Qed.

Lemma tallied_app mustProcess T1 T2 s0 s1 s2 :
  tallied mustProcess T1 s0 s1 -> tallied mustProcess T2 s1 s2 ->
  tallied mustProcess (T1 ++ T2) s0 s2.
Proof.
  intros (B1 & C1 & RB1 & RC1 & D1) (B2 & C2 & RB2 & RC2 & D2).
  unfold tallied, appliedStats, deadLetterCalls, rowFailures in *.
  rewrite !omap_app, totalBytes_app, totalConflicts_app.
  split; [|split; [|split; [|split]]].
  - unfold same64 in *. rewrite B2, <- (wrap64_add_l (byteSize s1)), B1, wrap64_add_l.
    f_equal. lia.
  - unfold same64 in *.
    rewrite C2, <- (wrap64_add_l (optimisticInsertConflicts s1)), C1, wrap64_add_l.
    f_equal. lia.
  - auto.
  - auto.
  - rewrite D1, D2. destruct mustProcess; reflexivity.
Qed.

(** A batch that was applied counts for what the handler returned. *)
Lemma tallied_applied mustProcess batch s stats :
  tallied mustProcess [Applied batch s] stats (batchStats_Add stats s).
Proof.
  unfold tallied, same64, inRange64. cbn. unfold add64.
  rewrite !wrap64_idem, !Z.add_0_r.
  destruct mustProcess; repeat split; intros; apply wrap64_idem.
Qed.

Lemma handleFailure_trace d q h kv e mustProcess stats q' stats' :
  dlqClient q = tracedDLQ d ->
  handleFailure IsInitialized q h kv e mustProcess stats = (q', (stats', None)) ->
  trace q' = trace q ++ (if mustProcess then [DeadLettered kv e] else []) /\
  byteSize stats' = byteSize stats /\
  optimisticInsertConflicts stats' = optimisticInsertConflicts stats.
Proof.
  intros Hd. unfold handleFailure, shouldRetryLater.
  destruct mustProcess; cbn [orb negb].
  - unfold dlq, log_Infof. cbn [logAllDLQs].
    destruct (IsInitialized (GetLastRow h (world q))); cbn; rewrite Hd; cbn;
      destruct (Log d _ _ _ _ _) as [w [e'|]]; intros [= <- <-];
      repeat split.
  - intros [= <- <-]. rewrite app_nil_r. repeat split.
Qed.

(** A row that was refused on its own, then handled as [flushChunk]
    handles a failed row. *)
Lemma tallied_refused mustProcess kv e stats stats' :
  byteSize stats' = byteSize stats ->
  optimisticInsertConflicts stats' = optimisticInsertConflicts stats ->
  tallied mustProcess
    (Refused [kv] e :: (if mustProcess then [DeadLettered kv e] else []))
    stats stats'.
Proof.
  intros Hb Hc. unfold tallied, same64, inRange64. rewrite Hb, Hc.
  destruct mustProcess; cbn; rewrite !Z.add_0_r; repeat split; auto.
Qed.

Lemma retryRows_tally d h mustProcess todo :
  forall q before stats q' out stats',
  dlqClient q = tracedDLQ d ->
  retryRows IsInitialized q (traced h) mustProcess before todo stats
    = (q', out, (stats', None)) ->
  exists T, trace q' = trace q ++ T /\ tallied mustProcess T stats stats'.
Proof.
  induction todo as [|kv todo IH]; intros q before stats q' out stats' Hd.
  - intros [= <- <- <-]. exists []. rewrite app_nil_r.
    split; [reflexivity|apply tallied_nil].
  - cbn [retryRows]. cbn [HandleBatch traced].
    destruct (HandleBatch h (fst (world q)) [kv]) as [w [singleStats [e|]]].
    + set (q1 := setWorld q (w, snd (world q) ++ [Refused [kv] e])).
      assert (Hd1 : dlqClient q1 = tracedDLQ d) by exact Hd.
      pose proof (handleFailure_frame IsInitialized q1 (traced h) kv e
                    mustProcess stats) as Hf.
      destruct (handleFailure IsInitialized q1 (traced h) kv e mustProcess stats)
        as [q2 [stats2 [e'|]]] eqn:HF; [discriminate|].
      cbn [fst] in Hf.
      apply (handleFailure_trace d) in HF as (Ht & Hb & Hc); [|exact Hd1].
      intros Hrec. apply IH in Hrec as (T & HT & Htal).
      * exists ((Refused [kv] e :: (if mustProcess then [DeadLettered kv e] else []))
                ++ T).
        split.
        -- rewrite HT, Ht. unfold trace, q1. cbn.
           rewrite <- !app_assoc. reflexivity.
        -- eapply tallied_app; [apply tallied_refused; eassumption|exact Htal].
      * destruct Hf as (_ & _ & _ & Hf & _). rewrite Hf. exact Hd1.
    + set (q1 := setWorld q (w, snd (world q) ++ [Applied [kv] singleStats])).
      intros Hrec. apply IH in Hrec as (T & HT & Htal); [|exact Hd].
      exists ([Applied [kv] singleStats] ++ T). split.
      * rewrite HT. unfold trace, q1. cbn. rewrite <- app_assoc. reflexivity.
      * eapply tallied_app; [apply tallied_applied|exact Htal].
Qed.

(** A batch of no row or of several rows that was refused counts for
    nothing by itself. *)
Lemma tallied_refused_batch mustProcess batch e stats :
  length batch <> 1%nat ->
  tallied mustProcess [Refused batch e] stats stats.
Proof.
  intros Hlen. unfold tallied, same64, inRange64.
  assert (Hrow : rowFailures [Refused batch e] = []).
  { destruct batch as [|kv [|kv' batch]]; [reflexivity|simpl in Hlen; lia|reflexivity]. }
  rewrite Hrow. cbn. rewrite !Z.add_0_r.
  destruct mustProcess; repeat split; auto.
Qed.

Lemma flushBatch_tally d q h mustProcess batch stats q' slots stats' :
  dlqClient q = tracedDLQ d ->
  flushBatch IsInitialized q (traced h) mustProcess batch stats
    = (q', slots, (stats', None)) ->
  exists T, trace q' = trace q ++ T /\ tallied mustProcess T stats stats'.
Proof.
  intros Hd. unfold flushBatch. cbn [HandleBatch traced].
  destruct (HandleBatch h (fst (world q)) batch) as [w [s [e|]]].
  - set (q1 := setWorld q (w, snd (world q) ++ [Refused batch e])).
    assert (Hd1 : dlqClient q1 = tracedDLQ d) by exact Hd.
    destruct batch as [|kv [|kv' batch]].
    + intros [= <- <- <-]. exists [Refused [] e].
      split; [reflexivity|]. apply tallied_refused_batch. discriminate.
    + destruct (handleFailure IsInitialized q1 (traced h) kv e mustProcess stats)
        as [q2 [stats2 e2]] eqn:HF.
      intros [= <- <- <- ->].
      apply (handleFailure_trace d) in HF as (Ht & Hb & Hc); [|exact Hd1].
      exists (Refused [kv] e :: (if mustProcess then [DeadLettered kv e] else [])).
      split.
      * rewrite Ht. unfold trace, q1. cbn. rewrite <- app_assoc. reflexivity.
      * apply tallied_refused; assumption.
    + intros Hrec.
      apply (retryRows_tally d) in Hrec as (T & HT & Htal); [|exact Hd1].
      exists ([Refused (kv :: kv' :: batch) e] ++ T). split.
      * rewrite HT. unfold trace, q1. cbn. rewrite <- app_assoc. reflexivity.
      * eapply tallied_app; [|exact Htal].
        apply tallied_refused_batch. discriminate.
  - intros [= <- <- <-]. exists [Applied batch s].
    split; [reflexivity|apply tallied_applied].
Qed.

Lemma flushChunkLoop_tally d n h mustProcess batchSize :
  forall q before chunk stats q' out stats',
  dlqClient q = tracedDLQ d ->
  flushChunkLoop IsInitialized wallClock n q (traced h) mustProcess batchSize
    before chunk stats = Some (q', out, (stats', None)) ->
  exists T, trace q' = trace q ++ T /\ tallied mustProcess T stats stats'.
Proof.
  induction n as [|n IH]; intros q before chunk stats q' out stats' Hd;
    destruct chunk as [|kv chunk]; cbn [flushChunkLoop]; try discriminate;
    try (intros [= <- <- <-]; exists []; rewrite app_nil_r;
         split; [reflexivity|apply tallied_nil]).
  set (m := Nat.min batchSize (length (kv :: chunk))).
  cbn [Now fst snd].
  set (q0 := setTick q (S (tick q))).
  pose proof (flushBatch_frame IsInitialized q0 (traced h) mustProcess
                (take m (kv :: chunk)) stats) as Hf.
  destruct (flushBatch IsInitialized q0 (traced h) mustProcess
              (take m (kv :: chunk)) stats)
    as [[q1 batch'] [stats1 [e|]]] eqn:HB; cbn [fst snd] in *; [discriminate|].
  apply (flushBatch_tally d) in HB as (T1 & HT1 & Htal1); [|exact Hd].
  intros Hrec. apply IH in Hrec as (T2 & HT2 & Htal2).
  - exists (T1 ++ T2). split.
    + rewrite HT2. transitivity (trace q1 ++ T2); [reflexivity|].
      rewrite HT1, <- app_assoc. reflexivity.
    + exact (tallied_app _ _ _ _ _ _ Htal1 Htal2).
  - destruct Hf as (_ & _ & _ & Hf & _).
    transitivity (dlqClient q1); [reflexivity|]. rewrite Hf. exact Hd.
Qed.

Lemma inRange64_zero : inRange64 0.
Proof. reflexivity. Qed.

(** X19.  Which rows reach the dead-letter queue, and with which error.
    When [flushChunk] returns no error: with [mustProcess = true] the rows
    logged to the dead-letter queue are, in order, exactly the rows that
    the handler refused when given the row alone, each logged with the
    error of that attempt; the error of a refused batch of several rows is
    logged nowhere, its rows being tried again one by one.  With
    [mustProcess = false] nothing is logged to the dead-letter queue.
    Either way the statistics [flushChunk] returns are the sums of the
    statistics the handler returned for the batches it applied, as
    [int64]. *)
Theorem flushChunk_dead_letters_row_errors
    (q : @Processor Row (World * list Call) Frontier) d h chunk mustProcess
    q' chunk' stats :
  dlqClient q = tracedDLQ d ->
  flushChunk IsInitialized wallClock q (traced h) chunk mustProcess
    = Some (q', chunk', (stats, None)) ->
  exists T,
    trace q' = trace q ++ T /\
    deadLetterCalls T = (if mustProcess then rowFailures T else []) /\
    byteSize stats = wrap64 (totalBytes (appliedStats T)) /\
    optimisticInsertConflicts stats = wrap64 (totalConflicts (appliedStats T)).
Proof.
  intros Hd H. unfold flushChunk in H.
  apply (flushChunkLoop_tally d) in H as (T & HT & HB & HC & RB & RC & HD);
    [|exact Hd].
  exists T. split; [exact HT|]. split; [exact HD|].
  unfold same64 in HB, HC. cbn in HB, HC.
  rewrite <- (RB inRange64_zero), <- (RC inRange64_zero).
  split; assumption.
Qed.

(** The workers of a flush, one chunk after the other. *)
Lemma runWorkers_tally d mustProcess jobs :
  forall (q : @Processor Row (World * list Call) Frontier) fbs np q' chunks fbs' np',
  dlqClient q = tracedDLQ d ->
  Forall (fun job => exists h, fst job = traced h) jobs ->
  runWorkers IsInitialized wallClock q mustProcess jobs fbs np
    = Some (q', chunks, (fbs', np'), None) ->
  exists T,
    trace q' = trace q ++ T /\
    same64 fbs' (fbs + totalBytes (appliedStats T)) /\
    (inRange64 fbs -> inRange64 fbs') /\
    same64 (OptimisticInsertConflictCount (metrics q'))
      (OptimisticInsertConflictCount (metrics q) + totalConflicts (appliedStats T)) /\
    (jobs <> [] \/ inRange64 (OptimisticInsertConflictCount (metrics q)) ->
     inRange64 (OptimisticInsertConflictCount (metrics q'))) /\
    deadLetterCalls T = (if mustProcess then rowFailures T else []).
Proof.
  induction jobs as [|[h0 chunk] jobs IH];
    intros q fbs np q' chunks fbs' np' Hd Hjobs.
  - intros [= <- <- <- <-]. exists []. rewrite app_nil_r. cbn.
    unfold same64. rewrite !Z.add_0_r.
    destruct mustProcess; repeat split; auto;
      intros [Hne|Hin]; solve [congruence|exact Hin].
  - apply Forall_cons in Hjobs as [[h Hh] Hjobs]. cbn [fst] in Hh. subst h0.
    cbn [runWorkers].
    destruct (flushChunk IsInitialized wallClock q (traced h) chunk mustProcess)
      as [[[q1 chunk'] [s e]]|] eqn:Hc; [|discriminate].
    pose proof (flushChunk_frame _ _ _ _ _ _ _ _ _ Hc) as Hf.
    pose proof (flushChunkLoop_conflictCount _ _ _ _ _ _ _ _ _ _ _ _ _ Hc) as Hcc.
    destruct e as [e|].
    { destruct (runWorkers _ _ _ _ jobs fbs np)
        as [[[[q2 chunks'] counters'] err']|]; discriminate. }
    unfold flushChunk in Hc.
    apply (flushChunkLoop_tally d) in Hc as (T1 & HT1 & HB & HC & RB & RC & HD);
      [|exact Hd].
    cbn in HB, HC. specialize (RB inRange64_zero). specialize (RC inRange64_zero).
    destruct (runWorkers _ _ _ _ jobs _ _)
      as [[[[q2 chunks'] [fbs2 np2]] err']|] eqn:Hr; [|discriminate].
    intros [= <- <- <- <- ->].
    apply IH in Hr as (T2 & HT2 & HB2 & RB2 & HC2 & RC2 & HD2).
    + exists (T1 ++ T2). unfold appliedStats, deadLetterCalls, rowFailures in *.
      rewrite !omap_app, totalBytes_app, totalConflicts_app.
      split; [|split; [|split; [|split; [|split]]]].
      * rewrite HT2. transitivity (trace q1 ++ T2); [reflexivity|].
        rewrite HT1, <- app_assoc. reflexivity.
      * unfold same64 in *. rewrite HB2. unfold add64.
        apply wrap64_acc. exact HB.
      * intros _. apply RB2. unfold inRange64, add64. apply wrap64_idem.
      * unfold same64 in *. rewrite HC2.
        cbn [incOptimisticInsertConflictCount metrics setMetrics
             OptimisticInsertConflictCount].
        unfold add64. rewrite Hcc. apply wrap64_acc. exact HC.
      * intros _. apply RC2. right.
        cbn [incOptimisticInsertConflictCount metrics setMetrics
             OptimisticInsertConflictCount].
        unfold inRange64, add64. apply wrap64_idem.
      * rewrite HD, HD2. destruct mustProcess; reflexivity.
    + destruct Hf as (_ & _ & _ & Hf & _).
      transitivity (dlqClient q1); [reflexivity|]. rewrite Hf. exact Hd.
    + exact Hjobs.
Qed.

(** The handlers a flush starts are handlers of the pool. *)
Lemma flushJobs_traced (q : @Processor Row (World * list Call) Frontier) hs kvs :
  bh q = map traced hs ->
  Forall (fun job => exists h, fst job = traced h)
    (flushJobs EnsureSafeSplitKey q kvs).
Proof.
  intros Hbh. apply Forall_forall. intros [h0 c] Hin.
  assert (Hh0 : h0 ∈ map fst (flushJobs EnsureSafeSplitKey q kvs))
    by (apply list_elem_of_fmap; exists (h0, c); split; [reflexivity|exact Hin]).
  unfold flushJobs in Hh0. rewrite cutChunks_workers in Hh0.
  apply elem_of_take in Hh0 as (i & Hi & _).
  rewrite Hbh, list_lookup_fmap in Hi.
  destruct (hs !! i) as [h|]; [|discriminate].
  injection Hi as <-. exists h. reflexivity.
Qed.

(** X20.  What a successful flush adds to the metrics.  A non-empty buffer
    flushed by the pool of [maxWriterWorkers] handlers, [flushBuffer]
    returning no error: [AppliedLogicalBytes] grows by the sum of the byte
    sizes the handlers returned for the batches they applied (refused
    batches and dead-lettered rows add nothing), the same sum is the value
    recorded in [StreamBatchBytesHist], and
    [OptimisticInsertConflictCount] grows by the sum of the conflict counts
    of the applied batches; all sums as [int64], wrapping around.  The rows
    logged to the dead-letter queue during the flush are the rows refused
    on their own, with the errors of those attempts, and there are none
    with [mustProcess = false]. *)
Theorem flushBuffer_metrics_sum_applied_batches ctx
    (q : @Processor Row (World * list Call) Frontier) d hs kvs mustProcess
    q' buf unapplied :
  bh q = map traced hs -> length hs = maxWriterWorkers ->
  dlqClient q = tracedDLQ d ->
  kvs <> [] ->
  flushBuffer IsInitialized EnsureSafeSplitKey wallClock ctx q kvs mustProcess
    = Some (q', buf, (unapplied, None)) ->
  exists T,
    trace q' = trace q ++ T /\
    AppliedLogicalBytes (metrics q') =
      wrap64 (AppliedLogicalBytes (metrics q) + totalBytes (appliedStats T)) /\
    StreamBatchBytesHist (metrics q') =
      StreamBatchBytesHist (metrics q) ++ [wrap64 (totalBytes (appliedStats T))] /\
    OptimisticInsertConflictCount (metrics q') =
      wrap64 (OptimisticInsertConflictCount (metrics q) +
              totalConflicts (appliedStats T)) /\
    deadLetterCalls T = (if mustProcess then rowFailures T else []).
Proof.
  intros Hbh Hlen Hd Hne H. destruct kvs as [|kv0 kvs]; [congruence|].
  assert (Hbh32 : length (bh q) = maxWriterWorkers)
    by (rewrite Hbh, length_map; exact Hlen).
  rewrite flushBuffer_unfold in H. cbv zeta in H.
  pose proof (flushJobs_concat EnsureSafeSplitKey q (kv0 :: kvs) Hbh32) as Hcat.
  pose proof (flushJobs_traced q hs (kv0 :: kvs) Hbh) as Hjobs.
  assert (Hjne : flushJobs EnsureSafeSplitKey q (kv0 :: kvs) <> []).
  { intros Hnil.
    pose proof (SortFunc_length EnsureSafeSplitKey (kv0 :: kvs)) as Hl.
    rewrite <- Hcat, Hnil in Hl. discriminate. }
  set (total := Z.of_nat (length (slices_SortFunc EnsureSafeSplitKey (kv0 :: kvs)))) in H.
  clearbody total.
  set (jobs := flushJobs EnsureSafeSplitKey q (kv0 :: kvs)) in *.
  set (rest := snd (cutChunks _ _ _ _)) in H. clearbody jobs rest.
  cbn [Now fst snd] in H.
  destruct (runWorkers _ _ _ mustProcess jobs 0 0)
    as [[[[q1 chunks] [fbs np]] [e|]]|] eqn:Hrun; try discriminate.
  pose proof (runWorkers_flushMetrics _ _ _ _ _ _ _ _ _ _ _ Hrun) as Hm.
  apply (runWorkers_tally d) in Hrun as (T & HT & HB & RB & HC & RC & HD);
    [|exact Hd|exact Hjobs].
  specialize (RB inRange64_zero). specialize (RC (or_introl Hjne)).
  unfold same64, inRange64 in *. rewrite Z.add_0_l in HB. rewrite RB in HB.
  rewrite RC in HC.
  destruct (if 0 <? np then filterRemaining _ else _) as [rest' unapplied'].
  cbn in H. injection H as <- <- <-.
  injection Hm as _ _ Hbytes _ _ Hbytesh.
  exists T. cbn. rewrite Hbytes, Hbytesh, HB.
  split; [exact HT|]. split; [unfold add64; apply wrap64_add_r|].
  split; [reflexivity|]. split; [exact HC|exact HD].
Qed.

End Accounting.

(** * The transactional batch handler and the constructor *)

Section Construction.

Context {Row World Frontier Purgatory : Type}.

(** [isql.Txn]; [ProcessRow] is given [nil] outside a transaction. *)
Context {Txn : Type}.

(** [RowProcessor] *)
Record RowProcessor : Type := mkRowProcessor {
  ProcessRow :
    World -> option Txn -> KeyValue -> Value -> World * (batchStats * option Error);
  RowProcessor_GetLastRow : World -> Row
}.

(** [descs.DB].  [Txn] is given a closure and runs it in a transaction,
    as often as it sees fit.  The closure acts on the world and on the
    variables it captures, whose type [S] the database does not know. *)
Record DB : Type := mkDB {
  DB_Txn :
    forall S : Type,
      World -> S -> (Txn -> World -> S -> World * S * option Error) ->
      World * S * option Error
}.

(** [txnBatch]; its fields [settings] and [sd] are only passed on. *)
Record txnBatch : Type := mkTxnBatch { db : DB; rp : RowProcessor }.

(** [for _, kv := range batch] inside the closure given to [db.Txn]. *)
Fixpoint txnRows (r : RowProcessor) (txn : Txn) (batch : list StreamEvent_KV)
    (w : World) (txnStats : batchStats) : World * batchStats * option Error :=
  match batch with
  | [] => (w, txnStats, None)
  | kv :: rest =>
      let '(w, (rowStats, err)) :=
        ProcessRow r w (Some txn) (KeyValue_ kv) (PrevValue kv) in
      match err with
      | Some e => (w, txnStats, Some e)
      | None => txnRows r txn rest w (batchStats_Add txnStats rowStats)
      end
  end.

(** The closure given to [db.Txn]: it captures [txnStats] and starts by
    resetting it ([txnStats = batchStats{}]). *)
Definition txnClosure (r : RowProcessor) (batch : list StreamEvent_KV)
  : Txn -> World -> batchStats -> World * batchStats * option Error :=
  fun txn w _ => txnRows r txn batch w zeroStats.

(** [func (t *txnBatch) HandleBatch]; the tracing span is left out. *)
Definition txnBatch_HandleBatch (t : txnBatch) (w : World)
    (batch : list StreamEvent_KV) : World * (batchStats * option Error) :=
  match batch with
  | [kv] =>
      let '(w, (rowStats, err)) :=
        ProcessRow (rp t) w None (KeyValue_ kv) (PrevValue kv) in
      match err with
      | Some e => (w, (zeroStats, Some e))
      | None => (w, (batchStats_Add zeroStats rowStats, None))
      end
  | _ =>
      let '(w, txnStats, err) :=
        DB_Txn (db t) batchStats w zeroStats (txnClosure (rp t) batch) in
      (w, (txnStats, err))
  end.

(** [func (t *txnBatch) GetLastRow] *)
Definition txnBatch_GetLastRow (t : txnBatch) (w : World) : Row :=
  RowProcessor_GetLastRow (rp t) w.

(** A [*txnBatch] as a [BatchHandler]. *)
Definition txnBatch_BatchHandler (t : txnBatch) : @BatchHandler Row World :=
  mkBatchHandler (txnBatch_HandleBatch t) (txnBatch_GetLastRow t).

(** What the constructor reads in its [spec]. *)
Record LogicalReplicationWriterSpec : Type := mkSpec {
  spec_JobID : Z;
  PreviousReplicatedTimestamp : Timestamp;
  PartitionSpec_Spans : list Span;
  Checkpoint_ResolvedSpans : list ResolvedSpan
}.

(** What the processor reads in its [flowCtx]: the settings, the database,
    the testing knobs, the SQL instance and the metrics of the job
    registry, which [Start] stores in [lrw.metrics]. *)
Record FlowCtx : Type := mkFlowCtx {
  Cfg_Settings : Settings;
  Cfg_DB : DB;
  Cfg_TestingKnobs : option StreamingTestingKnobs;
  NodeID_SQLInstanceID : Z;
  JobRegistry_Metrics : Metrics
}.

(** [span.MakeFrontierAt] and [Frontier.Forward]. *)
Variable MakeFrontierAt : Timestamp -> list Span -> Frontier + Error.
Variable Forward : Frontier -> Span -> Timestamp -> Frontier * (bool * option Error).

(** [makeSQLLastWriteWinsHandler], called once for each handler of the
    pool. *)
Variable makeSQLLastWriteWinsHandler : World -> World * (RowProcessor + Error).

Variable InitDeadLetterQueueClient : @DeadLetterQueueClient Row World.

(** The struct literal [purgatory{deadline: ..., delay: ..., levelLimit:
    ...}], the durations in nanoseconds. *)
Variable newPurgatory : Z -> Z -> Z -> Purgatory.

(** [lrw.Init], of the embedded [execinfra.ProcessorBase]. *)
Variable Init : FlowCtx -> Z -> option Error.

(** [for i := range bhPool]: the handlers are made in pool order; [n]
    counts the ones still to make. *)
Fixpoint makeHandlers (n : nat) (flowCtx : FlowCtx) (w : World)
  : World * (list (@BatchHandler Row World) + Error) :=
  match n with
  | O => (w, inl [])
  | S n' =>
      match makeSQLLastWriteWinsHandler w with
      | (w, inr err) => (w, inr err)
      | (w, inl r) =>
          match makeHandlers n' flowCtx w with
          | (w, inr err) => (w, inr err)
          | (w, inl bhPool) =>
              (w, inl (txnBatch_BatchHandler (mkTxnBatch (Cfg_DB flowCtx) r)
                         :: bhPool))
          end
      end
  end.

(** [newLogicalReplicationWriterProcessor].  [logs0] and [tick0] are the
    log and the clock of the process when the processor starts. *)
Definition newLogicalReplicationWriterProcessor (flowCtx : FlowCtx)
    (processorID : Z) (spec : LogicalReplicationWriterSpec)
    (w : World) (logs0 : list (@LogLine Row)) (tick0 : nat)
  : World * (@lrwProcessor Row World Frontier Purgatory + Error) :=
  match MakeFrontierAt (PreviousReplicatedTimestamp spec)
          (PartitionSpec_Spans spec) with
  | inr err => (w, inr err)
  | inl f =>
      match forwardAll Forward f (Checkpoint_ResolvedSpans spec) with
      | (_, Some err) => (w, inr err)
      | (f, None) =>
          match makeHandlers maxWriterWorkers flowCtx w with
          | (w, inr err) => (w, inr err)
          | (w, inl bhPool) =>
              let lrw :=
                mkLrw
                  (mkProcessor (spec_JobID spec) (NodeID_SQLInstanceID flowCtx)
                     (Cfg_Settings flowCtx) (Cfg_TestingKnobs flowCtx)
                     bhPool InitDeadLetterQueueClient f []
                     (JobRegistry_Metrics flowCtx) [] w logs0 tick0)
                  (newPurgatory 60000000000 5000000000 10) in
              match Init flowCtx processorID with
              | Some err => (w, inr err)
              | None => (w, inl lrw)
              end
          end
      end
  end.

(** ** Properties *)

Lemma txnRows_notProcessed r txn batch : forall w s,
  notProcessed (snd (fst (txnRows r txn batch w s))) = notProcessed s.
Proof.
  induction batch as [|kv batch IH]; intros w s; simpl; [reflexivity|].
  destruct (ProcessRow r w (Some txn) (KeyValue_ kv) (PrevValue kv))
    as [w1 [rowStats [e|]]]; [reflexivity|].
  rewrite IH. reflexivity.
Qed.

Lemma txnRows_app r txn batch more : forall w s,
  txnRows r txn (batch ++ more) w s =
    match txnRows r txn batch w s with
    | (w', s', Some e) => (w', s', Some e)
    | (w', s', None) => txnRows r txn more w' s'
    end.
Proof.
  induction batch as [|kv batch IH]; intros w s; simpl; [reflexivity|].
  destruct (ProcessRow r w (Some txn) (KeyValue_ kv) (PrevValue kv))
    as [w1 [rowStats [e|]]]; [reflexivity|].
  apply IH.
Qed.

Lemma makeHandlers_length n flowCtx : forall w w' bhPool,
  makeHandlers n flowCtx w = (w', inl bhPool) ->
  length bhPool = n /\
  exists rps, bhPool =
    map (fun r => txnBatch_BatchHandler (mkTxnBatch (Cfg_DB flowCtx) r)) rps.
Proof.
  induction n as [|n IH]; intros w w' bhPool; simpl.
  - intros [= <- <-]. split; [reflexivity|]. exists []. reflexivity.
  - destruct (makeSQLLastWriteWinsHandler w) as [w1 [r|err]]; [|discriminate].
    destruct (makeHandlers n flowCtx w1) as [w2 [hs|err]] eqn:Hrec; [|discriminate].
    intros [= <- <-]. destruct (IH _ _ _ Hrec) as (Hlen & rps & ->).
    split; [simpl; rewrite Hlen; reflexivity|].
    exists (r :: rps). reflexivity.
Qed.

(** X15.  A processor that the constructor returns has a pool of exactly
    [maxWriterWorkers] = 32 batch handlers, each a [txnBatch] on the
    database of the flow with a row processor of its own; nothing has been
    sent on its checkpoint channel; its frontier is the one made for the
    partition spans at the previous replicated timestamp, forwarded
    through the resolved spans of the checkpoint of the spec, in order,
    every one of these forwards having succeeded; its purgatory has a
    deadline of one minute, a delay of five seconds and a level limit of
    10. *)
Theorem newLogicalReplicationWriterProcessor_pool flowCtx processorID spec
    w logs0 tick0 w' lrw :
  newLogicalReplicationWriterProcessor flowCtx processorID spec w logs0 tick0
    = (w', inl lrw) ->
  length (bh (proc lrw)) = maxWriterWorkers /\
  (exists rps, bh (proc lrw) =
     map (fun r => txnBatch_BatchHandler (mkTxnBatch (Cfg_DB flowCtx) r)) rps) /\
  checkpointCh (proc lrw) = [] /\
  (exists f0,
     MakeFrontierAt (PreviousReplicatedTimestamp spec) (PartitionSpec_Spans spec)
       = inl f0 /\
     snd (forwardAll Forward f0 (Checkpoint_ResolvedSpans spec)) = None /\
     frontier (proc lrw) =
       fold_left (forwardOne Forward) (Checkpoint_ResolvedSpans spec) f0) /\
  purgatory lrw = newPurgatory 60000000000 5000000000 10 /\
  JobID (proc lrw) = spec_JobID spec /\
  settings (proc lrw) = Cfg_Settings flowCtx.
Proof.
  unfold newLogicalReplicationWriterProcessor.
  destruct (MakeFrontierAt _ _) as [f0|err]; [|discriminate].
  pose proof (forwardAll_ok Forward (Checkpoint_ResolvedSpans spec) f0) as Hok.
  destruct (forwardAll Forward f0 (Checkpoint_ResolvedSpans spec))
    as [f [err|]] eqn:Hfwd; [discriminate|].
  destruct (makeHandlers maxWriterWorkers flowCtx w) as [w1 [bhPool|err]] eqn:Hpool;
    [|discriminate].
  destruct (Init flowCtx processorID) as [err|]; [discriminate|].
  intros [= <- <-]. cbn.
  destruct (makeHandlers_length _ _ _ _ _ Hpool) as (Hlen & rps & Hrps).
  split; [exact Hlen|]. split; [exists rps; exact Hrps|]. split; [reflexivity|].
  split; [|repeat split].
  exists f0. rewrite Hfwd. split; [reflexivity|]. split; [reflexivity|].
  exact (Hok eq_refl).
Qed.

End Construction.

(** * The calls a batch handler makes to its row processor

    Here the row processor is wrapped so that it keeps a record of the
    calls made to it, each with what it returned. *)

Section RowCalls.

Context {Row World Txn : Type}.

(** A call [ProcessRow(ctx, txn, kv.KeyValue, kv.PrevValue)] and its
    results; [callTxn = None] for a call made with a [nil] transaction. *)
Record RowCall : Type := mkRowCall {
  callTxn : option Txn;
  callRow : StreamEvent_KV;
  callStats : batchStats;
  callErr : option Error
}.

Definition recorded (r : @RowProcessor Row World Txn)
  : @RowProcessor Row (World * list RowCall) Txn :=
  mkRowProcessor
    (fun wj txn kv prev =>
       let '(w, (rowStats, err)) := ProcessRow r (fst wj) txn kv prev in
       ((w, snd wj ++ [mkRowCall txn (mkKV kv prev) rowStats err]),
        (rowStats, err)))
    (fun wj => RowProcessor_GetLastRow r (fst wj)).

Definition rowBytes (calls : list RowCall) : Z :=
  foldr (fun c acc => byteSize (callStats c) + acc) 0 calls.

Definition rowConflicts (calls : list RowCall) : Z :=
  foldr (fun c acc => optimisticInsertConflicts (callStats c) + acc) 0 calls.

(** One attempt at [batch] in the transaction [txn], as the record of
    calls shows it, [J] being the record before and [J'] the record
    after: the rows [ok] are processed in batch order in [txn] without
    error; with no error they are the whole batch; with the error [e] the
    next row was tried in [txn] and failed with [e], and no row after it
    was tried.  [stats] counts the rows [ok], as [int64]. *)
Definition attemptOf (txn : Txn) (batch : list StreamEvent_KV)
    (J J' : list RowCall) (stats : batchStats) (err : option Error) : Prop :=
  exists ok : list RowCall,
    Forall (fun c => callTxn c = Some txn /\ callErr c = None) ok /\
    stats = mkStats 0 (wrap64 (rowBytes ok)) (wrap64 (rowConflicts ok)) /\
    match err with
    | None => J' = J ++ ok /\ map callRow ok = batch
    | Some e =>
        exists bad rest,
          J' = J ++ ok ++ [bad] /\
          callTxn bad = Some txn /\ callErr bad = Some e /\
          batch = map callRow ok ++ callRow bad :: rest
    end.

Lemma txnRows_attempt (r : @RowProcessor Row World Txn) txn batch :
  forall w J s b c w' J' s' err,
  byteSize s = wrap64 b -> optimisticInsertConflicts s = wrap64 c ->
  txnRows (recorded r) txn batch (w, J) s = ((w', J'), s', err) ->
  exists ok : list RowCall,
    Forall (fun c => callTxn c = Some txn /\ callErr c = None) ok /\
    s' = mkStats (notProcessed s) (wrap64 (b + rowBytes ok))
           (wrap64 (c + rowConflicts ok)) /\
    match err with
    | None => J' = J ++ ok /\ map callRow ok = batch
    | Some e =>
        exists bad rest,
          J' = J ++ ok ++ [bad] /\
          callTxn bad = Some txn /\ callErr bad = Some e /\
          batch = map callRow ok ++ callRow bad :: rest
    end.
Proof.
  induction batch as [|kv batch IH]; intros w J s b c w' J' s' err Hb Hc.
  - intros [= <- <- <- <-]. exists []. cbn. rewrite !Z.add_0_r, <- Hb, <- Hc.
    split; [constructor|]. split; [destruct s; reflexivity|].
    split; [symmetry; apply app_nil_r|reflexivity].
  - cbn [txnRows recorded ProcessRow fst snd].
    assert (Hkv : mkKV (KeyValue_ kv) (PrevValue kv) = kv) by (destruct kv; reflexivity).
    rewrite Hkv.
    destruct (ProcessRow r w (Some txn) (KeyValue_ kv) (PrevValue kv))
      as [w1 [rowStats [e|]]].
    + intros [= <- <- <- <-]. exists []. cbn. rewrite !Z.add_0_r, <- Hb, <- Hc.
      split; [constructor|]. split; [destruct s; reflexivity|].
      exists (mkRowCall (Some txn) kv rowStats (Some e)), batch.
      repeat split.
    + intros Hrec.
      apply (IH _ _ _ (b + byteSize rowStats) (c + optimisticInsertConflicts rowStats))
        in Hrec as (ok & Hok & Hs & Herr).
      * exists (mkRowCall (Some txn) kv rowStats None :: ok).
        split; [constructor; [split; reflexivity|exact Hok]|].
        split.
        { rewrite Hs. cbn. rewrite !Z.add_assoc. reflexivity. }
        destruct err as [e|].
        -- destruct Herr as (bad & rest & HJ & Ht & He & Hbatch).
           exists bad, rest. rewrite HJ, Hbatch, <- !app_assoc.
           repeat split; assumption.
        -- destruct Herr as [HJ Hbatch]. rewrite HJ, <- Hbatch, <- app_assoc.
           split; reflexivity.
      * cbn. unfold add64. rewrite Hb. apply wrap64_add_l.
      * cbn. unfold add64. rewrite Hc. apply wrap64_add_l.
Qed.

(** X14.  The batch handler of the pool, as the calls to the row
    processor show it.  A batch of one KV is processed by exactly one
    [ProcessRow] call, made with a [nil] transaction, whatever the
    database: [db.Txn] is not called; the handler returns the error of
    that call, with zero statistics, or its statistics.  The closure given
    to [db.Txn] processes the rows in batch order in the transaction it
    is given and stops at the first row that fails, the rows after it not
    being tried; the statistics it leaves count the rows of that run
    alone, whatever an earlier run had counted.  On a database that runs
    the closure once, a batch of no row or of several rows is handled by
    one such run, whose statistics are returned also when it fails. *)
Theorem txnBatch_HandleBatch_attempts (r : @RowProcessor Row World Txn) :
  (forall (d : @DB (World * list RowCall) Txn) w J kv,
     let res := txnBatch_HandleBatch (mkTxnBatch d (recorded r)) (w, J) [kv] in
     let row := ProcessRow r w None (KeyValue_ kv) (PrevValue kv) in
     fst res = (fst row, J ++ [mkRowCall None kv (fst (snd row)) (snd (snd row))]) /\
     snd (snd res) = snd (snd row) /\
     fst (snd res) =
       match snd (snd row) with
       | Some _ => zeroStats
       | None =>
           mkStats 0 (wrap64 (byteSize (fst (snd row))))
             (wrap64 (optimisticInsertConflicts (fst (snd row))))
       end) /\
  (forall txn batch w J s w' J' s' err,
     txnClosure (recorded r) batch txn (w, J) s = ((w', J'), s', err) ->
     attemptOf txn batch J J' s' err) /\
  (forall (d : @DB (World * list RowCall) Txn) txn,
     (forall S w s c, DB_Txn d S w s c = c txn w s) ->
     forall batch w J w' J' stats err,
       length batch <> 1%nat ->
       txnBatch_HandleBatch (mkTxnBatch d (recorded r)) (w, J) batch
         = ((w', J'), (stats, err)) ->
       attemptOf txn batch J J' stats err).
Proof.
  assert (Hclosure : forall txn batch w J s w' J' s' err,
            txnClosure (recorded r) batch txn (w, J) s = ((w', J'), s', err) ->
            attemptOf txn batch J J' s' err).
  { intros txn batch w J s w' J' s' err H. unfold txnClosure in H.
    apply (txnRows_attempt r txn batch w J zeroStats 0 0) in H;
      [|reflexivity|reflexivity].
    destruct H as (ok & Hok & Hs & Herr). exists ok.
    split; [exact Hok|]. split; [|exact Herr].
    rewrite Hs, !Z.add_0_l. reflexivity. }
  split; [|split; [exact Hclosure|]].
  - intros d w J kv. cbv zeta.
    unfold txnBatch_HandleBatch. cbn [rp recorded ProcessRow fst snd].
    assert (Hkv : mkKV (KeyValue_ kv) (PrevValue kv) = kv) by (destruct kv; reflexivity).
    rewrite Hkv.
    destruct (ProcessRow r w None (KeyValue_ kv) (PrevValue kv))
      as [w1 [rowStats [e|]]]; cbn; repeat split.
  - intros d txn Hdb batch w J w' J' stats err Hlen H.
    unfold txnBatch_HandleBatch in H. cbn [db rp] in H.
    destruct batch as [|kv [|kv' batch]]; [|simpl in Hlen; congruence|];
      rewrite Hdb in H;
      destruct (txnClosure (recorded r) _ txn (w, J) zeroStats)
        as [[[w1 J1] s1] e1] eqn:Hc;
      injection H as <- <- <- <-; exact (Hclosure _ _ _ _ _ _ _ _ _ Hc).
Qed.

End RowCalls.

(** * Reporting errors to [Next] *)

Section ErrorChannel.

Context {Row : Type}.

(** [log.V(2)] *)
Variable logV2 : bool.

(** [lrw.errCh], made with [make(chan error, 1)]: the error it buffers, if
    any.  [sendError] on the channel and the log; a [nil] error is
    [None]. *)
Definition sendError (errCh : option Error) (logs : list (@LogLine Row))
    (err : option Error) : option Error * list (@LogLine Row) :=
  match err with
  | None => (errCh, logs)
  | Some e =>
      match errCh with
      | None => (Some e, logs)
      | Some _ =>
          (errCh,
           if logV2
           then logs ++ [Infof "dropping additional error: %s" [LErr e]]
           else logs)
      end
  end.

(** A sequence of [sendError] calls, nothing being received meanwhile. *)
Definition sendErrors (errCh : option Error) (logs : list (@LogLine Row))
    (errs : list (option Error)) : option Error * list (@LogLine Row) :=
  fold_left (fun st err => sendError (fst st) (snd st) err) errs (errCh, logs).

(** X16.  The first error wins.  Whatever errors the goroutines of the
    processor report with [sendError] before [Next] reads the channel, the
    channel holds the first of them that is not [nil]; an error already in
    the channel stays there, the later ones are dropped, and [sendError]
    never blocks. *)
Theorem sendError_first_error_wins errs : forall errCh logs,
  fst (sendErrors errCh logs errs) =
    match errCh with
    | Some e => Some e
    | None => head (omap id errs)
    end.
Proof.
  unfold sendErrors.
  induction errs as [|err errs IH]; intros errCh logs.
  - destruct errCh; reflexivity.
  - destruct err as [e|], errCh as [e0|]; cbn [fold_left sendError fst snd];
      rewrite IH; reflexivity.
Qed.

End ErrorChannel.

(** * The purgatory *)

Section PurgatoryModel.

Context {Row World Frontier : Type}.
Variable wallClock : nat -> Time.

(** Modelled from the spec: the purgatory type and its methods [Empty],
    [Checkpoint], [Store] and [Drain] are declared outside the file
    embedded above.  After the specification (section 4.5): an entry is a
    deferred buffer with the checkpoint that would have been emitted after
    it, an arrival wall time and a retry level; the state is an ordered
    sequence of entries with [deadline], [delay] and [levelLimit].  The
    time of the last attempt is kept with the entry for the [delay]
    test. *)
Record purgatoryEntry : Type := mkEntry {
  remaining : list StreamEvent_KV;
  attached : slice ResolvedSpan;
  arrivedAt : Time;
  lastAttempt : Time;
  level : nat
}.

Record specPurgatory : Type := mkPurgatory {
  entries : list purgatoryEntry;
  deadline : Z;
  delay : Z;
  levelLimit : nat
}.

(** Modelled from the spec: "Empty is true when no entries exist." *)
Definition spec_Empty (pg : specPurgatory) : bool :=
  match entries pg with [] => true | _ :: _ => false end.

Fixpoint attachToLast (spans : slice ResolvedSpan) (es : list purgatoryEntry)
  : list purgatoryEntry :=
  match es with
  | [] => []
  | [e] => [mkEntry (remaining e) spans (arrivedAt e) (lastAttempt e) (level e)]
  | e :: es' => e :: attachToLast spans es'
  end.

(** Modelled from the spec: "the checkpoint is attached to the most recent
    purgatory entry rather than being forwarded." *)
Definition spec_Checkpoint (ctx : Ctx) (pg : specPurgatory)
    (spans : slice ResolvedSpan) : specPurgatory :=
  mkPurgatory (attachToLast spans (entries pg)) (deadline pg) (delay pg)
    (levelLimit pg).

(** [entry.age >= deadline || entry.level >= levelLimit] *)
Definition overdue (pg : specPurgatory) (now : Time) (e : purgatoryEntry) : bool :=
  (deadline pg <=? now - arrivedAt e) || (levelLimit pg <=? level e)%nat.

(** Modelled from the spec: the walk of [Drain], "in insertion order; for
    each entry where the last retry attempt was at least delay ago, call
    flushFn(entry.remaining, mustProcess); replace entry.remaining with the
    returned unapplied; if remaining becomes empty, emit the attached
    checkpoint (if any) via checkpointFn and remove the entry; otherwise
    increment entry.level and keep it".  With [force], the walk is the
    forced drain of [Store]: it takes the overdue entries, with
    [mustProcess = true]. *)
Fixpoint drainEntries (force : bool) (pg : specPurgatory) (now : Time)
    (ctx : Ctx) (flush : @flushFn Row World Frontier)
    (emit : @checkpointFn Row World Frontier)
    (p : @Processor Row World Frontier) (es : list purgatoryEntry)
  : option (list purgatoryEntry * @Processor Row World Frontier * option Error) :=
  match es with
  | [] => Some ([], p, None)
  | e :: es' =>
      let due := if force then overdue pg now e
                 else delay pg <=? now - lastAttempt e in
      if due then
        match flush ctx p (remaining e) (if force then true else overdue pg now e) with
        | None => None
        | Some (p, _, (_, Some err)) => Some (e :: es', p, Some err)
        | Some (p, _, (unapplied, None)) =>
            match elems unapplied with
            | [] =>
                let '(p, err) :=
                  match attached e with
                  | Some _ => emit ctx p (attached e)
                  | None => (p, None)
                  end in
                match err with
                | Some err => Some (es', p, Some err)
                | None => drainEntries force pg now ctx flush emit p es'
                end
            | still =>
                match drainEntries force pg now ctx flush emit p es' with
                | None => None
                | Some (es'', p, err) =>
                    Some (mkEntry still (attached e) (arrivedAt e) now (S (level e))
                            :: es'', p, err)
                end
            end
        end
      else
        match drainEntries force pg now ctx flush emit p es' with
        | None => None
        | Some (es'', p, err) => Some (e :: es'', p, err)
        end
  end.

Definition spec_Drain (ctx : Ctx) (pg : specPurgatory)
    (flush : @flushFn Row World Frontier) (emit : @checkpointFn Row World Frontier)
    (p : @Processor Row World Frontier)
  : option (specPurgatory * @Processor Row World Frontier * option Error) :=
  let '(now, p) := Now wallClock p in
  match drainEntries false pg now ctx flush emit p (entries pg) with
  | None => None
  | Some (es, p, err) =>
      Some (mkPurgatory es (deadline pg) (delay pg) (levelLimit pg), p, err)
  end.

(** Modelled from the spec: "if purgatory is full (level >= levelLimit on
    the oldest entry, or total residence >= deadline), first force-drain by
    calling flushFn(entry, mustProcess=true) on eligible entries; then
    append a new entry at retry level 0 with current wall time."  The
    purgatory "holds buffers that failed transient application": an empty
    [unapplied] adds no entry. *)
Definition spec_Store (ctx : Ctx) (pg : specPurgatory)
    (unapplied : slice StreamEvent_KV)
    (flush : @flushFn Row World Frontier) (emit : @checkpointFn Row World Frontier)
    (p : @Processor Row World Frontier)
  : option (specPurgatory * @Processor Row World Frontier * option Error) :=
  match elems unapplied with
  | [] => Some (pg, p, None)
  | rows =>
      let '(now, p) := Now wallClock p in
      let full := match entries pg with
                  | oldest :: _ => overdue pg now oldest
                  | [] => false
                  end in
      let drained :=
        if full then drainEntries true pg now ctx flush emit p (entries pg)
        else Some (entries pg, p, None) in
      match drained with
      | None => None
      | Some (es, p, Some err) =>
          Some (mkPurgatory es (deadline pg) (delay pg) (levelLimit pg), p, Some err)
      | Some (es, p, None) =>
          Some (mkPurgatory (es ++ [mkEntry rows None now now 0])
                  (deadline pg) (delay pg) (levelLimit pg), p, None)
      end
  end.

End PurgatoryModel.

(** * The gate on that purgatory

    [maybeCheckpoint] with the purgatory modelled above. *)

Section PurgatoryGate.

Context {Row World Frontier : Type}.
Variable IsInitialized : Row -> bool.
Variable Forward : Frontier -> Span -> Timestamp -> Frontier * (bool * option Error).
Variable Frontier_Frontier : Frontier -> Timestamp.
Variable EnsureSafeSplitKey : Key -> option Key.
Variable wallClock : nat -> Time.

Local Abbreviation lrwFlushBuffer :=
  (@flushBuffer Row IsInitialized World Frontier EnsureSafeSplitKey wallClock).

Local Abbreviation lrwCheckpoint :=
  (@checkpoint Row World Frontier Forward Frontier_Frontier).

Local Abbreviation lrwMaybeCheckpoint :=
  (@maybeCheckpoint Row IsInitialized World Frontier Forward Frontier_Frontier
     EnsureSafeSplitKey wallClock specPurgatory spec_Empty spec_Checkpoint
     (spec_Drain wallClock)).

(** The entry a checkpoint is attached to. *)
Definition withCheckpoint (spans : slice ResolvedSpan) (e : purgatoryEntry)
  : purgatoryEntry :=
  mkEntry (remaining e) spans (arrivedAt e) (lastAttempt e) (level e).

Lemma attachToLast_snoc spans older newest :
  attachToLast spans (older ++ [newest]) = older ++ [withCheckpoint spans newest].
Proof.
  induction older as [|e older IH]; [reflexivity|].
  cbn [app attachToLast]. rewrite IH.
  destruct (older ++ [newest]) eqn:E; [|reflexivity].
  destruct older; discriminate.
Qed.

(** What one call of [checkpoint] sends. *)
Lemma checkpoint_sends ctx p resolvedSpans :
  let p' := fst (lrwCheckpoint ctx p resolvedSpans) in
  match snd (lrwCheckpoint ctx p resolvedSpans) with
  | Some _ => checkpointCh p' = checkpointCh p
  | None =>
      (checkpointCh p' = checkpointCh p /\ frontier p' = frontier p) \/
      checkpointCh p' = checkpointCh p ++ [resolvedSpans]
  end.
Proof.
  unfold checkpoint. destruct (elideCheckpoint Frontier_Frontier p).
  { left. split; reflexivity. }
  destruct resolvedSpans as [spans|]; [|reflexivity].
  destruct (forwardAll Forward (frontier p) spans) as [f [e|]]; [reflexivity|].
  destruct (ctxDone ctx); [reflexivity|]. right. reflexivity.
Qed.

(** What a walk of the purgatory forwards: [gone] are the checkpoints
    attached to the entries that leave the purgatory, an entry without one
    counting for [None]; [sent] is what is sent on the checkpoint
    channel. *)
Lemma drainEntries_forwards force pg now ctx : forall es p es' p' err,
  drainEntries force pg now ctx lrwFlushBuffer lrwCheckpoint p es
    = Some (es', p', err) ->
  exists gone sent,
    map attached es ≡ₚ map attached es' ++ gone /\
    sublist sent gone /\
    checkpointCh p' = checkpointCh p ++ sent /\
    (Forall (fun a => a = None) gone -> frontier p' = frontier p).
Proof.
  induction es as [|e es IH]; intros p es' p' err.
  - intros [= <- <- <-]. exists [], [].
    split; [reflexivity|]. split; [constructor|].
    split; [symmetry; apply app_nil_r|]. intros _. reflexivity.
  - cbn [drainEntries map].
    destruct (if force then overdue pg now e else delay pg <=? now - lastAttempt e).
    + destruct (lrwFlushBuffer ctx p (remaining e)
                  (if force then true else overdue pg now e))
        as [[[p1 buf] [unapplied [ferr|]]]|] eqn:Hflush; [| |discriminate].
      * intros [= <- <- <-]. apply flushBuffer_frame in Hflush as [Hf Hc].
        exists [], []. rewrite !app_nil_r.
        split; [reflexivity|]. split; [constructor|].
        split; [exact Hc|]. intros _. exact Hf.
      * apply flushBuffer_frame in Hflush as [Hf Hc].
        destruct (elems unapplied) as [|kv still].
        -- destruct (attached e) as [spans|] eqn:Hatt.
           ++ pose proof (checkpoint_sends ctx p1 (Some spans)) as Hsend.
              cbv zeta in Hsend.
              destruct (lrwCheckpoint ctx p1 (Some spans)) as [p2 [cerr|]];
                cbn [fst snd] in Hsend.
              ** intros [= <- <- <-]. exists [Some spans], [].
                 split; [apply Permutation_cons_append|].
                 split; [apply sublist_nil_l|].
                 split; [rewrite app_nil_r, Hsend; exact Hc|].
                 intros Hnone. apply Forall_cons in Hnone as [Hnone _]. discriminate.
              ** intros Hrec. apply IH in Hrec as (gone & sent & Hp & Hs & Hch & Hfr).
                 destruct Hsend as [[Hsame _]|Hsent].
                 --- exists (Some spans :: gone), sent.
                     split; [rewrite Hp; apply Permutation_middle|].
                     split; [apply sublist_cons; exact Hs|].
                     split; [rewrite Hch, Hsame, Hc; reflexivity|].
                     intros Hnone. apply Forall_cons in Hnone as [Hnone _]. discriminate.
                 --- exists (Some spans :: gone), (Some spans :: sent).
                     split; [rewrite Hp; apply Permutation_middle|].
                     split; [apply sublist_skip; exact Hs|].
                     split; [rewrite Hch, Hsent, Hc, <- app_assoc; reflexivity|].
                     intros Hnone. apply Forall_cons in Hnone as [Hnone _]. discriminate.
           ++ intros Hrec. apply IH in Hrec as (gone & sent & Hp & Hs & Hch & Hfr).
              exists (None :: gone), sent.
              split; [rewrite Hp; apply Permutation_middle|].
              split; [apply sublist_cons; exact Hs|].
              split; [rewrite Hch, Hc; reflexivity|].
              intros Hnone. apply Forall_cons in Hnone as [_ Hnone].
              rewrite (Hfr Hnone). exact Hf.
        -- destruct (drainEntries force pg now ctx _ _ p1 es)
             as [[[es'' p2] err2]|] eqn:Hrec; [|discriminate].
           intros [= <- <- <-].
           apply IH in Hrec as (gone & sent & Hp & Hs & Hch & Hfr).
           exists gone, sent. cbn [map attached app].
           split; [rewrite Hp; reflexivity|]. split; [exact Hs|].
           split; [rewrite Hch, Hc; reflexivity|].
           intros Hnone. rewrite (Hfr Hnone). exact Hf.
    + destruct (drainEntries force pg now ctx _ _ p es)
        as [[[es'' p2] err2]|] eqn:Hrec; [|discriminate].
      intros [= <- <- <-].
      apply IH in Hrec as (gone & sent & Hp & Hs & Hch & Hfr).
      exists gone, sent. cbn [map app].
      split; [rewrite Hp; reflexivity|]. split; [exact Hs|].
      split; [exact Hch|exact Hfr].
Qed.


End PurgatoryGate.

(** * A small deployment

    Concrete collaborators, on which the functions above can be run: a
    destination that records the rows applied to it, a handler that
    rejects the batches holding a given key, a dead-letter queue that
    records what is logged to it, and a frontier that records the forwards
    made. *)

Definition exRow : Type := option Key.

Definition exIsInitialized (row : exRow) : bool :=
  match row with Some _ => true | None => false end.

Record exWorld : Type := mkWorld {
  destination : list StreamEvent_KV;
  deadLetters : list (StreamEvent_KV * Error)
}.

Definition exFrontier : Type := list ResolvedSpan.

Definition exForward (f : exFrontier) (sp : Span) (ts : Timestamp)
  : exFrontier * (bool * option Error) :=
  (mkResolvedSpan sp ts :: f, (true, None)).

Definition exFrontier_Frontier (f : exFrontier) : Timestamp :=
  match f with rs :: _ => RTimestamp rs | [] => zeroTimestamp end.

(** Keys of two bytes are a row byte followed by a column family byte;
    the other keys have no safe split key. *)
Definition exSplit (key : Key) : option Key :=
  match key with
  | [r; _] => Some [r]
  | _ => None
  end.

Definition exClock (n : nat) : Time := 1000 + Z.of_nat n.

Definition exHandler (poison : Key) : @BatchHandler exRow exWorld :=
  mkBatchHandler
    (fun w batch =>
       if existsb (fun kv => Key_Equal (kvKey kv) poison) batch
       then (w, (zeroStats, Some (Foreign 1)))
       else (mkWorld (destination w ++ batch) (deadLetters w),
             (mkStats 0 (Z.of_nat (length batch)) 0, None)))
    (fun _ => None).

Definition exDLQ : @DeadLetterQueueClient exRow exWorld :=
  mkDLQ (fun w _ kv _ err =>
           (mkWorld (destination w) (deadLetters w ++ [(kv, err)]), None)).

(** A processor as the constructor makes it: [maxWriterWorkers] handlers
    and no testing knobs. *)
Definition exProcessorWith (s : Settings) (poison : Key)
  : @Processor exRow exWorld exFrontier :=
  mkProcessor 7 1 s None
    (replicate maxWriterWorkers (exHandler poison)) exDLQ
    [] [] zeroMetrics [] (mkWorld [] []) [] 0.

(** The default settings: batches of 32 rows, implicit transactions on. *)
Definition exProcessor (poison : Key) : @Processor exRow exWorld exFrontier :=
  exProcessorWith (mkSettings 32 true) poison.

Definition exCtx : Ctx := mkCtx None.

(** The span from "a" to "c", resolved at time 11. *)
Definition exSpans : list ResolvedSpan :=
  [mkResolvedSpan (mkSpan (list_byte_of_string "a") (list_byte_of_string "c"))
     (mkTimestamp 11 0)].

Definition exKV (key : string) (wall : Z) : StreamEvent_KV :=
  mkKV (mkKeyValue (list_byte_of_string key)
          (mkValue (list_byte_of_string "v") (mkTimestamp wall 0)))
       zeroValue.

Definition exPurgatory : Type := @specPurgatory.

Definition exEmptyPurgatory : exPurgatory := mkPurgatory [] 60000000000 5000000000 10.

(** A purgatory holding one row that arrived at time 1000. *)
Definition exHeldPurgatory : exPurgatory :=
  mkPurgatory [mkEntry [exKV "a1" 10] None 1000 1000 0]
    60000000000 5000000000 10.

Definition exLrw (poison : Key) (pg : exPurgatory)
  : @lrwProcessor exRow exWorld exFrontier exPurgatory :=
  mkLrw (exProcessor poison) pg.

(** The functions of the processor on these collaborators. *)
Abbreviation exFlushBuffer :=
  (@flushBuffer exRow exIsInitialized exWorld exFrontier exSplit exClock).

Abbreviation exFlushChunk :=
  (@flushChunk exRow exIsInitialized exWorld exFrontier exClock).

Abbreviation exCheckpoint :=
  (@checkpoint exRow exWorld exFrontier exForward exFrontier_Frontier).

Abbreviation exMaybeCheckpoint :=
  (@maybeCheckpoint exRow exIsInitialized exWorld exFrontier exForward
     exFrontier_Frontier exSplit exClock exPurgatory spec_Empty spec_Checkpoint
     (spec_Drain exClock)).

Abbreviation exHandleEvent :=
  (@handleEvent exRow exIsInitialized exWorld exFrontier exForward
     exFrontier_Frontier exSplit exClock exPurgatory spec_Empty spec_Checkpoint
     (spec_Store exClock) (spec_Drain exClock)).

Abbreviation exHandleStreamBuffer :=
  (@handleStreamBuffer exRow exIsInitialized exWorld exFrontier exForward
     exFrontier_Frontier exSplit exClock exPurgatory (spec_Store exClock)).

(** The chunk size as the specification words it: [max(ceil(N/W) + 1, 64)]. *)
Definition specChunkSize (n workers : nat) : nat :=
  Nat.max ((n + workers - 1) / workers + 1) 64.

(** The origin of the latency as the specification words it: the earliest
    commit time among the rows of the buffer. *)
Definition earliestCommit (kvs : list StreamEvent_KV) : Time :=
  match kvs with
  | [] => 0
  | kv :: rest =>
      fold_left Z.min (map (fun kv => GoTime (kvTimestamp kv)) rest)
        (GoTime (kvTimestamp kv))
  end.

Definition keyA1 : Key := list_byte_of_string "a1".

Definition byteOf (n : nat) : byte :=
  match Byte.of_N (N.of_nat n) with Some b => b | None => x00 end.

(** [n] rows, two column families to a row, committed at times 0, 1, ...,
    then one more row for the first row key. *)
Definition pairedRows (n : nat) : list StreamEvent_KV :=
  map (fun i => mkKV (mkKeyValue [byteOf (i / 2); byteOf (i mod 2)]
                        (mkValue [] (mkTimestamp (Z.of_nat i) 0))) zeroValue)
      (seq 0 n)
  ++ [mkKV (mkKeyValue [byteOf 0; byteOf 2]
              (mkValue [] (mkTimestamp (Z.of_nat n) 0))) zeroValue].

(** [n] rows with [n] different row keys (keys of three bytes have no
    safe split key, so the whole key is the row key). *)
Definition distinctRows (n : nat) : list StreamEvent_KV :=
  map (fun i => mkKV (mkKeyValue [byteOf (i / 256); byteOf (i mod 256); x00]
                        (mkValue [] (mkTimestamp (Z.of_nat i) 0))) zeroValue)
      (seq 0 n).

(** The lengths of the chunks a flush of [kvs] cuts. *)
Definition chunkLengths (kvs : list StreamEvent_KV) : list nat :=
  map (fun job => length (snd job))
    (fst (cutChunks exSplit (bh (exProcessor []))
            (chunkSizeOf (length (slices_SortFunc exSplit kvs))
               (length (bh (exProcessor []))))
            (slices_SortFunc exSplit kvs))).

(** * The processor on the small deployment *)

(** Of 131 rows, 64 would end the first chunk between the two column
    families of a row: the chunk takes a 65th row. *)
Example chunks_of_131_rows : chunkLengths (pairedRows 130) = [65; 64; 2]%nat.
Proof. vm_compute. reflexivity. Qed.

(** C1, on the code.  A buffer of one row whose application fails, flushed
    with [mustProcess = false]: the flush returns no error, the row is
    neither in the destination nor in the dead-letter queue and its slot
    still holds its key, and the [unapplied] slice returned is empty where
    the claim has it hold the row. *)
Theorem unapplied_misses_the_unprocessed_row :
  match exFlushBuffer exCtx (exProcessor keyA1) [exKV "a1" 10] false with
  | Some (p', buf, (unapplied, err)) =>
      err = None /\
      destination (world p') = [] /\ deadLetters (world p') = [] /\
      buf = [exKV "a1" 10] /\
      filter (fun kv => hasKey kv = true) buf = [exKV "a1" 10] /\
      unapplied = Some []
  | None => False
  end.
Proof. vm_compute. repeat split. Qed.

(** What follows from it: the row that failed to apply is not stored in
    the purgatory, and the checkpoint that comes next is forwarded and
    sent although the row, committed before it, is neither in the
    destination nor in the dead-letter queue. *)
Example unprocessed_row_is_lost :
  match exHandleEvent exCtx (exLrw keyA1 exEmptyPurgatory)
          (mkEvent KVEvent [exKV "a1" 10] None) with
  | Some (lrw1, None) =>
      spec_Empty (purgatory lrw1) = true /\
      (match exHandleEvent exCtx lrw1 (mkEvent CheckpointEvent [] (Some exSpans)) with
       | Some (lrw2, err) =>
           err = None /\
           checkpointCh (proc lrw2) = [Some exSpans] /\
           destination (world (proc lrw2)) = [] /\
           deadLetters (world (proc lrw2)) = []
       | None => False
       end)
  | _ => False
  end.
Proof. vm_compute. repeat split. Qed.

(** C4, on the code.  A chunk of one row whose application fails, flushed
    with [mustProcess = true]: the row is logged to the dead-letter queue
    and not counted as unprocessed, and its slot is returned as it was,
    key included, where the claim has it zeroed.  With explicit
    transactions, a failed batch of two rows is retried row by row: the
    row that applies on its own has its slot zeroed, the one sent to the
    dead-letter queue keeps its slot. *)
Theorem dead_lettered_row_keeps_its_slot :
  match exFlushChunk (exProcessor keyA1) (exHandler keyA1) [exKV "a1" 10] true with
  | Some (p', chunk', (stats, err)) =>
      err = None /\ notProcessed stats = 0 /\
      deadLetters (world p') = [(exKV "a1" 10, Foreign 1)] /\
      chunk' = [exKV "a1" 10] /\ hasKey (exKV "a1" 10) = true
  | None => False
  end /\
  match exFlushChunk (exProcessorWith (mkSettings 32 false) keyA1)
          (exHandler keyA1) [exKV "a1" 10; exKV "b1" 11] true with
  | Some (p', chunk', (stats, err)) =>
      err = None /\ notProcessed stats = 0 /\
      deadLetters (world p') = [(exKV "a1" 10, Foreign 1)] /\
      destination (world p') = [exKV "b1" 11] /\
      chunk' = [exKV "a1" 10; zeroKV]
  | None => False
  end.
Proof. vm_compute. repeat split. Qed.

(** C5, against the claim as stated.  On resolved spans that are empty
    without being [nil], [checkpoint] returns no error and sends the empty
    slice on the checkpoint channel. *)
Lemma empty_resolved_spans_are_sent :
  snd (exCheckpoint exCtx (exProcessor []) (Some [])) = None /\
  checkpointCh (fst (exCheckpoint exCtx (exProcessor []) (Some []))) = [Some []] /\
  len (Some [] : slice ResolvedSpan) = 0%nat.
Proof. vm_compute. repeat split. Qed.

(** C6, against the claim as stated.  For 2017 rows and 32 workers the
    code's chunk size is 64 where [max(ceil(N/W) + 1, 64)] is 65; 2017
    rows with different row keys are cut into 31 chunks of 64 rows and one
    of 33. *)
Lemma chunk_size_rounds_down :
  chunkSizeOf 2017 maxWriterWorkers = 64%nat /\
  specChunkSize 2017 maxWriterWorkers = 65%nat /\
  length (distinctRows 2017) = 2017%nat /\
  chunkLengths (distinctRows 2017) = (replicate 31 64 ++ [33])%nat.
Proof. vm_compute. repeat split. Qed.

(** C9, against the claim as stated.  A buffer whose first row was
    committed at time 20 and whose second row at time 10: the latency
    recorded is counted from 20, not from the earliest commit time 10. *)
Lemma latency_not_from_earliest_commit :
  match exFlushBuffer exCtx (exProcessor [])
          [exKV "b1" 20; exKV "a1" 10] false with
  | Some (p', _, (_, err)) =>
      err = None /\
      earliestCommit [exKV "b1" 20; exKV "a1" 10] = 10 /\
      latencies p' = [exClock (tick p' - 1) - 20] /\
      latencies p' <>
        [clampDuration (exClock (tick p' - 1) -
                        earliestCommit [exKV "b1" 20; exKV "a1" 10])]
  | None => False
  end.
Proof. vm_compute. repeat split. discriminate. Qed.

(** ** Instances of the theorems *)

Definition exRows : list StreamEvent_KV :=
  [exKV "a1" 12; exKV "b1" 5; exKV "a2" 9].

Definition exJobs (kvs : list StreamEvent_KV)
  : list (@BatchHandler exRow exWorld * list StreamEvent_KV) :=
  fst (cutChunks exSplit (bh (exProcessor []))
         (chunkSizeOf (length (slices_SortFunc exSplit kvs))
            (length (bh (exProcessor []))))
         (slices_SortFunc exSplit kvs)).

(** [key_grouping] on a buffer of three rows, two of them for one row key. *)
Lemma key_grouping_witness :
  length (bh (exProcessor [])) = maxWriterWorkers /\
  (forall i j hi ci hj cj,
     i <> j ->
     exJobs (exRows) !! i = Some (hi, ci) ->
     exJobs (exRows) !! j = Some (hj, cj) ->
     bh (exProcessor []) !! i = Some hi /\ bh (exProcessor []) !! j = Some hj /\
     prefixDisjoint exSplit ci cj) /\
  (forall kv, kv ∈ exRows ->
     exists i h c, exJobs (exRows) !! i = Some (h, c) /\
       forall kv', kv' ∈ exRows -> k exSplit kv' = k exSplit kv ->
         kv' ∈ c /\
         forall j h' c', exJobs (exRows) !! j = Some (h', c') ->
                         kv' ∈ c' -> j = i).
Proof.
  split; [reflexivity|].
  destruct (key_grouping exSplit (exProcessor []) (exRows) eq_refl)
    as (H1 & H2 & _).
  split; [exact H1|exact H2].
Defined.

(** [chunk_partition] on the same buffer. *)
Lemma chunk_partition_witness :
  length (bh (exProcessor [])) = maxWriterWorkers /\
  (length (exJobs (exRows)) <= 32)%nat /\
  concat (map snd (exJobs (exRows))) = slices_SortFunc exSplit (exRows).
Proof.
  split; [reflexivity|].
  destruct (chunk_partition exSplit (exProcessor []) (exRows) eq_refl)
    as (H1 & H2 & _).
  split; [exact H1|exact H2].
Defined.

(** [revisions_applied_in_commit_order] on the same buffer. *)
Lemma revisions_applied_in_commit_order_witness :
  length (bh (exProcessor [])) = maxWriterWorkers /\
  slices_SortFunc exSplit (exRows) ≡ₚ exRows /\
  StronglySorted (cmpLe exSplit) (slices_SortFunc exSplit (exRows)) /\
  (forall i h c, exJobs (exRows) !! i = Some (h, c) ->
     forall (q : @Processor exRow (exWorld * list StreamEvent_KV) exFrontier)
            d mustProcess q' c' r,
       dlqClient q = journaledDLQ d ->
       flushChunk exIsInitialized exClock q (journaled h) c mustProcess
         = Some (q', c', r) ->
       exists J,
         journal q' = journal q ++ J /\ J `sublist_of` c /\
         inCommitOrder exSplit J /\ latestLast exSplit J).
Proof.
  split; [reflexivity|].
  destruct (revisions_applied_in_commit_order exIsInitialized exSplit exClock
              (exProcessor []) (exRows) eq_refl)
    as (H1 & H2 & _ & _ & _ & H6).
  split; [exact H1|]. split; [exact H2|exact H6].
Defined.

(** A worker given two revisions of a row, the later one first in the
    buffer, applies the earlier one, then the later one. *)
Example later_revision_applied_last :
  match flushBuffer exIsInitialized exSplit exClock exCtx
          (mkProcessor 7 1 (mkSettings 32 true) None
             (replicate maxWriterWorkers (journaled (exHandler [])))
             (journaledDLQ exDLQ) ([] : exFrontier) [] zeroMetrics []
             (mkWorld [] [], []) [] 0%nat)
          [exKV "a1" 12; exKV "a1" 9] false with
  | Some (q', _, _) => journal q' = [exKV "a1" 9; exKV "a1" 12]
  | None => False
  end.
Proof. vm_compute. reflexivity. Qed.

Definition exFlushResult :=
  exFlushBuffer exCtx (exProcessor []) [exKV "b1" 20; exKV "a1" 10] false.

Definition flushedProcessor
    (r : option (@Processor exRow exWorld exFrontier * list StreamEvent_KV *
                 (slice StreamEvent_KV * option Error)))
  : @Processor exRow exWorld exFrontier :=
  match r with Some (p, _, _) => p | None => exProcessor [] end.

(** [flushBuffer_empty_buffer] on the empty buffer. *)
Lemma flushBuffer_empty_buffer_witness :
  length (@nil StreamEvent_KV) = 0%nat /\
  (exFlushBuffer exCtx (exProcessor keyA1) [] true =
     Some (exProcessor keyA1, [], (None, None))) /\
  (exFlushBuffer exCtx (exProcessor keyA1) [] false =
     Some (exProcessor keyA1, [], (None, None))).
Proof.
  split; [reflexivity|].
  split.
  - exact (proj1 (flushBuffer_empty_buffer exIsInitialized exSplit exClock exCtx
                    (exProcessor keyA1) [] true eq_refl)).
  - exact (proj1 (flushBuffer_empty_buffer exIsInitialized exSplit exClock exCtx
                    (exProcessor keyA1) [] false eq_refl)).
Defined.

(** [commit_latency_from_first_row] on a flush of two rows. *)
Lemma commit_latency_witness :
  exFlushBuffer exCtx (exProcessor []) [exKV "b1" 20; exKV "a1" 10] false =
    Some (flushedProcessor exFlushResult, [zeroKV; zeroKV], (None, None)) /\
  latencies (flushedProcessor exFlushResult) =
    latencies (exProcessor []) ++
    [clampDuration (exClock (tick (flushedProcessor exFlushResult) - 1) -
                    GoTime (kvTimestamp (exKV "b1" 20)))].
Proof.
  assert (H : exFlushBuffer exCtx (exProcessor []) [exKV "b1" 20; exKV "a1" 10] false =
              Some (flushedProcessor exFlushResult, [zeroKV; zeroKV], (None, None)))
    by (vm_compute; reflexivity).
  split; [exact H|].
  exact (commit_latency_from_first_row exIsInitialized exSplit exClock exCtx
           (exProcessor []) (exKV "b1" 20) [exKV "a1" 10] false
           (flushedProcessor exFlushResult) [zeroKV; zeroKV] None H).
Defined.

(** [maybeCheckpoint_gated] on a purgatory that holds one row. *)
Lemma maybeCheckpoint_gated_witness :
  spec_Empty (purgatory (exLrw [] exHeldPurgatory)) = false /\
  exMaybeCheckpoint exCtx (exLrw [] exHeldPurgatory) (Some exSpans) =
    match spec_Drain exClock exCtx
            (spec_Checkpoint exCtx exHeldPurgatory (Some exSpans))
            exFlushBuffer exCheckpoint (exProcessor []) with
    | None => None
    | Some (pg, p, err) => Some (mkLrw p pg, err)
    end.
Proof.
  split; [reflexivity|].
  exact (maybeCheckpoint_gated exIsInitialized exForward exFrontier_Frontier
           exSplit exClock spec_Empty spec_Checkpoint (spec_Drain exClock)
           exCtx (exLrw [] exHeldPurgatory) (Some exSpans) eq_refl).
Defined.

(** A checkpoint that arrives while a row is held: it is attached to the
    held entry, and neither the frontier nor the checkpoint channel
    changes. *)
Example held_checkpoint_is_not_forwarded :
  match exMaybeCheckpoint exCtx (exLrw [] exHeldPurgatory) (Some exSpans) with
  | Some (lrw', err) =>
      err = None /\
      map attached (entries (purgatory lrw')) = [Some exSpans] /\
      frontier (proc lrw') = [] /\ checkpointCh (proc lrw') = []
  | None => False
  end.
Proof. vm_compute. repeat split. Qed.

(** A later moment: the clock reads 20 s when the processor starts. *)
Definition exLateClock (n : nat) : Time := 20000000000 + Z.of_nat n.

(** A purgatory holding two entries at that moment: the older arrived at
    1 s and was last tried at 17 s, less than the delay of 5 s ago; the
    newer arrived at 12 s and has not been tried since. *)
Definition exTwoHeldPurgatory : exPurgatory :=
  mkPurgatory
    [mkEntry [exKV "a1" 10] None 1000000000 17000000000 1;
     mkEntry [exKV "b1" 11] None 12000000000 12000000000 0]
    60000000000 5000000000 10.

Abbreviation exLateFlushBuffer :=
  (@flushBuffer exRow exIsInitialized exWorld exFrontier exSplit exLateClock).

Abbreviation exLateMaybeCheckpoint :=
  (@maybeCheckpoint exRow exIsInitialized exWorld exFrontier exForward
     exFrontier_Frontier exSplit exLateClock exPurgatory spec_Empty spec_Checkpoint
     (spec_Drain exLateClock)).



(** [checkpoint_outcomes] on one resolved span, the context being live. *)
Lemma checkpoint_outcomes_witness :
  elideCheckpoint exFrontier_Frontier (exProcessor []) = false /\
  snd (exCheckpoint exCtx (exProcessor []) (Some exSpans)) = None /\
  frontier (fst (exCheckpoint exCtx (exProcessor []) (Some exSpans))) =
    fold_left (forwardOne exForward) exSpans (frontier (exProcessor [])) /\
  checkpointCh (fst (exCheckpoint exCtx (exProcessor []) (Some exSpans))) =
    checkpointCh (exProcessor []) ++ [Some exSpans] /\
  CheckpointEvents (metrics (fst (exCheckpoint exCtx (exProcessor []) (Some exSpans)))) =
    add64 (CheckpointEvents (metrics (exProcessor []))) 1.
Proof.
  split; [reflexivity|].
  exact (checkpoint_outcomes exForward exFrontier_Frontier exCtx (exProcessor [])
           (Some exSpans) eq_refl).
Defined.

(** [handleEvent_dispatch] on four events, no knob being installed. *)
Lemma handleEvent_dispatch_witness :
  runAfterReceivingEvent exCtx (proc (exLrw [] exEmptyPurgatory)) = None /\
  exHandleEvent exCtx (exLrw [] exEmptyPurgatory)
    (mkEvent KVEvent [exKV "a1" 10] None) =
    exHandleStreamBuffer exCtx (exLrw [] exEmptyPurgatory) [exKV "a1" 10] /\
  exHandleEvent exCtx (exLrw [] exEmptyPurgatory)
    (mkEvent CheckpointEvent [] (Some exSpans)) =
    exMaybeCheckpoint exCtx (exLrw [] exEmptyPurgatory) (Some exSpans) /\
  exHandleEvent exCtx (exLrw [] exEmptyPurgatory) (mkEvent SSTableEvent [] None) =
    Some (exLrw [] exEmptyPurgatory,
          Some (errors_Newf "unexpected event for online stream: %v"
                  (ArgEvent (mkEvent SSTableEvent [] None)))) /\
  exHandleEvent exCtx (exLrw [] exEmptyPurgatory) (mkEvent (OtherEventType 4) [] None) =
    Some (exLrw [] exEmptyPurgatory,
          Some (errors_Newf "unknown streaming event type %v"
                  (ArgEventType (OtherEventType 4)))).
Proof.
  split; [reflexivity|].
  pose (dispatch := handleEvent_dispatch exIsInitialized exForward
           exFrontier_Frontier exSplit exClock spec_Empty spec_Checkpoint
           (spec_Store exClock) (spec_Drain exClock) exCtx
           (exLrw [] exEmptyPurgatory)).
  split; [exact (dispatch (mkEvent KVEvent [exKV "a1" 10] None) eq_refl)|].
  split; [exact (dispatch (mkEvent CheckpointEvent [] (Some exSpans)) eq_refl)|].
  split; [exact (dispatch (mkEvent SSTableEvent [] None) eq_refl)|].
  exact (dispatch (mkEvent (OtherEventType 4) [] None) eq_refl).
Defined.

(** A processor with the after-receive knob installed, the knob
    returning an error. *)
Definition exKnobProcessor : @Processor exRow exWorld exFrontier :=
  mkProcessor 7 1 (mkSettings 32 true)
    (Some (mkKnobs (Some (fun _ => Some (Foreign 9))) None))
    (replicate maxWriterWorkers (exHandler [])) exDLQ
    [] [] zeroMetrics [] (mkWorld [] []) [] 0.

(** C8, as the claim has it, fails.  On that processor a split event
    returns the error of the knob and is not logged, and a KV event
    returns the same error, no row reaching the applier. *)
Theorem split_event_stopped_by_knob :
  Type_ (mkEvent SplitEvent [] None) = SplitEvent /\
  exHandleEvent exCtx (mkLrw exKnobProcessor exEmptyPurgatory)
    (mkEvent SplitEvent [] None) =
    Some (mkLrw exKnobProcessor exEmptyPurgatory, Some (Foreign 9)) /\
  logs exKnobProcessor = [] /\
  exHandleEvent exCtx (mkLrw exKnobProcessor exEmptyPurgatory)
    (mkEvent KVEvent [exKV "a1" 10] None) =
    Some (mkLrw exKnobProcessor exEmptyPurgatory, Some (Foreign 9)) /\
  destination (world exKnobProcessor) = [].
Proof. repeat split. Qed.

(** * Child keys of the vector index

    [pkg/sql/vecindex/vecstore/vecstorepb.go]: the methods [Equal] and
    [Compare] of [ChildKey].  A child key holds a partition key, an
    unsigned integer, and a primary key, a byte slice that may be [nil]. *)

Record ChildKey : Type := mkChildKey {
  PartitionKey : N;
  PrimaryKey : slice byte
}.

(** [func (k ChildKey) Equal(other ChildKey) bool]; for [bytes.Equal] a
    [nil] slice is an empty one. *)
Definition ChildKey_Equal (k other : ChildKey) : bool :=
  (PartitionKey k =? PartitionKey other)%N &&
  bytes_Equal (elems (PrimaryKey k)) (elems (PrimaryKey other)).

(** [func (k ChildKey) Compare(other ChildKey) int] *)
Definition ChildKey_Compare (k other : ChildKey) : Z :=
  match PrimaryKey k with
  | Some primaryKey => bytes_Compare primaryKey (elems (PrimaryKey other))
  | None =>
      if (PartitionKey k <? PartitionKey other)%N then -1
      else if (PartitionKey other <? PartitionKey k)%N then 1
      else 0
  end.

(** X17.  [ChildKey.Equal] is an equivalence on child keys, for which a
    [nil] primary key is the same as an empty one, and [Compare] respects
    it: two keys that are [Equal] compare as 0, in both directions. *)
Theorem ChildKey_Equal_is_an_equivalence :
  (forall k, ChildKey_Equal k k = true) /\
  (forall k other, ChildKey_Equal k other = ChildKey_Equal other k) /\
  (forall a b c,
     ChildKey_Equal a b = true -> ChildKey_Equal b c = true ->
     ChildKey_Equal a c = true) /\
  (forall k other,
     ChildKey_Equal k other = true ->
     ChildKey_Compare k other = 0 /\ ChildKey_Compare other k = 0).
Proof.
  assert (Heq : forall k other,
            ChildKey_Equal k other = true <->
            PartitionKey k = PartitionKey other /\
            elems (PrimaryKey k) = elems (PrimaryKey other)).
  { intros k other. unfold ChildKey_Equal.
    rewrite andb_true_iff, N.eqb_eq, bytes_Equal_eq. reflexivity. }
  assert (Hcmp : forall k other,
            PartitionKey k = PartitionKey other ->
            elems (PrimaryKey k) = elems (PrimaryKey other) ->
            ChildKey_Compare k other = 0).
  { intros k other Hp He. unfold ChildKey_Compare.
    destruct (PrimaryKey k) as [pk|] eqn:Hk.
    - apply bytes_Compare_eq. exact He.
    - rewrite Hp, N.ltb_irrefl. reflexivity. }
  split; [|split; [|split]].
  - intros k. apply Heq. split; reflexivity.
  - intros k other.
    destruct (ChildKey_Equal k other) eqn:E1, (ChildKey_Equal other k) eqn:E2;
      try reflexivity.
    + apply Heq in E1 as [H1 H2].
      assert (ChildKey_Equal other k = true) by (apply Heq; split; congruence).
      congruence.
    + apply Heq in E2 as [H1 H2].
      assert (ChildKey_Equal k other = true) by (apply Heq; split; congruence).
      congruence.
  - intros a b c Hab Hbc. apply Heq in Hab as [H1 H2]. apply Heq in Hbc as [H3 H4].
    apply Heq. split; congruence.
  - intros k other E. apply Heq in E as [H1 H2].
    split; apply Hcmp; congruence.
Qed.

(** X18.  Among keys of one kind, those that carry a primary key or
    those that carry none, [ChildKey.Compare] is an order: its result is
    -1, 0 or +1, swapping the keys negates it, and it is transitive.  Keys
    with a primary key are ordered by primary key alone, the others by
    partition key. *)
Theorem ChildKey_Compare_orders_keys_of_one_kind a b c :
  (is_Some (PrimaryKey a) <-> is_Some (PrimaryKey b)) ->
  (is_Some (PrimaryKey b) <-> is_Some (PrimaryKey c)) ->
  (ChildKey_Compare a b = -1 \/ ChildKey_Compare a b = 0 \/
   ChildKey_Compare a b = 1) /\
  ChildKey_Compare b a = - ChildKey_Compare a b /\
  (ChildKey_Compare a b <= 0 -> ChildKey_Compare b c <= 0 ->
   ChildKey_Compare a c <= 0).
Proof.
  intros Hab Hbc. unfold ChildKey_Compare.
  destruct (PrimaryKey a) as [pa|] eqn:Ha, (PrimaryKey b) as [pb|] eqn:Hb.
  - destruct (PrimaryKey c) as [pc|] eqn:Hc.
    + cbn [elems]. split; [apply bytes_Compare_range|].
      split; [apply bytes_Compare_antisym|apply bytes_Compare_trans].
    + exfalso. destruct Hbc as [Hbc _].
      destruct (Hbc (ex_intro _ pb eq_refl)) as [x Hx]. discriminate.
  - exfalso. destruct Hab as [Hab _].
    destruct (Hab (ex_intro _ pa eq_refl)) as [x Hx]. discriminate.
  - exfalso. destruct Hab as [_ Hab].
    destruct (Hab (ex_intro _ pb eq_refl)) as [x Hx]. discriminate.
  - destruct (PrimaryKey c) as [pc|] eqn:Hc.
    + exfalso. destruct Hbc as [_ Hbc].
      destruct (Hbc (ex_intro _ pc eq_refl)) as [x Hx]. discriminate.
    + repeat case_match; rewrite ?N.ltb_lt, ?N.ltb_ge in *;
        repeat split; try lia; auto.
Qed.

(** * The further properties on the small deployment *)

(** The small deployment with a ledger. *)
Definition exAuditedProcessor (s : Settings) (poison : Key)
  : @Processor exRow (exWorld * Ledger) exFrontier :=
  mkProcessor 7 1 s None
    (map audited (replicate maxWriterWorkers (exHandler poison)))
    (auditedDLQ exDLQ) [] [] zeroMetrics []
    (mkWorld [] [], mkLedger [] []) [] 0.

Abbreviation exAuditedFlushChunk :=
  (@flushChunk exRow exIsInitialized (exWorld * Ledger) exFrontier exClock).

Abbreviation exAuditedFlushBuffer :=
  (@flushBuffer exRow exIsInitialized (exWorld * Ledger) exFrontier exSplit exClock).

Abbreviation exConsumeEvents :=
  (@consumeEvents exRow exIsInitialized exWorld exFrontier exForward
     exFrontier_Frontier exSplit exClock exPurgatory spec_Empty spec_Checkpoint
     (spec_Store exClock) (spec_Drain exClock)).

(** What a call returned, for a call that returns. *)
Definition chunkOutcome {W}
    (r : option (@Processor exRow W exFrontier * list StreamEvent_KV *
                 (batchStats * option Error)))
    (d : @Processor exRow W exFrontier)
  : @Processor exRow W exFrontier * list StreamEvent_KV * (batchStats * option Error) :=
  match r with Some x => x | None => (d, [], (zeroStats, None)) end.

Definition bufferOutcome {W}
    (r : option (@Processor exRow W exFrontier * list StreamEvent_KV *
                 (slice StreamEvent_KV * option Error)))
    (d : @Processor exRow W exFrontier)
  : @Processor exRow W exFrontier * list StreamEvent_KV *
    (slice StreamEvent_KV * option Error) :=
  match r with Some x => x | None => (d, [], (None, None)) end.

(** A chunk of two rows, the first of which the handler rejects, flushed
    in one explicit transaction with [mustProcess = true]. *)
Definition exChunkResult :=
  exFlushChunk (exProcessorWith (mkSettings 32 false) keyA1) (exHandler keyA1)
    [exKV "a1" 10; exKV "b1" 11] true.

(** [flushChunk_only_zeroes_slots] on that chunk. *)
Lemma flushChunk_only_zeroes_slots_witness :
  exFlushChunk (exProcessorWith (mkSettings 32 false) keyA1) (exHandler keyA1)
    [exKV "a1" 10; exKV "b1" 11] true =
    Some (fst (fst (chunkOutcome exChunkResult (exProcessor []))),
          [exKV "a1" 10; zeroKV],
          snd (chunkOutcome exChunkResult (exProcessor []))) /\
  length [exKV "a1" 10; zeroKV] = length [exKV "a1" 10; exKV "b1" 11] /\
  forall i kv', [exKV "a1" 10; zeroKV] !! i = Some kv' ->
    kv' = zeroKV \/ [exKV "a1" 10; exKV "b1" 11] !! i = Some kv'.
Proof.
  assert (H : exFlushChunk (exProcessorWith (mkSettings 32 false) keyA1)
                (exHandler keyA1) [exKV "a1" 10; exKV "b1" 11] true =
              Some (fst (fst (chunkOutcome exChunkResult (exProcessor []))),
                    [exKV "a1" 10; zeroKV],
                    snd (chunkOutcome exChunkResult (exProcessor []))))
    by (vm_compute; reflexivity).
  split; [exact H|].
  exact (flushChunk_only_zeroes_slots exIsInitialized exClock
           (exProcessorWith (mkSettings 32 false) keyA1) (exHandler keyA1)
           [exKV "a1" 10; exKV "b1" 11] true
           (fst (fst (chunkOutcome exChunkResult (exProcessor []))))
           [exKV "a1" 10; zeroKV]
           (snd (chunkOutcome exChunkResult (exProcessor []))) H).
Defined.

(** A flush of three rows, one of which the handlers reject. *)
Definition exBufferResult :=
  exFlushBuffer exCtx (exProcessor keyA1) exRows false.

(** [flushBuffer_reports_no_progress] on that flush. *)
Lemma flushBuffer_reports_no_progress_witness :
  exFlushBuffer exCtx (exProcessor keyA1) exRows false =
    Some (fst (fst (bufferOutcome exBufferResult (exProcessor []))),
          [zeroKV; exKV "a1" 12; zeroKV], (Some [], None)) /\
  frontier (fst (fst (bufferOutcome exBufferResult (exProcessor [])))) =
    frontier (exProcessor keyA1) /\
  checkpointCh (fst (fst (bufferOutcome exBufferResult (exProcessor [])))) =
    checkpointCh (exProcessor keyA1).
Proof.
  assert (H : exFlushBuffer exCtx (exProcessor keyA1) exRows false =
              Some (fst (fst (bufferOutcome exBufferResult (exProcessor []))),
                    [zeroKV; exKV "a1" 12; zeroKV], (Some [], None)))
    by (vm_compute; reflexivity).
  split; [exact H|].
  destruct (flushBuffer_reports_no_progress exIsInitialized exSplit exClock exCtx
              (exProcessor keyA1) exRows false
              (fst (fst (bufferOutcome exBufferResult (exProcessor []))))
              [zeroKV; exKV "a1" 12; zeroKV] (Some [], None) H)
    as (H1 & H2 & _).
  split; [exact H1|exact H2].
Defined.

(** [flushBuffer_counts_every_row] on the same flush: three rows are
    counted as applied, one of which was not. *)
Lemma flushBuffer_counts_every_row_witness :
  exFlushBuffer exCtx (exProcessor keyA1)
    (exKV "a1" 12 :: [exKV "b1" 5; exKV "a2" 9]) false =
    Some (fst (fst (bufferOutcome exBufferResult (exProcessor []))),
          [zeroKV; exKV "a1" 12; zeroKV], (Some [], None)) /\
  AppliedRowUpdates
    (metrics (fst (fst (bufferOutcome exBufferResult (exProcessor []))))) =
    add64 (AppliedRowUpdates (metrics (exProcessor keyA1))) 3 /\
  StreamBatchRowsHist
    (metrics (fst (fst (bufferOutcome exBufferResult (exProcessor []))))) =
    StreamBatchRowsHist (metrics (exProcessor keyA1)) ++ [3].
Proof.
  assert (H : exFlushBuffer exCtx (exProcessor keyA1)
                (exKV "a1" 12 :: [exKV "b1" 5; exKV "a2" 9]) false =
              Some (fst (fst (bufferOutcome exBufferResult (exProcessor []))),
                    [zeroKV; exKV "a1" 12; zeroKV], (Some [], None)))
    by (vm_compute; reflexivity).
  split; [exact H|].
  destruct (flushBuffer_counts_every_row exIsInitialized exSplit exClock exCtx
              (exProcessor keyA1) (exKV "a1" 12) [exKV "b1" 5; exKV "a2" 9] false
              (fst (fst (bufferOutcome exBufferResult (exProcessor []))))
              [zeroKV; exKV "a1" 12; zeroKV] (Some []) None H)
    as (H1 & H2 & _).
  split; [exact H1|exact H2].
Defined.

(** [flushBuffer_leaves_sorted_buffer] on the same flush. *)
Lemma flushBuffer_leaves_sorted_buffer_witness :
  length (bh (exProcessor keyA1)) = maxWriterWorkers /\
  exFlushBuffer exCtx (exProcessor keyA1) exRows false =
    Some (fst (fst (bufferOutcome exBufferResult (exProcessor []))),
          [zeroKV; exKV "a1" 12; zeroKV], (Some [], None)) /\
  exists sorted,
    sorted ≡ₚ exRows /\ StronglySorted (cmpLe exSplit) sorted /\
    length [zeroKV; exKV "a1" 12; zeroKV] = length exRows /\
    forall i kv', [zeroKV; exKV "a1" 12; zeroKV] !! i = Some kv' ->
      kv' = zeroKV \/ sorted !! i = Some kv'.
Proof.
  assert (H : exFlushBuffer exCtx (exProcessor keyA1) exRows false =
              Some (fst (fst (bufferOutcome exBufferResult (exProcessor []))),
                    [zeroKV; exKV "a1" 12; zeroKV], (Some [], None)))
    by (vm_compute; reflexivity).
  split; [reflexivity|]. split; [exact H|].
  exact (flushBuffer_leaves_sorted_buffer exIsInitialized exSplit exClock exCtx
           (exProcessor keyA1) exRows false
           (fst (fst (bufferOutcome exBufferResult (exProcessor []))))
           [zeroKV; exKV "a1" 12; zeroKV] (Some [], None) eq_refl H).
Defined.

(** [flushChunk_batches] on a chunk of three rows cut into batches of two
    rows. *)
Lemma flushChunk_batches_witness :
  (1 <= batchSizeOf (settings (exProcessorWith (mkSettings 2 false) [])))%nat /\
  batchSizes (length exRows)
    (batchSizeOf (settings (exProcessorWith (mkSettings 2 false) []))) = [2; 1]%nat /\
  exists p' chunk' stats err,
    exFlushChunk (exProcessorWith (mkSettings 2 false) []) (exHandler []) exRows false
      = Some (p', chunk', (stats, err)) /\
    (err = None ->
     exists calls,
       debug p' = debug (exProcessorWith (mkSettings 2 false) []) ++ calls /\
       Forall2 batchApplied calls
         (batchSizes (length exRows)
            (batchSizeOf (settings (exProcessorWith (mkSettings 2 false) [])))) /\
       length (ApplyBatchNanosHist (metrics p')) =
         (length (ApplyBatchNanosHist
                    (metrics (exProcessorWith (mkSettings 2 false) []))) +
          length calls)%nat).
Proof.
  split; [apply le_S, le_n|]. split; [reflexivity|].
  exact (flushChunk_batches exIsInitialized exClock
           (exProcessorWith (mkSettings 2 false) []) (exHandler []) exRows false
           (le_S 1 1 (le_n 1))).
Defined.

(** [flushChunk_spins_on_batch_size_zero] on a chunk of one row. *)
Lemma flushChunk_spins_on_batch_size_zero_witness :
  useImplicitTxns (settings (exProcessorWith (mkSettings 0 false) [])) = false /\
  flushBatchSize (settings (exProcessorWith (mkSettings 0 false) [])) = 0%nat /\
  [exKV "a1" 10] <> [] /\
  exFlushChunk (exProcessorWith (mkSettings 0 false) []) (exHandler [])
    [exKV "a1" 10] false = None.
Proof.
  assert (Hne : [exKV "a1" 10] <> []) by discriminate.
  split; [reflexivity|]. split; [reflexivity|]. split; [exact Hne|].
  exact (proj1 (proj2 (proj2
           (flushChunk_spins_on_batch_size_zero exIsInitialized exClock
              (exProcessorWith (mkSettings 0 false) []) (exHandler [])
              [exKV "a1" 10] false eq_refl eq_refl Hne)))).
Defined.

(** [flushBuffer_worker_bound] on a buffer of three rows. *)
Lemma flushBuffer_worker_bound_witness :
  length (bh (exProcessor [])) = maxWriterWorkers /\
  (length (flushJobs exSplit (exProcessor []) exRows) <= (length exRows + 63) / 64)%nat /\
  ((1 <= length exRows <= 64)%nat ->
   exists h, bh (exProcessor []) !! 0%nat = Some h /\
             flushJobs exSplit (exProcessor []) exRows =
               [(h, slices_SortFunc exSplit exRows)]).
Proof.
  split; [reflexivity|].
  exact (flushBuffer_worker_bound exSplit (exProcessor []) exRows eq_refl).
Defined.

(** A chunk of two rows, the first of which the handler rejects, flushed
    with a ledger. *)
Definition exAuditedChunkResult (mustProcess : bool) :=
  exAuditedFlushChunk (exAuditedProcessor (mkSettings 32 false) keyA1)
    (audited (exHandler keyA1)) [exKV "a1" 10; exKV "b1" 11] mustProcess.

(** [flushChunk_must_process_disposes_of_every_row] on that chunk. *)
Lemma flushChunk_must_process_witness :
  dlqClient (exAuditedProcessor (mkSettings 32 false) keyA1) = auditedDLQ exDLQ /\
  exAuditedFlushChunk (exAuditedProcessor (mkSettings 32 false) keyA1)
    (audited (exHandler keyA1)) [exKV "a1" 10; exKV "b1" 11] true =
    Some (fst (fst (chunkOutcome (exAuditedChunkResult true)
                      (exAuditedProcessor (mkSettings 32 false) keyA1))),
          [exKV "a1" 10; zeroKV], (mkStats 0 1 0, None)) /\
  exists A D,
    appliedRows (ledger (fst (fst (chunkOutcome (exAuditedChunkResult true)
                      (exAuditedProcessor (mkSettings 32 false) keyA1))))) =
      appliedRows (ledger (exAuditedProcessor (mkSettings 32 false) keyA1)) ++ A /\
    deadLetteredRows (ledger (fst (fst (chunkOutcome (exAuditedChunkResult true)
                      (exAuditedProcessor (mkSettings 32 false) keyA1))))) =
      deadLetteredRows (ledger (exAuditedProcessor (mkSettings 32 false) keyA1)) ++ D /\
    A ++ D ≡ₚ [exKV "a1" 10; exKV "b1" 11] /\
    notProcessed (mkStats 0 1 0) = 0.
Proof.
  assert (H : exAuditedFlushChunk (exAuditedProcessor (mkSettings 32 false) keyA1)
                (audited (exHandler keyA1)) [exKV "a1" 10; exKV "b1" 11] true =
              Some (fst (fst (chunkOutcome (exAuditedChunkResult true)
                                (exAuditedProcessor (mkSettings 32 false) keyA1))),
                    [exKV "a1" 10; zeroKV], (mkStats 0 1 0, None)))
    by (vm_compute; reflexivity).
  split; [reflexivity|]. split; [exact H|].
  exact (flushChunk_must_process_disposes_of_every_row exIsInitialized exClock
           (exAuditedProcessor (mkSettings 32 false) keyA1) exDLQ (exHandler keyA1)
           [exKV "a1" 10; exKV "b1" 11]
           (fst (fst (chunkOutcome (exAuditedChunkResult true)
                        (exAuditedProcessor (mkSettings 32 false) keyA1))))
           [exKV "a1" 10; zeroKV] (mkStats 0 1 0) eq_refl H).
Defined.

(** [flushChunk_retry_later_keeps_failed_rows] on the same chunk. *)
Lemma flushChunk_retry_later_witness :
  dlqClient (exAuditedProcessor (mkSettings 32 false) keyA1) = auditedDLQ exDLQ /\
  Forall (fun kv => hasKey kv = true) [exKV "a1" 10; exKV "b1" 11] /\
  exAuditedFlushChunk (exAuditedProcessor (mkSettings 32 false) keyA1)
    (audited (exHandler keyA1)) [exKV "a1" 10; exKV "b1" 11] false =
    Some (fst (fst (chunkOutcome (exAuditedChunkResult false)
                      (exAuditedProcessor (mkSettings 32 false) keyA1))),
          [exKV "a1" 10; zeroKV], (mkStats 1 1 0, None)) /\
  deadLetteredRows (ledger (fst (fst (chunkOutcome (exAuditedChunkResult false)
                      (exAuditedProcessor (mkSettings 32 false) keyA1))))) =
    deadLetteredRows (ledger (exAuditedProcessor (mkSettings 32 false) keyA1)) /\
  notProcessed (mkStats 1 1 0) =
    wrap64 (Z.of_nat (length (leftInPlace [exKV "a1" 10; zeroKV]))).
Proof.
  assert (Hkeys : Forall (fun kv => hasKey kv = true) [exKV "a1" 10; exKV "b1" 11])
    by (repeat constructor).
  assert (H : exAuditedFlushChunk (exAuditedProcessor (mkSettings 32 false) keyA1)
                (audited (exHandler keyA1)) [exKV "a1" 10; exKV "b1" 11] false =
              Some (fst (fst (chunkOutcome (exAuditedChunkResult false)
                                (exAuditedProcessor (mkSettings 32 false) keyA1))),
                    [exKV "a1" 10; zeroKV], (mkStats 1 1 0, None)))
    by (vm_compute; reflexivity).
  split; [reflexivity|]. split; [exact Hkeys|]. split; [exact H|].
  destruct (flushChunk_retry_later_keeps_failed_rows exIsInitialized exClock
              (exAuditedProcessor (mkSettings 32 false) keyA1) exDLQ (exHandler keyA1)
              [exKV "a1" 10; exKV "b1" 11]
              (fst (fst (chunkOutcome (exAuditedChunkResult false)
                           (exAuditedProcessor (mkSettings 32 false) keyA1))))
              [exKV "a1" 10; zeroKV] (mkStats 1 1 0) None eq_refl Hkeys H)
    as (_ & H2 & _ & H4).
  split; [exact H2|exact H4].
Defined.

(** A flush of three rows, one of which the handlers reject, with a
    ledger. *)
Definition exAuditedBufferResult (mustProcess : bool) :=
  exAuditedFlushBuffer exCtx (exAuditedProcessor (mkSettings 32 true) keyA1)
    exRows mustProcess.

(** [flushBuffer_must_process_disposes_of_every_row] on that flush. *)
Lemma flushBuffer_must_process_witness :
  bh (exAuditedProcessor (mkSettings 32 true) keyA1) =
    map audited (replicate maxWriterWorkers (exHandler keyA1)) /\
  length (replicate maxWriterWorkers (exHandler keyA1)) = maxWriterWorkers /\
  dlqClient (exAuditedProcessor (mkSettings 32 true) keyA1) = auditedDLQ exDLQ /\
  exAuditedFlushBuffer exCtx (exAuditedProcessor (mkSettings 32 true) keyA1)
    exRows true =
    Some (fst (fst (bufferOutcome (exAuditedBufferResult true)
                      (exAuditedProcessor (mkSettings 32 true) keyA1))),
          [zeroKV; exKV "a1" 12; zeroKV], (None, None)) /\
  exists A D,
    appliedRows (ledger (fst (fst (bufferOutcome (exAuditedBufferResult true)
                      (exAuditedProcessor (mkSettings 32 true) keyA1))))) =
      appliedRows (ledger (exAuditedProcessor (mkSettings 32 true) keyA1)) ++ A /\
    deadLetteredRows (ledger (fst (fst (bufferOutcome (exAuditedBufferResult true)
                      (exAuditedProcessor (mkSettings 32 true) keyA1))))) =
      deadLetteredRows (ledger (exAuditedProcessor (mkSettings 32 true) keyA1)) ++ D /\
    A ++ D ≡ₚ exRows.
Proof.
  assert (H : exAuditedFlushBuffer exCtx
                (exAuditedProcessor (mkSettings 32 true) keyA1) exRows true =
              Some (fst (fst (bufferOutcome (exAuditedBufferResult true)
                                (exAuditedProcessor (mkSettings 32 true) keyA1))),
                    [zeroKV; exKV "a1" 12; zeroKV], (None, None)))
    by (vm_compute; reflexivity).
  split; [reflexivity|]. split; [reflexivity|]. split; [reflexivity|].
  split; [exact H|].
  exact (flushBuffer_must_process_disposes_of_every_row exIsInitialized exSplit
           exClock exCtx (exAuditedProcessor (mkSettings 32 true) keyA1) exDLQ
           (replicate maxWriterWorkers (exHandler keyA1)) exRows
           (fst (fst (bufferOutcome (exAuditedBufferResult true)
                        (exAuditedProcessor (mkSettings 32 true) keyA1))))
           [zeroKV; exKV "a1" 12; zeroKV] None eq_refl eq_refl eq_refl H).
Defined.

(** [flushBuffer_retry_later_keeps_every_row] on the same flush: the row
    that was not applied is still in the buffer. *)
Lemma flushBuffer_retry_later_witness :
  Forall (fun kv => hasKey kv = true) exRows /\
  exAuditedFlushBuffer exCtx (exAuditedProcessor (mkSettings 32 true) keyA1)
    exRows false =
    Some (fst (fst (bufferOutcome (exAuditedBufferResult false)
                      (exAuditedProcessor (mkSettings 32 true) keyA1))),
          [zeroKV; exKV "a1" 12; zeroKV], (Some [], None)) /\
  leftInPlace [zeroKV; exKV "a1" 12; zeroKV] = [exKV "a1" 12] /\
  deadLetteredRows (ledger (fst (fst (bufferOutcome (exAuditedBufferResult false)
                      (exAuditedProcessor (mkSettings 32 true) keyA1))))) =
    deadLetteredRows (ledger (exAuditedProcessor (mkSettings 32 true) keyA1)) /\
  exists A,
    appliedRows (ledger (fst (fst (bufferOutcome (exAuditedBufferResult false)
                      (exAuditedProcessor (mkSettings 32 true) keyA1))))) =
      appliedRows (ledger (exAuditedProcessor (mkSettings 32 true) keyA1)) ++ A /\
    A ++ leftInPlace [zeroKV; exKV "a1" 12; zeroKV] ≡ₚ exRows.
Proof.
  assert (Hkeys : Forall (fun kv => hasKey kv = true) exRows)
    by (repeat constructor).
  assert (H : exAuditedFlushBuffer exCtx
                (exAuditedProcessor (mkSettings 32 true) keyA1) exRows false =
              Some (fst (fst (bufferOutcome (exAuditedBufferResult false)
                                (exAuditedProcessor (mkSettings 32 true) keyA1))),
                    [zeroKV; exKV "a1" 12; zeroKV], (Some [], None)))
    by (vm_compute; reflexivity).
  split; [exact Hkeys|]. split; [exact H|]. split; [reflexivity|].
  exact (flushBuffer_retry_later_keeps_every_row exIsInitialized exSplit
           exClock exCtx (exAuditedProcessor (mkSettings 32 true) keyA1) exDLQ
           (replicate maxWriterWorkers (exHandler keyA1)) exRows
           (fst (fst (bufferOutcome (exAuditedBufferResult false)
                        (exAuditedProcessor (mkSettings 32 true) keyA1))))
           [zeroKV; exKV "a1" 12; zeroKV] (Some []) eq_refl eq_refl eq_refl
           Hkeys H).
Defined.

(** A checkpoint event followed by an SSTable event, which [handleEvent]
    refuses. *)
Definition exEvents : list Event :=
  [mkEvent CheckpointEvent [] (Some exSpans); mkEvent SSTableEvent [] None].

Definition exConsumed :=
  exConsumeEvents exCtx (exLrw [] exEmptyPurgatory) exEvents None.

Definition consumeOutcome
    (r : option (@lrwProcessor exRow exWorld exFrontier exPurgatory * option Error))
  : @lrwProcessor exRow exWorld exFrontier exPurgatory :=
  match r with Some (lrw, _) => lrw | None => exLrw [] exEmptyPurgatory end.


(** A flow on which the constructor can be run: a row processor that
    appends the row to the destination, a database that runs the closure of
    a transaction once, and a frontier that starts empty. *)
Definition exTxn : Type := unit.

Definition exRowProcessor : @RowProcessor exRow exWorld exTxn :=
  mkRowProcessor
    (fun w _ kv prev =>
       (mkWorld (destination w ++ [mkKV kv prev]) (deadLetters w),
        (mkStats 0 (Z.of_nat (length (RawBytes (Value_ kv)))) 0, None)))
    (fun _ => None).

Definition exDB : @DB exWorld exTxn :=
  mkDB (fun S w s closure => closure tt w s).

Definition exFlowCtx : @FlowCtx exWorld exTxn :=
  mkFlowCtx (mkSettings 32 true) exDB None 1 zeroMetrics.

Definition exSpec : LogicalReplicationWriterSpec :=
  mkSpec 7 (mkTimestamp 5 0)
    [mkSpan (list_byte_of_string "a") (list_byte_of_string "z")] exSpans.

Definition exMakeFrontierAt (ts : Timestamp) (spans : list Span)
  : exFrontier + Error := inl [].

Definition exMakeHandler (w : exWorld)
  : exWorld * (@RowProcessor exRow exWorld exTxn + Error) :=
  (w, inl exRowProcessor).

Definition exNewPurgatory (deadline delay levelLimit : Z) : exPurgatory :=
  mkPurgatory [] deadline delay (Z.to_nat levelLimit).

Definition exInit (flowCtx : @FlowCtx exWorld exTxn) (processorID : Z)
  : option Error := None.

Abbreviation exNewProcessor :=
  (@newLogicalReplicationWriterProcessor exRow exWorld exFrontier exPurgatory
     exTxn exMakeFrontierAt exForward exMakeHandler exDLQ exNewPurgatory exInit).

Definition exConstructed := exNewProcessor exFlowCtx 3 exSpec (mkWorld [] []) [] 0%nat.

Definition constructedProcessor
    (r : exWorld * (@lrwProcessor exRow exWorld exFrontier exPurgatory + Error))
  : @lrwProcessor exRow exWorld exFrontier exPurgatory :=
  match snd r with inl lrw => lrw | inr _ => exLrw [] exEmptyPurgatory end.

(** [newLogicalReplicationWriterProcessor_pool] on that flow. *)
Lemma newLogicalReplicationWriterProcessor_pool_witness :
  exNewProcessor exFlowCtx 3 exSpec (mkWorld [] []) [] 0%nat =
    (mkWorld [] [], inl (constructedProcessor exConstructed)) /\
  length (bh (proc (constructedProcessor exConstructed))) = maxWriterWorkers /\
  checkpointCh (proc (constructedProcessor exConstructed)) = [] /\
  purgatory (constructedProcessor exConstructed) =
    exNewPurgatory 60000000000 5000000000 10.
Proof.
  assert (H : exNewProcessor exFlowCtx 3 exSpec (mkWorld [] []) [] 0%nat =
              (mkWorld [] [], inl (constructedProcessor exConstructed)))
    by reflexivity.
  split; [exact H|].
  destruct (newLogicalReplicationWriterProcessor_pool exMakeFrontierAt exForward
              exMakeHandler exDLQ exNewPurgatory exInit exFlowCtx 3 exSpec
              (mkWorld [] []) [] 0%nat (mkWorld [] [])
              (constructedProcessor exConstructed) H)
    as (H1 & _ & H3 & _ & H5 & _).
  split; [exact H1|]. split; [exact H3|exact H5].
Defined.

(** A constructed processor flushes a buffer through its pool: the two
    rows reach the destination, each processed on its own outside any
    transaction. *)
Example constructed_processor_flushes :
  match exFlushBuffer exCtx (proc (constructedProcessor exConstructed))
          [exKV "b1" 20; exKV "a1" 10] true with
  | Some (p', buf, (unapplied, err)) =>
      err = None /\ buf = [zeroKV; zeroKV] /\
      destination (world p') = [exKV "a1" 10; exKV "b1" 20]
  | None => False
  end.
Proof. vm_compute. repeat split. Qed.

(** The small deployment with a trace of the calls. *)
Definition exTracedProcessor (s : Settings) (poison : Key)
  : @Processor exRow (exWorld * list Call) exFrontier :=
  mkProcessor 7 1 s None
    (map traced (replicate maxWriterWorkers (exHandler poison)))
    (tracedDLQ exDLQ) [] [] zeroMetrics []
    (mkWorld [] [], []) [] 0.

Abbreviation exTracedFlushChunk :=
  (@flushChunk exRow exIsInitialized (exWorld * list Call) exFrontier exClock).

Abbreviation exTracedFlushBuffer :=
  (@flushBuffer exRow exIsInitialized (exWorld * list Call) exFrontier exSplit exClock).

(** The chunk of two rows on it: the batch of both rows is refused, then
    the first row is refused on its own and dead-lettered, and the second
    is applied. *)
Definition exTracedChunkResult :=
  exTracedFlushChunk (exTracedProcessor (mkSettings 32 false) keyA1)
    (traced (exHandler keyA1)) [exKV "a1" 10; exKV "b1" 11] true.

Example traced_chunk_calls :
  trace (fst (fst (chunkOutcome exTracedChunkResult
                     (exTracedProcessor (mkSettings 32 false) keyA1)))) =
    [Refused [exKV "a1" 10; exKV "b1" 11] (Foreign 1);
     Refused [exKV "a1" 10] (Foreign 1);
     DeadLettered (exKV "a1" 10) (Foreign 1);
     Applied [exKV "b1" 11] (mkStats 0 1 0)].
Proof. vm_compute. reflexivity. Qed.

(** [flushChunk_dead_letters_row_errors] on that chunk. *)
Lemma flushChunk_dead_letters_row_errors_witness :
  dlqClient (exTracedProcessor (mkSettings 32 false) keyA1) = tracedDLQ exDLQ /\
  exTracedFlushChunk (exTracedProcessor (mkSettings 32 false) keyA1)
    (traced (exHandler keyA1)) [exKV "a1" 10; exKV "b1" 11] true =
    Some (fst (fst (chunkOutcome exTracedChunkResult
                      (exTracedProcessor (mkSettings 32 false) keyA1))),
          [exKV "a1" 10; zeroKV], (mkStats 0 1 0, None)) /\
  exists T,
    trace (fst (fst (chunkOutcome exTracedChunkResult
                       (exTracedProcessor (mkSettings 32 false) keyA1)))) =
      trace (exTracedProcessor (mkSettings 32 false) keyA1) ++ T /\
    deadLetterCalls T = rowFailures T /\
    byteSize (mkStats 0 1 0) = wrap64 (totalBytes (appliedStats T)) /\
    optimisticInsertConflicts (mkStats 0 1 0) =
      wrap64 (totalConflicts (appliedStats T)).
Proof.
  assert (H : exTracedFlushChunk (exTracedProcessor (mkSettings 32 false) keyA1)
                (traced (exHandler keyA1)) [exKV "a1" 10; exKV "b1" 11] true =
              Some (fst (fst (chunkOutcome exTracedChunkResult
                                (exTracedProcessor (mkSettings 32 false) keyA1))),
                    [exKV "a1" 10; zeroKV], (mkStats 0 1 0, None)))
    by (vm_compute; reflexivity).
  split; [reflexivity|]. split; [exact H|].
  exact (flushChunk_dead_letters_row_errors exIsInitialized exClock
           (exTracedProcessor (mkSettings 32 false) keyA1) exDLQ (exHandler keyA1)
           [exKV "a1" 10; exKV "b1" 11] true
           (fst (fst (chunkOutcome exTracedChunkResult
                        (exTracedProcessor (mkSettings 32 false) keyA1))))
           [exKV "a1" 10; zeroKV] (mkStats 0 1 0) eq_refl H).
Defined.

(** The buffer of three rows flushed on it row by row. *)
Definition exTracedBufferResult :=
  exTracedFlushBuffer exCtx (exTracedProcessor (mkSettings 32 true) keyA1)
    exRows true.

Example traced_buffer_metrics :
  let q' := fst (fst (bufferOutcome exTracedBufferResult
                        (exTracedProcessor (mkSettings 32 true) keyA1))) in
  AppliedLogicalBytes (metrics q') = 2 /\
  StreamBatchBytesHist (metrics q') = [2] /\
  AppliedRowUpdates (metrics q') = 3.
Proof. vm_compute. repeat split. Qed.

(** [flushBuffer_metrics_sum_applied_batches] on that flush. *)
Lemma flushBuffer_metrics_sum_applied_batches_witness :
  bh (exTracedProcessor (mkSettings 32 true) keyA1) =
    map traced (replicate maxWriterWorkers (exHandler keyA1)) /\
  length (replicate maxWriterWorkers (exHandler keyA1)) = maxWriterWorkers /\
  dlqClient (exTracedProcessor (mkSettings 32 true) keyA1) = tracedDLQ exDLQ /\
  exRows <> [] /\
  exTracedFlushBuffer exCtx (exTracedProcessor (mkSettings 32 true) keyA1)
    exRows true =
    Some (fst (fst (bufferOutcome exTracedBufferResult
                      (exTracedProcessor (mkSettings 32 true) keyA1))),
          [zeroKV; exKV "a1" 12; zeroKV], (None, None)) /\
  exists T,
    trace (fst (fst (bufferOutcome exTracedBufferResult
                       (exTracedProcessor (mkSettings 32 true) keyA1)))) =
      trace (exTracedProcessor (mkSettings 32 true) keyA1) ++ T /\
    AppliedLogicalBytes
      (metrics (fst (fst (bufferOutcome exTracedBufferResult
                            (exTracedProcessor (mkSettings 32 true) keyA1))))) =
      wrap64 (AppliedLogicalBytes
                (metrics (exTracedProcessor (mkSettings 32 true) keyA1)) +
              totalBytes (appliedStats T)) /\
    StreamBatchBytesHist
      (metrics (fst (fst (bufferOutcome exTracedBufferResult
                            (exTracedProcessor (mkSettings 32 true) keyA1))))) =
      StreamBatchBytesHist
        (metrics (exTracedProcessor (mkSettings 32 true) keyA1)) ++
      [wrap64 (totalBytes (appliedStats T))] /\
    OptimisticInsertConflictCount
      (metrics (fst (fst (bufferOutcome exTracedBufferResult
                            (exTracedProcessor (mkSettings 32 true) keyA1))))) =
      wrap64 (OptimisticInsertConflictCount
                (metrics (exTracedProcessor (mkSettings 32 true) keyA1)) +
              totalConflicts (appliedStats T)) /\
    deadLetterCalls T = rowFailures T.
Proof.
  assert (H : exTracedFlushBuffer exCtx
                (exTracedProcessor (mkSettings 32 true) keyA1) exRows true =
              Some (fst (fst (bufferOutcome exTracedBufferResult
                                (exTracedProcessor (mkSettings 32 true) keyA1))),
                    [zeroKV; exKV "a1" 12; zeroKV], (None, None)))
    by (vm_compute; reflexivity).
  assert (Hne : exRows <> []) by discriminate.
  split; [reflexivity|]. split; [reflexivity|]. split; [reflexivity|].
  split; [exact Hne|]. split; [exact H|].
  exact (flushBuffer_metrics_sum_applied_batches exIsInitialized exSplit exClock
           exCtx (exTracedProcessor (mkSettings 32 true) keyA1) exDLQ
           (replicate maxWriterWorkers (exHandler keyA1)) exRows true
           (fst (fst (bufferOutcome exTracedBufferResult
                        (exTracedProcessor (mkSettings 32 true) keyA1))))
           [zeroKV; exKV "a1" 12; zeroKV] None eq_refl eq_refl eq_refl Hne H).
Defined.

(** The database that runs the closure of a transaction once, on a
    destination that keeps the record of the calls. *)
Definition exRecordingDB : @DB (exWorld * list (@RowCall exTxn)) exTxn :=
  mkDB (fun S w s closure => closure tt w s).

Definition exRecordedBatch :=
  txnBatch_HandleBatch (mkTxnBatch exRecordingDB (recorded exRowProcessor))
    (mkWorld [] [], []) [exKV "a1" 10; exKV "b1" 11].

(** [txnBatch_HandleBatch_attempts] on a batch of two rows: both are
    processed in the transaction, in order, and counted. *)
Lemma txnBatch_HandleBatch_attempts_witness :
  (forall S w s c, DB_Txn exRecordingDB S w s c = c tt w s) /\
  length [exKV "a1" 10; exKV "b1" 11] <> 1%nat /\
  exRecordedBatch =
    ((mkWorld [exKV "a1" 10; exKV "b1" 11] [],
      [mkRowCall (Some tt) (exKV "a1" 10) (mkStats 0 1 0) None;
       mkRowCall (Some tt) (exKV "b1" 11) (mkStats 0 1 0) None]),
     (mkStats 0 2 0, None)) /\
  attemptOf tt [exKV "a1" 10; exKV "b1" 11] []
    [mkRowCall (Some tt) (exKV "a1" 10) (mkStats 0 1 0) None;
     mkRowCall (Some tt) (exKV "b1" 11) (mkStats 0 1 0) None]
    (mkStats 0 2 0) None.
Proof.
  assert (Hdb : forall S w s c, DB_Txn exRecordingDB S w s c = c tt w s)
    by (intros S w s c; reflexivity).
  assert (Hlen : length [exKV "a1" 10; exKV "b1" 11] <> 1%nat) by discriminate.
  assert (H : exRecordedBatch =
              ((mkWorld [exKV "a1" 10; exKV "b1" 11] [],
                [mkRowCall (Some tt) (exKV "a1" 10) (mkStats 0 1 0) None;
                 mkRowCall (Some tt) (exKV "b1" 11) (mkStats 0 1 0) None]),
               (mkStats 0 2 0, None)))
    by (vm_compute; reflexivity).
  split; [exact Hdb|]. split; [exact Hlen|]. split; [exact H|].
  exact (proj2 (proj2 (txnBatch_HandleBatch_attempts exRowProcessor))
           exRecordingDB tt Hdb [exKV "a1" 10; exKV "b1" 11]
           (mkWorld [] []) [] (mkWorld [exKV "a1" 10; exKV "b1" 11] [])
           [mkRowCall (Some tt) (exKV "a1" 10) (mkStats 0 1 0) None;
            mkRowCall (Some tt) (exKV "b1" 11) (mkStats 0 1 0) None]
           (mkStats 0 2 0) None Hlen H).
Defined.

(** Two child keys with a primary key each. *)
Definition exChildKey (partition : N) (primary : string) : ChildKey :=
  mkChildKey partition (Some (list_byte_of_string primary)).

(** [ChildKey_Compare_orders_keys_of_one_kind] on three such keys. *)
Lemma ChildKey_Compare_orders_keys_of_one_kind_witness :
  (is_Some (PrimaryKey (exChildKey 3 "a")) <-> is_Some (PrimaryKey (exChildKey 2 "b"))) /\
  (is_Some (PrimaryKey (exChildKey 2 "b")) <-> is_Some (PrimaryKey (exChildKey 1 "c"))) /\
  ChildKey_Compare (exChildKey 2 "b") (exChildKey 3 "a") =
    - ChildKey_Compare (exChildKey 3 "a") (exChildKey 2 "b") /\
  ChildKey_Compare (exChildKey 3 "a") (exChildKey 2 "b") = -1.
Proof.
  assert (H1 : is_Some (PrimaryKey (exChildKey 3 "a")) <->
               is_Some (PrimaryKey (exChildKey 2 "b")))
    by (split; intros _; eexists; reflexivity).
  assert (H2 : is_Some (PrimaryKey (exChildKey 2 "b")) <->
               is_Some (PrimaryKey (exChildKey 1 "c")))
    by (split; intros _; eexists; reflexivity).
  split; [exact H1|]. split; [exact H2|].
  split; [|reflexivity].
  exact (proj1 (proj2 (ChildKey_Compare_orders_keys_of_one_kind
                         (exChildKey 3 "a") (exChildKey 2 "b") (exChildKey 1 "c")
                         H1 H2))).
Defined.
